(** * Prerequisite parser and reverse-dependency graph of the course catalog

    A shallow embedding of [parse_all_courses.py] (class [PrerequisiteParser]
    and the batch loop of [main]) and of [add_reverse_prerequisites.py]
    (the course-code collection, the two reverse maps and the loop of [main]
    that attaches them to the records).

    Texts are strings over the code points 0..255; the character classes
    [\s], [\d], [\w] and [str.lower] follow Python's tables on that range.
    Python dictionaries with a ["type"] key are values of the inductive type
    [node]; a key that one construction site omits is an [option] field.
    The recursion of [_parse_expression] through [_parse_with_groups] is
    bounded by a fuel argument that stands for the interpreter's recursion
    limit: running out of it is the [RecursionError] of the source. *)

From Stdlib Require Import Strings.String Strings.Ascii Numbers.DecimalString.
From Stdlib Require Import Arith.PeanoNat Lia.
From stdpp Require Import base option list sorting gmap strings.

Local Open Scope string_scope.

(* ===================================================================== *)
(** ** Characters *)
(* ===================================================================== *)

Module Chars.

Definition code (c : ascii) : nat := nat_of_ascii c.

Definition between (lo hi : nat) (c : ascii) : bool :=
  Nat.leb lo (code c) && Nat.leb (code c) hi.

(** [str.isspace] and the class [\s] of [re]. *)
Definition is_space (c : ascii) : bool :=
  between 9 13 c || between 28 32 c || Nat.eqb (code c) 133 || Nat.eqb (code c) 160.

(** The class [\d]. *)
Definition is_digit (c : ascii) : bool := between 48 57 c.

(** The class [\w]: alphanumeric code points and the underscore. *)
Definition is_word (c : ascii) : bool :=
  between 48 57 c || between 65 90 c || Nat.eqb (code c) 95 || between 97 122 c
  || Nat.eqb (code c) 170 || between 178 179 c || Nat.eqb (code c) 181
  || between 185 186 c || between 188 190 c
  || between 192 214 c || between 216 246 c || between 248 255 c.

(** [str.lower] on one character. *)
Definition lower (c : ascii) : ascii :=
  if between 65 90 c || between 192 214 c || between 216 222 c
  then ascii_of_nat (code c + 32) else c.

(** The simple upper-case mapping, where it stays below 256. *)
Definition upper (c : ascii) : ascii :=
  if between 97 122 c || between 224 246 c || between 248 254 c
  then ascii_of_nat (code c - 32) else c.

Definition eqb_nocase (a b : ascii) : bool := Ascii.eqb (lower a) (lower b).

End Chars.

(* ===================================================================== *)
(** ** The [str] methods the parser calls *)
(* ===================================================================== *)

Module Str.

Definition is_empty (s : string) : bool :=
  match s with EmptyString => true | _ => false end.

(** [c in s] for a single character. *)
Fixpoint has_char (c : ascii) (s : string) : bool :=
  match s with
  | EmptyString => false
  | String x s' => Ascii.eqb x c || has_char c s'
  end.

Fixpoint lower (s : string) : string :=
  match s with
  | EmptyString => EmptyString
  | String c s' => String (Chars.lower c) (lower s')
  end.

Fixpoint rev_onto (s acc : string) : string :=
  match s with
  | EmptyString => acc
  | String c s' => rev_onto s' (String c acc)
  end.

Definition rev (s : string) : string := rev_onto s EmptyString.

(** [s.lstrip] for a set of characters given as a predicate. *)
Fixpoint lstrip_by (p : ascii -> bool) (s : string) : string :=
  match s with
  | EmptyString => EmptyString
  | String c s' => if p c then lstrip_by p s' else s
  end.

Definition rstrip_by (p : ascii -> bool) (s : string) : string :=
  rev (lstrip_by p (rev s)).

Definition strip_by (p : ascii -> bool) (s : string) : string :=
  rstrip_by p (lstrip_by p s).

(** [s.strip()] *)
Definition strip (s : string) : string := strip_by Chars.is_space s.

(** [s.strip(chars)] *)
Definition strip_chars (chars s : string) : string :=
  strip_by (fun c => has_char c chars) s.

(** [s.startswith(p)] *)
Definition startswith (p s : string) : bool := String.prefix p s.

(** [s[n:]] and [s[:n]] for [0 <= n]. *)
Fixpoint drop (n : nat) (s : string) : string :=
  match n, s with
  | O, _ => s
  | S n', String _ s' => drop n' s'
  | S _, EmptyString => EmptyString
  end.

Fixpoint take (n : nat) (s : string) : string :=
  match n, s with
  | O, _ => EmptyString
  | S n', String c s' => String c (take n' s')
  | S _, EmptyString => EmptyString
  end.

(** [s[i:j]] for [0 <= i <= j]. *)
Definition slice (i j : nat) (s : string) : string := take (j - i) (drop i s).

(** [p in s] for a substring [p]. *)
Fixpoint contains (p s : string) : bool :=
  String.prefix p s ||
  match s with
  | EmptyString => false
  | String _ s' => contains p s'
  end.

(** [s.replace(old, new)] for a non-empty [old]: the occurrences are taken
    from the left and do not overlap. *)
Fixpoint replace_go (fuel : nat) (old new s : string) : string :=
  match fuel with
  | O => s
  | S fuel' =>
    match s with
    | EmptyString => EmptyString
    | String c s' =>
      if String.prefix old s
      then new ++ replace_go fuel' old new (drop (String.length old) s)
      else String c (replace_go fuel' old new s')
    end
  end.

Definition replace (old new s : string) : string :=
  replace_go (String.length s) old new s.

(** The decimal rendering of a counter inside an f-string. *)
Definition of_nat (n : nat) : string := NilZero.string_of_uint (Nat.to_uint n).

End Str.

(* ===================================================================== *)
(** ** The fragment of [re] the patterns of the repository use *)
(* ===================================================================== *)

Module Re.

(** Character classes. *)
Inductive cls : Type :=
| CLit (c : ascii)              (* a literal character *)
| CRange (lo hi : ascii)        (* [lo-hi] *)
| CSpace                        (* \s *)
| CDigit                        (* \d *)
| CDot                          (* .  : anything but a newline *)
| CNoneOf (chars : string).     (* [^chars] *)

(** Patterns. Repetition is over one character class, which is all the
    patterns of the source need: [x*], [x+], [x?], [x{n}] and the lazy
    [x+?]. *)
Inductive regex : Type :=
| Eps
| One (c : cls)
| Rep (greedy : bool) (lo : nat) (hi : option nat) (c : cls)
| Seq (r1 r2 : regex)
| Alt (r1 r2 : regex)
| Grp (n : nat) (r : regex)     (* capturing group number n *)
| Bol                           (* ^ *)
| Eol                           (* $ *)
| WordB.                        (* \b *)

Definition newline : ascii := ascii_of_nat 10.

Definition in_range (lo hi x : ascii) : bool :=
  Nat.leb (Chars.code lo) (Chars.code x) && Nat.leb (Chars.code x) (Chars.code hi).

(** Membership of a character in a class; [icase] is [re.IGNORECASE]. *)
Definition in_cls (icase : bool) (c : cls) (x : ascii) : bool :=
  match c with
  | CLit a => if icase then Chars.eqb_nocase a x else Ascii.eqb a x
  | CRange lo hi =>
      in_range lo hi x
      || (icase && (in_range lo hi (Chars.lower x) || in_range lo hi (Chars.upper x)))
  | CSpace => Chars.is_space x
  | CDigit => Chars.is_digit x
  | CDot => negb (Ascii.eqb x newline)
  | CNoneOf chars => negb (Str.has_char x chars)
  end.

(** A position inside the subject: the character before it (if any), the
    text from it on, its index, and the groups captured so far. *)
Record mstate : Type := MState {
  ms_prev : option ascii;
  ms_rest : string;
  ms_pos : nat;
  ms_caps : list (nat * (nat * nat))
}.

Definition word_opt (o : option ascii) : bool :=
  match o with Some c => Chars.is_word c | None => false end.

Definition head_opt (s : string) : option ascii :=
  match s with String c _ => Some c | EmptyString => None end.

Definition at_word_boundary (st : mstate) : bool :=
  xorb (word_opt (ms_prev st)) (word_opt (head_opt (ms_rest st))).

(** [$] without [re.MULTILINE]: the end, or just before a final newline. *)
Definition at_eol (st : mstate) : bool :=
  match ms_rest st with
  | EmptyString => true
  | String c EmptyString => Ascii.eqb c newline
  | _ => false
  end.

Definition hi_allows (hi : option nat) : bool :=
  match hi with Some O => false | _ => true end.

Definition hi_pred (hi : option nat) : option nat :=
  match hi with Some n => Some (Nat.pred n) | None => None end.

(** Backtracking repetition of a class, with the continuation [k] deciding
    whether the rest of the pattern matches. A greedy repetition tries to
    take one more character before it tries [k]; a lazy one tries [k]
    first. *)
Fixpoint rep (icase greedy : bool) (c : cls) (lo : nat) (hi : option nat)
    (prev : option ascii) (s : string) (pos : nat) (caps : list (nat * (nat * nat)))
    (k : mstate -> option mstate) {struct s} : option mstate :=
  let more :=
    match s with
    | String x s' =>
        if in_cls icase c x && hi_allows hi
        then rep icase greedy c (Nat.pred lo) (hi_pred hi) (Some x) s' (S pos) caps k
        else None
    | EmptyString => None
    end in
  let stop := k (MState prev s pos caps) in
  match lo with
  | S _ => more
  | O =>
      if greedy
      then match more with Some r => Some r | None => stop end
      else match stop with Some r => Some r | None => more end
  end.

(** The backtracking matcher, in continuation-passing style: alternatives
    are tried from the left, as [re] does. *)
Fixpoint rmatch (icase : bool) (r : regex) (st : mstate)
    (k : mstate -> option mstate) {struct r} : option mstate :=
  match r with
  | Eps => k st
  | One c =>
      match ms_rest st with
      | String x s' =>
          if in_cls icase c x
          then k (MState (Some x) s' (S (ms_pos st)) (ms_caps st))
          else None
      | EmptyString => None
      end
  | Rep greedy lo hi c =>
      rep icase greedy c lo hi (ms_prev st) (ms_rest st) (ms_pos st) (ms_caps st) k
  | Seq r1 r2 => rmatch icase r1 st (fun st' => rmatch icase r2 st' k)
  | Alt r1 r2 =>
      match rmatch icase r1 st k with
      | Some res => Some res
      | None => rmatch icase r2 st k
      end
  | Grp n r1 =>
      rmatch icase r1 st (fun st' =>
        k (MState (ms_prev st') (ms_rest st') (ms_pos st')
                  ((n, (ms_pos st, ms_pos st')) :: ms_caps st')))
  | Bol => if Nat.eqb (ms_pos st) 0 then k st else None
  | Eol => if at_eol st then k st else None
  | WordB => if at_word_boundary st then k st else None
  end.

(** A match object: [m.start()], [m.end()] and the spans of its groups. *)
Record rmatch_obj : Type := MatchObj {
  m_start : nat;
  m_end : nat;
  m_caps : list (nat * (nat * nat))
}.

Definition match_here (icase : bool) (r : regex) (prev : option ascii)
    (s : string) (pos : nat) : option rmatch_obj :=
  match rmatch icase r (MState prev s pos []) Some with
  | Some st => Some (MatchObj pos (ms_pos st) (ms_caps st))
  | None => None
  end.

(** The leftmost match that starts at [pos] or later. *)
Fixpoint scan (icase : bool) (r : regex) (prev : option ascii) (s : string)
    (pos : nat) {struct s} : option rmatch_obj :=
  match match_here icase r prev s pos with
  | Some m => Some m
  | None =>
      match s with
      | String x s' => scan icase r (Some x) s' (S pos)
      | EmptyString => None
      end
  end.

(** [re.search(pattern, text)] *)
Definition search (icase : bool) (r : regex) (text : string) : option rmatch_obj :=
  scan icase r None text 0.

Definition prev_at (text : string) (pos : nat) : option ascii :=
  match pos with O => None | S p => String.get p text end.

(** All the non-overlapping matches, from the left ([re.finditer]). After
    an empty match the scan moves on by one character. *)
Fixpoint finditer_from (fuel : nat) (icase : bool) (r : regex) (text : string)
    (pos : nat) : list rmatch_obj :=
  match fuel with
  | O => []
  | S fuel' =>
      match scan icase r (prev_at text pos) (Str.drop pos text) pos with
      | None => []
      | Some m =>
          let next := if Nat.ltb (m_start m) (m_end m) then m_end m else S (m_end m) in
          if Nat.leb next (String.length text)
          then m :: finditer_from fuel' icase r text next
          else [m]
      end
  end.

Definition finditer (icase : bool) (r : regex) (text : string) : list rmatch_obj :=
  finditer_from (S (String.length text)) icase r text 0.

(** [m.group(0)] *)
Definition group0 (text : string) (m : rmatch_obj) : string :=
  Str.slice (m_start m) (m_end m) text.

Fixpoint cap_lookup (n : nat) (caps : list (nat * (nat * nat))) : option (nat * nat) :=
  match caps with
  | [] => None
  | (i, span) :: caps' => if Nat.eqb i n then Some span else cap_lookup n caps'
  end.

(** [m.group(n)] for a group that took part in the match. *)
Definition group (n : nat) (text : string) (m : rmatch_obj) : string :=
  match cap_lookup n (m_caps m) with
  | Some (i, j) => Str.slice i j text
  | None => EmptyString
  end.

(** [re.findall] for a pattern without groups. *)
Definition findall (icase : bool) (r : regex) (text : string) : list string :=
  map (group0 text) (finditer icase r text).

(** [re.sub(pattern, repl, text)] with a callable [repl] that may update a
    state of its own (the closure variables of the source). *)
Fixpoint sub_go {A : Type} (repl : A -> string -> A * string) (text : string)
    (ms : list rmatch_obj) (pos : nat) (a : A) : A * string :=
  match ms with
  | [] => (a, Str.drop pos text)
  | m :: ms' =>
      let '(a1, out) := repl a (group0 text m) in
      let '(a2, tail) := sub_go repl text ms' (m_end m) a1 in
      (a2, Str.slice pos (m_start m) text ++ out ++ tail)
  end.

Definition sub_fn {A : Type} (icase : bool) (r : regex)
    (repl : A -> string -> A * string) (a : A) (text : string) : A * string :=
  sub_go repl text (finditer icase r text) 0 a.

(** [re.sub(pattern, repl, text)] with a constant replacement string. *)
Definition sub (icase : bool) (r : regex) (repl text : string) : string :=
  snd (sub_fn icase r (fun (_ : unit) _ => (tt, repl)) tt text).

(** [re.split(pattern, text)] for a pattern without groups. *)
Fixpoint split_go (text : string) (ms : list rmatch_obj) (pos : nat) : list string :=
  match ms with
  | [] => [Str.drop pos text]
  | m :: ms' => Str.slice pos (m_start m) text :: split_go text ms' (m_end m)
  end.

Definition split (icase : bool) (r : regex) (text : string) : list string :=
  split_go text (finditer icase r text) 0.

(** Pattern builders: a literal string, and the usual quantifiers. *)
Fixpoint lit (s : string) : regex :=
  match s with
  | EmptyString => Eps
  | String c EmptyString => One (CLit c)
  | String c s' => Seq (One (CLit c)) (lit s')
  end.

Definition star (c : cls) : regex := Rep true 0 None c.
Definition plus (c : cls) : regex := Rep true 1 None c.
Definition lazy_plus (c : cls) : regex := Rep false 1 None c.
Definition opt (c : cls) : regex := Rep true 0 (Some 1) c.
Definition times (n : nat) (c : cls) : regex := Rep true n (Some n) c.

Fixpoint seqs (rs : list regex) : regex :=
  match rs with
  | [] => Eps
  | [r] => r
  | r :: rs' => Seq r (seqs rs')
  end.

End Re.

(* ===================================================================== *)
(** ** Exceptions *)
(* ===================================================================== *)

(** The only exception the parser can raise on string arguments is the
    interpreter's [RecursionError], when [_parse_expression] and
    [_parse_with_groups] keep calling each other. The batch loop can meet
    two more: [AttributeError], when it calls [.get] on an element that is
    not an object or [.strip()] on a value that is not a string, and
    [UnboundLocalError], when its handler reads a local variable that no
    turn of the loop has assigned yet. *)
Inductive exn : Type := RecursionError | AttributeError | UnboundLocalError.

Inductive result (A : Type) : Type :=
| Ret (a : A)
| Raise (e : exn).

Arguments Ret {A} a.
Arguments Raise {A} e.

#[global] Instance result_ret : MRet result := fun A a => Ret a.
#[global] Instance result_bind : MBind result := fun A B f m =>
  match m with Ret a => f a | Raise e => Raise e end.

(* ===================================================================== *)
(** ** The expression tree *)
(* ===================================================================== *)

Inductive category : Type := standing | approval | exemption | preparation | other.

#[global] Instance category_eq_dec : EqDecision category.
Proof. solve_decision. Defined.

(** The dictionaries tagged by ["type"]. A ["course"] dictionary holds the
    keys ["is_concurrent"] and ["is_optional"] only where the construction
    site writes them, hence the [option]s; the ["expression"] of a group is
    whatever [_parse_expression] returned, possibly [None]. *)
#[warnings="-register-all"]
Inductive node : Type :=
| Course (course_code : string) (is_concurrent is_optional : option bool)
| And (children : list node)
| Or (children : list node)
| Group (expression : option node)
| Concurrent (course : node) (note : string)
| TextCondition (condition : string) (cat : category).

(** The dictionary [parse] returns; ["parse_error"] is only written by the
    exception handler of the batch loop. *)
Record ast : Type := Ast {
  prerequisites : option node;
  corequisites : option node;
  raw_text : string;
  parse_error : option exn
}.

(** Induction over the tree, children and group contents included. *)
Section node_ind.
Variable P : node -> Prop.
Hypothesis HCourse : forall code ic io, P (Course code ic io).
Hypothesis HAnd : forall cs, Forall P cs -> P (And cs).
Hypothesis HOr : forall cs, Forall P cs -> P (Or cs).
Hypothesis HGroupNone : P (Group None).
Hypothesis HGroupSome : forall e, P e -> P (Group (Some e)).
Hypothesis HConcurrent : forall c note, P c -> P (Concurrent c note).
Hypothesis HText : forall t c, P (TextCondition t c).

Fixpoint node_ind' (n : node) : P n :=
  match n with
  | Course code ic io => HCourse code ic io
  | And cs =>
      HAnd cs ((fix go (l : list node) : Forall P l :=
                  match l with
                  | [] => @List.Forall_nil _ P
                  | x :: l' => @List.Forall_cons _ P x l' (node_ind' x) (go l')
                  end) cs)
  | Or cs =>
      HOr cs ((fix go (l : list node) : Forall P l :=
                 match l with
                 | [] => @List.Forall_nil _ P
                 | x :: l' => @List.Forall_cons _ P x l' (node_ind' x) (go l')
                 end) cs)
  | Group None => HGroupNone
  | Group (Some e) => HGroupSome e (node_ind' e)
  | Concurrent c note => HConcurrent c note (node_ind' c)
  | TextCondition t c => HText t c
  end.
End node_ind.

(* ===================================================================== *)
(** ** [class PrerequisiteParser] *)
(* ===================================================================== *)

Module PrerequisiteParser.

Import Re.

(** [COURSE_PATTERN = r'\b[A-Z]{4}\s*\d{4}\b'] *)
Definition COURSE_PATTERN : regex :=
  seqs [WordB; times 4 (CRange "A" "Z"); star CSpace; times 4 CDigit; WordB].

(** [self.text_conditions], in the insertion order of the dictionary. *)
Definition text_conditions : list (category * list string) :=
  [ (standing, ["senior standing"; "junior standing"; "sophomore standing";
                "freshman standing"; "standing"]);
    (approval, ["instructor approval"; "consent of instructor"; "approval";
                "permission"; "instructor consent"]);
    (exemption, ["exemption"]);
    (preparation, ["preparation course"; "college level"]) ].

(** [r'for\s+(.+?)(?:\.|$)'] *)
Definition NOTE_PATTERN : regex :=
  seqs [lit "for"; plus CSpace; Grp 1 (lazy_plus CDot); Alt (One (CLit ".")) Eol].

(** The note of [_parse_concurrent]: group 1 of the first match of the
    note pattern, trimmed, when the lower-cased text contains "for". *)
Definition concurrent_note (text : string) : string :=
  if Str.contains "for" (Str.lower text) then
    match search true NOTE_PATTERN text with
    | Some note_match => Str.strip (group 1 text note_match)
    | None => ""
    end
  else "".

(** [_parse_concurrent] *)
Definition _parse_concurrent (text : string) : option node :=
  if Str.is_empty text then None else
  let courses := findall false COURSE_PATTERN text in
  let note := concurrent_note text in
  match courses with
  | [] => None
  | c0 :: _ =>
      let course_node :=
        if Nat.ltb 1 (length courses)
        then Or (map (fun c => Course (Str.replace " " "" c) None None) courses)
        else Course (Str.replace " " "" c0) None None in
      Some (Concurrent course_node note)
  end.

(** [r'\(\s*or\s+concurrent\s*\)'] *)
Definition OR_CONCURRENT_PATTERN : regex :=
  seqs [One (CLit "("); star CSpace; lit "or"; plus CSpace; lit "concurrent";
        star CSpace; One (CLit ")")].

(** The inner loop of the category search: the first keyword found in the
    text sets the category and leaves the loop. *)
Fixpoint keyword_loop (cat : category) (keywords : list string)
    (text_lower : string) (current : category) : category :=
  match keywords with
  | [] => current
  | keyword :: keywords' =>
      if Str.contains keyword text_lower then cat
      else keyword_loop cat keywords' text_lower current
  end.

(** The outer loop runs over every entry of the table. *)
Definition category_loop (table : list (category * list string))
    (text_lower : string) : category :=
  fold_left (fun current '(cat, keywords) =>
               keyword_loop cat keywords text_lower current) table other.

(** [_parse_atomic] *)
Definition _parse_atomic (text : string) : option node :=
  if Str.is_empty text then None else
  let text := Str.strip_chars " ,." text in
  let '(is_concurrent, text) :=
    match search true OR_CONCURRENT_PATTERN text with
    | Some concurrent_match =>
        (true, Str.strip (Str.take (m_start concurrent_match) text)
               ++ Str.strip (Str.drop (m_end concurrent_match) text))
    | None => (false, text)
    end in
  match search false COURSE_PATTERN text with
  | Some course_match =>
      Some (Course (Str.replace " " "" (group0 text course_match))
                   (Some is_concurrent) (Some false))
  | None =>
      let text_lower := Str.lower text in
      let cat := category_loop text_conditions text_lower in
      if negb (bool_decide (cat = other)) || Nat.ltb 5 (String.length text)
      then Some (TextCondition text cat)
      else None
  end.

(** [r'\s+or\s+'] and [r'\s+and\s+'] *)
Definition OR_SPLIT : regex := seqs [plus CSpace; lit "or"; plus CSpace].
Definition AND_SPLIT : regex := seqs [plus CSpace; lit "and"; plus CSpace].

(** What a combinator makes of the children that survived: one child is
    returned as it is, two or more are put under the connective, and with
    none the caller goes on to its last line. *)
Definition combine (mk : list node -> node) (children : list node)
  : option node :=
  match children with
  | [] => None
  | [child] => Some child
  | _ => Some (mk children)
  end.

(** [_parse_or_expression] *)
Definition _parse_or_expression (text : string) : option node :=
  if Str.is_empty text then None else
  let or_parts := split true OR_SPLIT text in
  let combined :=
    if Nat.ltb 1 (length or_parts)
    then combine Or (omap (fun part => _parse_atomic (Str.strip part)) or_parts)
    else None in
  match combined with
  | Some n => Some n
  | None => _parse_atomic text
  end.

(** [r'\band\s+concurrent\b'] *)
Definition AND_CONCURRENT : regex :=
  seqs [WordB; lit "and"; plus CSpace; lit "concurrent"; WordB].

(** [_split_on_and] *)
Definition _split_on_and (text : string) : list string :=
  let text := sub true AND_CONCURRENT "~~~CONCURRENT~~~" text in
  let parts := split true AND_SPLIT text in
  map (Str.replace "~~~CONCURRENT~~~" "and concurrent") parts.

(** [r'^Pre-requisites\s+or\s+concurrent:\s*'] and [r'^Prerequisite:\s*'] *)
Definition PREFIX_OR_CONCURRENT : regex :=
  seqs [Bol; lit "Pre-requisites"; plus CSpace; lit "or"; plus CSpace;
        lit "concurrent:"; star CSpace].
Definition PREFIX_PREREQUISITE : regex :=
  seqs [Bol; lit "Prerequisite:"; star CSpace].

(** The first lines of [_parse_expression]: trim, then drop the labels. *)
Definition normalize (text : string) : string :=
  let text := Str.strip text in
  let text := sub true PREFIX_OR_CONCURRENT "" text in
  sub true PREFIX_PREREQUISITE "" text.

(** [group_pattern = r'\([^()]+\)'] *)
Definition GROUP_PATTERN : regex :=
  seqs [One (CLit "("); plus (CNoneOf "()"); One (CLit ")")].

(** The closure [replace_group]: its state is the counter and the
    placeholder map of the enclosing call. *)
Definition replace_group (st : nat * gmap string string) (matched : string)
  : (nat * gmap string string) * string :=
  let '(counter, placeholder_map) := st in
  let group_text := Str.slice 1 (String.length matched - 1) matched in
  let placeholder := "~~~GROUP" ++ Str.of_nat counter ++ "~~~" in
  ((S counter, <[placeholder := group_text]> placeholder_map), placeholder).

(** The loop over the children of an ["and"] or ["or"] node in
    [_replace_placeholders]: a child is kept when its replacement is not
    [None]. *)
Definition replace_children (replace : node -> result (option node))
  : list node -> result (list node) :=
  fix loop (cs : list node) : result (list node) :=
    match cs with
    | [] => Ret []
    | child :: cs' =>
        new_child ← replace child;
        new_children ← loop cs';
        Ret (match new_child with
             | Some c => c :: new_children
             | None => new_children
             end)
    end.

Section groups.
(** The recursive call to [_parse_expression]. *)
Variable parse_expression : string -> result (option node).

(** [_replace_placeholders] on a node that is not [None]. *)
Fixpoint replace_node (placeholder_map : gmap string string) (n : node)
  : result (option node) :=
  match n with
  | Course course_code _ _ =>
      if Str.startswith "~~~GROUP" course_code then
        match placeholder_map !! course_code with
        | Some group_text =>
            group_node ← parse_expression group_text;
            Ret (Some (Group group_node))
        | None => Ret (Some n)
        end
      else Ret (Some n)
  | And children =>
      new_children ← replace_children (replace_node placeholder_map) children;
      Ret (Some (And new_children))
  | Or children =>
      new_children ← replace_children (replace_node placeholder_map) children;
      Ret (Some (Or new_children))
  | Group (Some e) =>
      e' ← replace_node placeholder_map e;
      Ret (Some (Group e'))
  | Group None => Ret (Some (Group None))
  | Concurrent _ _ | TextCondition _ _ => Ret (Some n)
  end.

(** [_replace_placeholders] *)
Definition _replace_placeholders (n : option node)
    (placeholder_map : gmap string string) : result (option node) :=
  match n with
  | None => Ret None
  | Some n' => replace_node placeholder_map n'
  end.

(** [_parse_with_groups] *)
Definition _parse_with_groups (text : string) : result (option node) :=
  let '((_, placeholder_map), modified_text) :=
    sub_fn false GROUP_PATTERN replace_group (0, ∅) text in
  res ← parse_expression modified_text;
  _replace_placeholders res placeholder_map.
End groups.

(** [_parse_expression] *)
Fixpoint _parse_expression (fuel : nat) (text : string) : result (option node) :=
  match fuel with
  | O => Raise RecursionError
  | S fuel' =>
      if Str.is_empty text then Ret None else
      let text := normalize text in
      if Str.has_char "(" text && Str.has_char ")" text
      then _parse_with_groups (_parse_expression fuel') text
      else
        let and_parts := _split_on_and text in
        let combined :=
          if Nat.ltb 1 (length and_parts)
          then combine And
                 (omap (fun part => _parse_or_expression (Str.strip part)) and_parts)
          else None in
        match combined with
        | Some n => Ret (Some n)
        | None => Ret (_parse_or_expression text)
        end
  end.

(** The pattern of [_split_prereq_and_concurrent]. *)
Definition CONCURRENT_SPLIT : regex :=
  Grp 1
    (Alt (seqs [opt (CLit ","); star CSpace; lit "and"; plus CSpace;
                lit "concurrent"; plus CSpace; lit "with"])
    (Alt (seqs [opt (CLit ","); star CSpace; lit "and"; plus CSpace;
                lit "Concurrent"; plus CSpace; lit "with"])
         (lit "Must be taken concurrently with"))).

(** [_split_prereq_and_concurrent] *)
Definition _split_prereq_and_concurrent (fuel : nat) (text : string)
  : result (option node * option node) :=
  if Str.is_empty text then Ret (None, None) else
  let text_lower := Str.lower text in
  if Str.startswith "concurrent" text_lower
     || Str.startswith "prerequisite: concurrent" text_lower
  then Ret (None, _parse_concurrent text)
  else
    match search true CONCURRENT_SPLIT text with
    | Some concurrent_match =>
        let prereq_part := Str.strip (Str.take (m_start concurrent_match) text) in
        let concurrent_part := Str.strip (Str.drop (m_end concurrent_match) text) in
        prereq_node ←
          (if Str.is_empty prereq_part then Ret None
           else _parse_expression fuel prereq_part);
        let concurrent_node :=
          if Str.is_empty concurrent_part then None
          else _parse_concurrent concurrent_part in
        Ret (prereq_node, concurrent_node)
    | None =>
        prereq_node ← _parse_expression fuel text;
        Ret (prereq_node, None)
    end.

(** [parse] *)
Definition parse (fuel : nat) (prerequisites_text concurrent_text : string)
  : result ast :=
  if Str.is_empty prerequisites_text && Str.is_empty concurrent_text
  then Ret (Ast None None "" None)
  else
    let full_text := Str.strip prerequisites_text in
    '(prereq_node, concurrent_node) ← _split_prereq_and_concurrent fuel full_text;
    let '(raw, concurrent_node) :=
      if Str.is_empty concurrent_text then (full_text, concurrent_node)
      else
        let raw := full_text ++ " | Concurrent: " ++ concurrent_text in
        match _parse_concurrent concurrent_text with
        | Some concurrent_from_field =>
            match concurrent_node with
            | Some cn => (raw, Some (And [cn; concurrent_from_field]))
            | None => (raw, Some concurrent_from_field)
            end
        | None => (raw, concurrent_node)
        end in
    Ret (Ast prereq_node concurrent_node raw None).

End PrerequisiteParser.

(* ===================================================================== *)
(** ** Course records *)
(* ===================================================================== *)

(** A JSON object of [all_courses.json], reduced to the keys the two
    scripts read or write. A key that may be missing is an [option];
    [course.get(key, "")] is [default "" (field course)]. *)
Record course : Type := MkCourse {
  c_title : option string;
  c_prerequisites : option string;
  c_concurrent : option string;
  c_prerequisite_ast : option ast;
  c_is_prerequisite_for : option (list string);
  c_is_corequisite_for : option (list string)
}.

Definition set_prerequisite_ast (c : course) (a : ast) : course :=
  MkCourse (c_title c) (c_prerequisites c) (c_concurrent c) (Some a)
           (c_is_prerequisite_for c) (c_is_corequisite_for c).

Definition set_reverse_fields (c : course) (pre co : list string) : course :=
  MkCourse (c_title c) (c_prerequisites c) (c_concurrent c)
           (c_prerequisite_ast c) (Some pre) (Some co).

(* ===================================================================== *)
(** ** The batch loop of [parse_all_courses.main] *)
(* ===================================================================== *)

Module Batch.

Record stats : Type := Stats {
  total : nat;
  with_prerequisites : nat;
  with_corequisites : nat;
  empty : nat;
  errors : nat
}.

Definition bump (b : bool) (n : nat) : nat := if b then S n else n.

(** One turn of [for i, course in enumerate(courses, 1)], with its
    [try] ... [except Exception] around the call of the parser, on records
    whose two text fields are strings or missing: there the parser is the
    only call that can raise, and it is called after [prereq_text] is
    assigned. [BatchMain] below is the loop on elements of any JSON type,
    and agrees with this one on such records. *)
Definition loop_body (fuel : nat) (st : list course * stats) (c : course)
  : list course * stats :=
  let '(parsed_courses, s) := st in
  let prereq_text := Str.strip (default "" (c_prerequisites c)) in
  let concurrent_text := Str.strip (default "" (c_concurrent c)) in
  match PrerequisiteParser.parse fuel prereq_text concurrent_text with
  | Ret a =>
      let s' :=
        Stats (total s)
              (bump (bool_decide (is_Some (prerequisites a))) (with_prerequisites s))
              (bump (bool_decide (is_Some (corequisites a))) (with_corequisites s))
              (bump (Str.is_empty prereq_text && Str.is_empty concurrent_text) (empty s))
              (errors s) in
      ((parsed_courses ++ [set_prerequisite_ast c a])%list, s')
  | Raise e =>
      let s' := Stats (total s) (with_prerequisites s) (with_corequisites s)
                      (empty s) (S (errors s)) in
      ((parsed_courses ++ [set_prerequisite_ast c (Ast None None prereq_text (Some e))])%list, s')
  end.

(** The whole loop: [parsed_courses] and [stats] when it ends. *)
Definition parse_courses (fuel : nat) (courses : list course)
  : list course * stats :=
  fold_left (loop_body fuel) courses ([], Stats (length courses) 0 0 0 0).

End Batch.

(* ===================================================================== *)
(** ** The batch loop on elements of any JSON type *)
(* ===================================================================== *)

Module BatchMain.

(** The value of a key of a JSON object, as the loop sees it: a string, or
    any other JSON value ([null], a number, a boolean, a list, an object),
    none of which has a method [strip]. *)
Inductive value : Type :=
| VStr (s : string)
| VOther.

(** An element of the list [courses]: a JSON object, reduced to the keys
    the loop reads or writes (a key that may be missing is an [option]), or
    a JSON value that is not an object and has no method [get]. *)
Inductive item : Type :=
| Obj (prerequisites concurrent : option value) (prerequisite_ast : option ast)
| NotObj.

(** [course.get(key, "").strip()] on an object. *)
Definition get_strip (field : option value) : result string :=
  match default (VStr "") field with
  | VStr s => Ret (Str.strip s)
  | VOther => Raise AttributeError
  end.

(** The local variables of [main] that outlive a turn of the loop.
    [prereq_text] is unbound ([None]) until a turn of the loop assigns
    it, and keeps its value from one turn to the next. *)
Record locals : Type := Locals {
  parsed_courses : list item;
  stats : Batch.stats;
  prereq_text : option string
}.

(** The handler [except Exception as e], entered with the binding of
    [prereq_text] that the [try] block left: it counts the error, then
    builds the AST of the record, which reads [prereq_text]; when the
    variable is unbound this raises [UnboundLocalError] inside the handler,
    and the exception leaves the loop. *)
Definition handler (l : locals) (prerequisites concurrent : option value)
    (binding : option string) (e : exn) : result locals :=
  let s := stats l in
  let s' := Batch.Stats (Batch.total s) (Batch.with_prerequisites s)
                        (Batch.with_corequisites s) (Batch.empty s)
                        (S (Batch.errors s)) in
  match binding with
  | None => Raise UnboundLocalError
  | Some raw_text =>
      Ret (Locals (parsed_courses l
                   ++ [Obj prerequisites concurrent
                           (Some (Ast None None raw_text (Some e)))])%list
                  s' binding)
  end.

(** One turn of [for i, course in enumerate(courses, 1)]. On an element
    that is not an object, [course.get] raises in the [try] block and
    again in the [print] of the handler, so the exception leaves the loop.
    On an object, the first statement of the [try] block assigns
    [prereq_text] only if [.strip()] returns; the statements after it run
    with the new binding. *)
Definition loop_body (fuel : nat) (l : locals) (course : item) : result locals :=
  match course with
  | NotObj => Raise AttributeError
  | Obj prerequisites_value concurrent_value _ =>
      match get_strip prerequisites_value with
      | Raise e => handler l prerequisites_value concurrent_value (prereq_text l) e
      | Ret prereq_text =>
          match
            concurrent_text ← get_strip concurrent_value;
            a ← PrerequisiteParser.parse fuel prereq_text concurrent_text;
            mret (concurrent_text, a)
          with
          | Raise e => handler l prerequisites_value concurrent_value (Some prereq_text) e
          | Ret (concurrent_text, a) =>
              let s := stats l in
              let s' :=
                Batch.Stats
                  (Batch.total s)
                  (Batch.bump (bool_decide (is_Some (prerequisites a)))
                              (Batch.with_prerequisites s))
                  (Batch.bump (bool_decide (is_Some (corequisites a)))
                              (Batch.with_corequisites s))
                  (Batch.bump (Str.is_empty prereq_text && Str.is_empty concurrent_text)
                              (Batch.empty s))
                  (Batch.errors s) in
              Ret (Locals (parsed_courses l
                           ++ [Obj prerequisites_value concurrent_value (Some a)])%list
                          s' (Some prereq_text))
          end
      end
  end.

(** The loop over the list, left at the first exception that a turn does
    not catch. *)
Fixpoint loop (fuel : nat) (courses : list item) (l : locals) : result locals :=
  match courses with
  | [] => Ret l
  | course :: rest => l' ← loop_body fuel l course; loop fuel rest l'
  end.

(** [parsed_courses] and [stats] when the loop ends, or the exception
    that ends [main]. *)
Definition main_loop (fuel : nat) (courses : list item)
  : result (list item * Batch.stats) :=
  l ← loop fuel courses (Locals [] (Batch.Stats (length courses) 0 0 0 0) None);
  mret (parsed_courses l, stats l).

(** A record with string fields, as an element of the list. *)
Definition item_of (c : course) : item :=
  Obj (VStr <$> c_prerequisites c) (VStr <$> c_concurrent c) (c_prerequisite_ast c).

End BatchMain.

(* ===================================================================== *)
(** ** [add_reverse_prerequisites.py] *)
(* ===================================================================== *)

Module Graph.

Import Re.

(** [r'([A-Z]{4})\s*(\d{4})'] *)
Definition TITLE_PATTERN : regex :=
  seqs [Grp 1 (times 4 (CRange "A" "Z")); star CSpace; Grp 2 (times 4 CDigit)].

(** [extract_course_code_from_title] *)
Definition extract_course_code_from_title (title : string) : string :=
  match search false TITLE_PATTERN title with
  | Some m => group 1 title m ++ group 2 title m
  | None => ""
  end.

(** [get_all_prerequisite_courses] on a node that is not [None]. *)
Fixpoint collect (include_corequisites : bool) (n : node) : gset string :=
  match n with
  | Course course_code _ _ => {[ course_code ]}
  | And children | Or children =>
      fold_left (fun courses child => courses ∪ collect include_corequisites child)
                children ∅
  | Group (Some e) => collect include_corequisites e
  | Group None => ∅
  | Concurrent course_node _ =>
      if include_corequisites then collect include_corequisites course_node else ∅
  | TextCondition _ _ => ∅
  end.

(** [get_all_prerequisite_courses] *)
Definition get_all_prerequisite_courses (n : option node)
    (include_corequisites : bool) : gset string :=
  match n with
  | None => ∅
  | Some n' => collect include_corequisites n'
  end.

(** The body of [for prereq_code in prereq_courses]: empty codes are
    skipped, a missing entry starts as the empty set. *)
Definition add_requirer (course_code : string) (code : string)
    (reverse_map : gmap string (gset string)) : gmap string (gset string) :=
  if Str.is_empty code then reverse_map
  else <[code := default ∅ (reverse_map !! code) ∪ {[ course_code ]}]> reverse_map.

(** The body of [for course in courses], for the tree [tree] of the
    course's AST. *)
Definition add_course (include_corequisites : bool)
    (tree : ast -> option node) (reverse_map : gmap string (gset string))
    (c : course) : gmap string (gset string) :=
  let course_code := extract_course_code_from_title (default "" (c_title c)) in
  if Str.is_empty course_code then reverse_map
  else
    let codes :=
      get_all_prerequisite_courses
        (a ← c_prerequisite_ast c; tree a) include_corequisites in
    set_fold (add_requirer course_code) reverse_map codes.

(** [build_reverse_prerequisite_map] *)
Definition build_reverse_prerequisite_map (courses : list course)
  : gmap string (gset string) :=
  fold_left (add_course false prerequisites) courses ∅.

(** [build_reverse_corequisite_map] *)
Definition build_reverse_corequisite_map (courses : list course)
  : gmap string (gset string) :=
  fold_left (add_course true corequisites) courses ∅.

(** The order of [sorted] on strings: by code point, then by length. *)
Definition str_le (a b : string) : Prop := String.leb a b = true.

#[global] Instance str_le_dec : RelDecision str_le.
Proof. intros a b. unfold str_le. apply _. Defined.

(** [sorted(list(reverse_map.get(course_code, set())))] *)
Definition sorted_requirers (reverse_map : gmap string (gset string))
    (course_code : string) : list string :=
  merge_sort str_le (elements (default ∅ (reverse_map !! course_code))).

(** The body of the loop of [main] that attaches the two sequences to a
    record. *)
Definition attach (prereq_reverse_map coreq_reverse_map : gmap string (gset string))
    (c : course) : course :=
  let course_code := extract_course_code_from_title (default "" (c_title c)) in
  set_reverse_fields c
    (sorted_requirers prereq_reverse_map course_code)
    (sorted_requirers coreq_reverse_map course_code).

(** [enhanced_courses] at the end of that loop. *)
Definition enhance (courses : list course) : list course :=
  let prereq_reverse_map := build_reverse_prerequisite_map courses in
  let coreq_reverse_map := build_reverse_corequisite_map courses in
  map (attach prereq_reverse_map coreq_reverse_map) courses.

End Graph.

(* ===================================================================== *)
(** ** Vocabulary of the properties *)
(* ===================================================================== *)

(** The join key of a record and the trees of its AST. *)
Definition key (c : course) : string :=
  Graph.extract_course_code_from_title (default "" (c_title c)).

Definition prereq_tree (c : course) : option node :=
  a ← c_prerequisite_ast c; prerequisites a.

Definition coreq_tree (c : course) : option node :=
  a ← c_prerequisite_ast c; corequisites a.

(** The codes collected from the prerequisites tree of a record. *)
Definition prereq_codes (c : course) : gset string :=
  Graph.get_all_prerequisite_courses (prereq_tree c) false.

(** The [is_prerequisite_for] sequence of a record after the pass of
    [Graph.enhance] over the catalog. *)
Definition is_prerequisite_for_after (courses : list course) (c : course)
  : list string :=
  default []
    (c_is_prerequisite_for
       (Graph.attach (Graph.build_reverse_prerequisite_map courses)
                     (Graph.build_reverse_corequisite_map courses) c)).

(** The record [c] makes [k] a requirer of the code [x]: [k] is its join
    key, and [x] is among the codes collected from its tree. *)
Definition contributes (include_corequisites : bool) (tree : ast -> option node)
    (c : course) (x k : string) : Prop :=
  key c = k /\ k <> "" /\ x <> ""
  /\ x ∈ Graph.get_all_prerequisite_courses
          (a ← c_prerequisite_ast c; tree a) include_corequisites.

(** [leaf_at inside code n]: the tree [n] has a course leaf with the code
    [code]; [inside] tells whether that leaf lies below a [Concurrent]
    wrapper. *)
Inductive leaf_at : bool -> string -> node -> Prop :=
| leaf_course code ic io : leaf_at false code (Course code ic io)
| leaf_and inside code c cs :
    c ∈ cs -> leaf_at inside code c -> leaf_at inside code (And cs)
| leaf_or inside code c cs :
    c ∈ cs -> leaf_at inside code c -> leaf_at inside code (Or cs)
| leaf_group inside code e :
    leaf_at inside code e -> leaf_at inside code (Group (Some e))
| leaf_concurrent inside code c note :
    leaf_at inside code c -> leaf_at true code (Concurrent c note).

(** Every [And] and [Or] of the tree has two children or more. *)
Fixpoint arity_ok (n : node) : bool :=
  match n with
  | And children | Or children =>
      Nat.leb 2 (length children) && forallb arity_ok children
  | Group (Some e) => arity_ok e
  | Concurrent c _ => arity_ok c
  | Group None | Course _ _ _ | TextCondition _ _ => true
  end.

Definition arity_ok_opt (n : option node) : bool :=
  match n with Some n' => arity_ok n' | None => true end.

(** Some keyword of the category [cat] of the table occurs in the text. *)
Definition triggers (cat : category) (text_lower : string) : bool :=
  existsb (fun '(c, keywords) =>
             bool_decide (c = cat)
             && existsb (fun keyword => Str.contains keyword text_lower) keywords)
          PrerequisiteParser.text_conditions.

(** The text after one copy of [word], compared without regard to case. *)
Fixpoint after_word (word s : string) : option string :=
  match word with
  | EmptyString => Some s
  | String a word' =>
      match s with
      | String x s' => if Chars.eqb_nocase a x then after_word word' s' else None
      | EmptyString => None
      end
  end.

(** The text after a run of whitespace that has one character or more. *)
Definition after_spaces (s : string) : option string :=
  match s with
  | String x s' =>
      if Chars.is_space x then Some (Str.lstrip_by Chars.is_space s') else None
  | EmptyString => None
  end.

(** The text after a label whose words are separated by whitespace. *)
Fixpoint after_words (words : list string) (s : string) : option string :=
  match words with
  | [] => Some s
  | [w] => after_word w s
  | w :: ws => s1 ← after_word w s; s2 ← after_spaces s1; after_words ws s2
  end.

(** The text without a leading label and the whitespace after it; the
    text itself when it does not start with the label. *)
Definition strip_label (words : list string) (s : string) : string :=
  match after_words words s with
  | Some rest => Str.lstrip_by Chars.is_space rest
  | None => s
  end.

(** The text reads "for", in any case, and then a whitespace character. *)
Definition for_clause_at (s : string) : bool :=
  match after_word "for" s with
  | Some (String x _) => Chars.is_space x
  | _ => false
  end.

(** The index of the first suffix of the text that satisfies [p]. *)
Fixpoint find_first (p : string -> bool) (s : string) : option nat :=
  if p s then Some 0
  else match s with
       | String _ s' => S <$> find_first p s'
       | EmptyString => None
       end.

(** The text up to its first period. *)
Fixpoint until_period (s : string) : string :=
  match s with
  | EmptyString => EmptyString
  | String c s' => if Ascii.eqb c "." then EmptyString else String c (until_period s')
  end.

(** The note of a one-line text, as the amended claim describes it: what
    follows the first "for" and its whitespace, up to the first period
    after its first character or to the end, trimmed. *)
Definition note_spec (text : string) : string :=
  match find_first for_clause_at text with
  | Some i =>
      match Str.lstrip_by Chars.is_space (Str.drop (i + 3) text) with
      | String c body => Str.strip (String c (until_period body))
      | EmptyString => ""
      end
  | None => ""
  end.

(** The last character of the text is a whitespace character. *)
Fixpoint ends_with_space (s : string) : bool :=
  match s with
  | EmptyString => false
  | String c EmptyString => Chars.is_space c
  | String _ s' => ends_with_space s'
  end.

(* ===================================================================== *)
(** ** Auxiliary notions for the proofs about the matcher *)
(* ===================================================================== *)

(** The state [n] characters further. *)
Fixpoint advance (n : nat) (st : Re.mstate) : Re.mstate :=
  match n with
  | O => st
  | S n' =>
      match Re.ms_rest st with
      | String x s' =>
          advance n' (Re.MState (Some x) s' (S (Re.ms_pos st)) (Re.ms_caps st))
      | EmptyString => st
      end
  end.

(** The state after the longest run of characters that satisfy [p]. *)
Fixpoint skip_run (p : ascii -> bool) (prev : option ascii) (s : string) (pos : nat)
    (caps : list (nat * (nat * nat))) : Re.mstate :=
  match s with
  | String x s' => if p x then skip_run p (Some x) s' (S pos) caps
                   else Re.MState prev s pos caps
  | EmptyString => Re.MState prev s pos caps
  end.

Fixpoint run_length (p : ascii -> bool) (s : string) : nat :=
  match s with
  | String x s' => if p x then S (run_length p s') else 0
  | EmptyString => 0
  end.

(** The state is a position of [text]. *)
Definition coherent (text : string) (st : Re.mstate) : Prop :=
  Re.ms_rest st = Str.drop (Re.ms_pos st) text.

(** The continuation fails on every state that starts with a character
    satisfying [p]. *)
Definition rejects_head (p : ascii -> bool)
    (k : Re.mstate -> option Re.mstate) : Prop :=
  forall prev x s pos caps, p x = true -> k (Re.MState prev (String x s) pos caps) = None.

(** The pattern of a label: its words, whitespace between them,
    optional whitespace after the last. *)
Fixpoint words_regex (ws : list string) : Re.regex :=
  match ws with
  | [] => Re.star Re.CSpace
  | w :: ws' =>
      Re.Seq (Re.lit w)
             (match ws' with
              | [] => Re.star Re.CSpace
              | _ => Re.Seq (Re.plus Re.CSpace) (words_regex ws')
              end)
  end.

Definition head_not_space (w : string) : Prop :=
  match w with
  | String a _ => forall x, Chars.is_space x = true -> Chars.eqb_nocase a x = false
  | EmptyString => False
  end.

(** The rest of the note pattern after its group, the alternative of a
    period and the end of the text, as a continuation that first records
    the group opened at [start]. *)
Definition note_tail (start : nat) (st : Re.mstate) : option Re.mstate :=
  Re.rmatch true (Re.Alt (Re.One (Re.CLit ".")) Re.Eol)
    (Re.MState (Re.ms_prev st) (Re.ms_rest st) (Re.ms_pos st)
               ((1, (start, Re.ms_pos st)) :: Re.ms_caps st))
    Some.


(* ===================================================================== *)
(** ** The counters of [main] of [add_reverse_prerequisites.py] *)
(* ===================================================================== *)

Module GraphMain.

Record stats : Type := Stats {
  total : nat;
  with_prereq_for : nat;
  with_coreq_for : nat;
  orphans : nat
}.

(** The truth value of a list in a condition: [if is_prerequisite_for:]. *)
Definition truthy (l : list string) : bool :=
  match l with [] => false | _ :: _ => true end.

(** One turn of [for course in courses]: the two sequences, the three
    counters, and the record appended to [enhanced_courses]. *)
Definition loop_body
    (prereq_reverse_map coreq_reverse_map : gmap string (gset string))
    (st : list course * stats) (c : course) : list course * stats :=
  let '(enhanced_courses, s) := st in
  let course_code :=
    Graph.extract_course_code_from_title (default "" (c_title c)) in
  let is_prerequisite_for := Graph.sorted_requirers prereq_reverse_map course_code in
  let is_corequisite_for := Graph.sorted_requirers coreq_reverse_map course_code in
  let c' := set_reverse_fields c is_prerequisite_for is_corequisite_for in
  let s' :=
    Stats (total s)
          (Batch.bump (truthy is_prerequisite_for) (with_prereq_for s))
          (Batch.bump (truthy is_corequisite_for) (with_coreq_for s))
          (Batch.bump (negb (truthy is_prerequisite_for)
                       && negb (truthy is_corequisite_for)) (orphans s)) in
  ((enhanced_courses ++ [c'])%list, s').

(** The two maps, then the loop: [enhanced_courses] and [stats] when it
    ends. *)
Definition main_loop (courses : list course) : list course * stats :=
  let prereq_reverse_map := Graph.build_reverse_prerequisite_map courses in
  let coreq_reverse_map := Graph.build_reverse_corequisite_map courses in
  fold_left (loop_body prereq_reverse_map coreq_reverse_map) courses
            ([], Stats (length courses) 0 0 0).

End GraphMain.

(* ===================================================================== *)
(** ** Vocabulary of the further properties *)
(* ===================================================================== *)

(** [reach st st']: the state [st'] lies [w] characters after [st]. *)
Definition reach (w : string) (st st' : Re.mstate) : Prop :=
  Re.ms_rest st = w ++ Re.ms_rest st' /\ Re.ms_pos st' = Re.ms_pos st + String.length w.

(** Every character of the text satisfies [p]. *)
Fixpoint all_chars (p : ascii -> bool) (s : string) : bool :=
  match s with
  | EmptyString => true
  | String x s' => p x && all_chars p s'
  end.

(** The upper-case letters [A-Z]. *)
Definition is_upper (x : ascii) : bool := Chars.between 65 90 x.

(** A join key as the graph builder expects it: four upper-case letters
    and four digits. *)
Definition join_key_ok (code : string) : bool :=
  Nat.eqb (String.length code) 8
  && all_chars is_upper (Str.take 4 code)
  && all_chars Chars.is_digit (Str.drop 4 code).

(** The character before the position reached after the text [w]. *)
Fixpoint prev_after (prev : option ascii) (w : string) : option ascii :=
  match w with
  | EmptyString => prev
  | String x w' => prev_after (Some x) w'
  end.

(** The text is empty, or its first character fails [p]. *)
Definition head_fails (p : ascii -> bool) (s : string) : Prop :=
  match s with String x _ => p x = false | EmptyString => True end.

(** A whitespace character other than the space. *)
Definition is_gap (x : ascii) : bool := Chars.is_space x && negb (Ascii.eqb x " ").

(** The shape of a course code built by the parser: four upper-case
    letters, whitespace characters other than the space, four digits. *)
Definition course_code_ok (code : string) : bool :=
  let n := String.length code in
  Nat.leb 8 n
  && all_chars is_upper (Str.take 4 code)
  && all_chars is_gap (Str.slice 4 (n - 4) code)
  && all_chars Chars.is_digit (Str.drop (n - 4) code).

(** The text without the occurrences of a character. *)
Fixpoint remove_char (c : ascii) (s : string) : string :=
  match s with
  | EmptyString => EmptyString
  | String x s' => if Ascii.eqb x c then remove_char c s' else String x (remove_char c s')
  end.

(** A character that is not whitespace, or is the space. *)
Definition plain (x : ascii) : bool :=
  negb (Chars.is_space x) || Ascii.eqb x " ".

(** Every whitespace character of the text is a space. *)
Definition plain_spaces (s : string) : bool := all_chars plain s.

(** Every course leaf and every text-condition leaf of the tree satisfies
    [P]. *)
Fixpoint leaves_ok (P : node -> bool) (n : node) : bool :=
  match n with
  | Course _ _ _ | TextCondition _ _ => P n
  | And children | Or children => forallb (leaves_ok P) children
  | Group (Some e) => leaves_ok P e
  | Group None => true
  | Concurrent c _ => leaves_ok P c
  end.

Definition leaves_ok_opt (P : node -> bool) (n : option node) : bool :=
  match n with Some n' => leaves_ok P n' | None => true end.

(** The text does not hold both an opening and a closing parenthesis. *)
Definition no_group_chars (t : string) : bool :=
  negb (Str.has_char "(" t && Str.has_char ")" t).

(** The leaf is not a course, or its code has the shape of a course code. *)
Definition leaf_code_ok (n : node) : bool :=
  match n with Course code _ _ => course_code_ok code | _ => true end.

(** The leaf is not a course, or both its flags are present and false. *)
Definition leaf_flags_false (n : node) : bool :=
  match n with
  | Course _ ic io => bool_decide (ic = Some false) && bool_decide (io = Some false)
  | _ => true
  end.

(** The leaf is not a course, or its code does not look like a
    placeholder. *)
Definition leaf_not_placeholder (n : node) : bool :=
  match n with
  | Course code _ _ => negb (Str.startswith "~~~GROUP" code)
  | _ => true
  end.

(** The text of [_parse_with_groups] after the substitution of the
    groups. *)
Definition with_placeholders (text : string) : string :=
  snd (Re.sub_fn false PrerequisiteParser.GROUP_PATTERN
         PrerequisiteParser.replace_group (0, ∅) text).

Definition is_leaf (n : node) : bool :=
  match n with Course _ _ _ | TextCondition _ _ => true | _ => false end.

(** A leaf, or an [Or] of leaves. *)
Definition flat_or (n : node) : bool :=
  is_leaf n || match n with Or children => forallb is_leaf children | _ => false end.

(** A leaf, an [Or] of leaves, or an [And] of leaves and [Or]s of leaves. *)
Definition flat (n : node) : bool :=
  flat_or n || match n with And children => forallb flat_or children | _ => false end.

Definition is_course (n : node) : bool :=
  match n with Course _ _ _ => true | _ => false end.

(** A [Concurrent] wrapper around a course leaf or an [Or] of course
    leaves. *)
Definition concurrent_ok (n : node) : bool :=
  match n with
  | Concurrent c _ =>
      is_course c || match c with Or children => forallb is_course children | _ => false end
  | _ => false
  end.

(** What [parse] can return as a corequisites tree: one [Concurrent]
    wrapper, or the [And] of two. *)
Definition coreq_shape (n : node) : bool :=
  concurrent_ok n
  || match n with
     | And [a; b] => concurrent_ok a && concurrent_ok b
     | _ => false
     end.

Definition opt_ok (P : node -> bool) (n : option node) : bool :=
  match n with Some n' => P n' | None => true end.

(** The [is_corequisite_for] sequence of a record after the pass of
    [Graph.enhance] over the catalog. *)
Definition is_corequisite_for_after (courses : list course) (c : course)
  : list string :=
  default []
    (c_is_corequisite_for
       (Graph.attach (Graph.build_reverse_prerequisite_map courses)
                     (Graph.build_reverse_corequisite_map courses) c)).

(** The codes collected from the corequisites tree of a record. *)
Definition coreq_codes (c : course) : gset string :=
  Graph.get_all_prerequisite_courses (coreq_tree c) true.

(** The record carries a parse-error marker. *)
Definition has_parse_error (c : course) : bool :=
  match c_prerequisite_ast c with
  | Some a => bool_decide (is_Some (parse_error a))
  | None => false
  end.

(** What every turn of the batch loop keeps true of the counters. *)
Definition stats_inv (n : nat) (st : list course * Batch.stats) : Prop :=
  let '(out, s) := st in
  Batch.total s = n
  /\ Batch.errors s = length (List.filter has_parse_error out)
  /\ Batch.with_prerequisites s + Batch.empty s + Batch.errors s <= length out
  /\ Batch.with_corequisites s + Batch.empty s + Batch.errors s <= length out.

(** The leaf is not a course, or its code is a well-formed join key. *)
Definition leaf_key_ok (n : node) : bool :=
  match n with Course code _ _ => join_key_ok code | _ => true end.

(** The record has no requirer in either direction after the pass of
    [Graph.enhance] over the catalog. *)
Definition is_orphan (courses : list course) (c : course) : bool :=
  negb (GraphMain.truthy (is_prerequisite_for_after courses c))
  && negb (GraphMain.truthy (is_corequisite_for_after courses c)).

(** What every turn of the loop of [GraphMain.main_loop] keeps true. *)
Definition graph_stats_inv (courses seen : list course)
    (st : list course * GraphMain.stats) : Prop :=
  let '(out, s) := st in
  out = map (Graph.attach (Graph.build_reverse_prerequisite_map courses)
                          (Graph.build_reverse_corequisite_map courses)) seen
  /\ GraphMain.total s = length courses
  /\ GraphMain.orphans s = length (List.filter (is_orphan courses) seen)
  /\ GraphMain.with_prereq_for s + GraphMain.orphans s <= length seen
  /\ GraphMain.with_coreq_for s + GraphMain.orphans s <= length seen
  /\ length seen
     <= GraphMain.with_prereq_for s + GraphMain.with_coreq_for s + GraphMain.orphans s.
(* ===================================================================== *)
(** ** Proofs *)
(* ===================================================================== *)

Import PrerequisiteParser Graph Re.

(** *** Small facts about the error monad and the string tests *)

Lemma bind_ret {A B} (m : result A) (f : A -> result B) (b : B) :
  (m ≫= f) = Ret b -> exists a, m = Ret a /\ f a = Ret b.
Proof. destruct m as [a|e]; simpl; [eauto | discriminate]. Qed.

Lemma is_empty_true s : Str.is_empty s = true <-> s = "".
Proof. destruct s; simpl; split; congruence. Qed.

Lemma is_empty_false s : Str.is_empty s = false <-> s <> "".
Proof. destruct s; simpl; split; congruence. Qed.

(** *** The parser only builds connectives with two children or more *)

Lemma parse_atomic_leaf text n :
  _parse_atomic text = Some n -> arity_ok n = true.
Proof.
  unfold _parse_atomic. destruct (Str.is_empty text); [discriminate|].
  destruct (Re.search true OR_CONCURRENT_PATTERN _);
    (destruct (Re.search false COURSE_PATTERN _);
     [ intros [= <-]; reflexivity
     | destruct (_ || _); [intros [= <-]; reflexivity | discriminate] ]).
Qed.

Lemma forallb_omap {A} (f : A -> option node) (l : list A) :
  (forall x n, f x = Some n -> arity_ok n = true) ->
  forallb arity_ok (omap f l) = true.
Proof.
  intros Hf. induction l as [|x l IH]; simpl; [reflexivity|].
  destruct (f x) eqn:E; simpl; [|exact IH].
  rewrite (Hf _ _ E). exact IH.
Qed.

Lemma combine_arity (mk : list node -> node) children n :
  (forall cs, arity_ok (mk cs) = Nat.leb 2 (length cs) && forallb arity_ok cs) ->
  forallb arity_ok children = true ->
  combine mk children = Some n -> arity_ok n = true.
Proof.
  intros Hmk Hall. destruct children as [|c1 [|c2 cs]]; simpl.
  - discriminate.
  - intros [= <-]. simpl in Hall. rewrite andb_true_r in Hall. exact Hall.
  - intros [= <-]. rewrite Hmk. simpl length. simpl Nat.leb. exact Hall.
Qed.

Lemma parse_or_expression_arity text n :
  _parse_or_expression text = Some n -> arity_ok n = true.
Proof.
  unfold _parse_or_expression. destruct (Str.is_empty text); [discriminate|].
  destruct (Nat.ltb 1 _).
  - destruct (combine Or _) eqn:E.
    + intros [= <-]. eapply combine_arity; [| |exact E]; [reflexivity|].
      apply forallb_omap. intros x m. apply parse_atomic_leaf.
    + apply parse_atomic_leaf.
  - apply parse_atomic_leaf.
Qed.

Lemma parse_concurrent_arity text n :
  _parse_concurrent text = Some n -> arity_ok n = true.
Proof.
  unfold _parse_concurrent. destruct (Str.is_empty text); [discriminate|].
  destruct (Re.findall false COURSE_PATTERN text) as [|c0 cs] eqn:E; [discriminate|].
  clear E. intros [= <-]. simpl. destruct cs as [|c1 cs]; simpl; [reflexivity|].
  induction cs as [|c cs IH]; simpl; [reflexivity|exact IH].
Qed.

Section replace.
Variable pe : string -> result (option node).
Hypothesis pe_ok : forall t r, pe t = Ret r -> arity_ok_opt r = true.

Lemma replace_children_arity (f : node -> result (option node)) cs :
  Forall (fun c => arity_ok c = true ->
                   forall r, f c = Ret r -> exists c', r = Some c' /\ arity_ok c' = true) cs ->
  forallb arity_ok cs = true ->
  forall l, replace_children f cs = Ret l ->
            length l = length cs /\ forallb arity_ok l = true.
Proof.
  induction 1 as [|c cs Hc _ IH]; simpl; intros Hall l.
  - intros [= <-]. split; reflexivity.
  - apply andb_true_iff in Hall as [Hc1 Hcs].
    intros H. apply bind_ret in H as (r & Hr & H).
    apply bind_ret in H as (l' & Hl' & H).
    destruct (Hc Hc1 _ Hr) as (c' & -> & Hc').
    destruct (IH Hcs _ Hl') as [Hlen Hl]. injection H as <-. simpl.
    rewrite Hlen, Hc', Hl. split; reflexivity.
Qed.

Lemma replace_node_arity m n :
  arity_ok n = true ->
  forall r, replace_node pe m n = Ret r ->
            exists n', r = Some n' /\ arity_ok n' = true.
Proof.
  induction n as [code ic io|cs IH|cs IH| |e IH|c note IH|t c] using node_ind';
    intros Hn r; simpl.
  - destruct (Str.startswith _ _); [destruct (m !! code) as [g|]|];
      try (intros [= <-]; eexists; split; [reflexivity|reflexivity]).
    intros H. apply bind_ret in H as (g' & Hg & [= <-]).
    eexists. split; [reflexivity|]. simpl.
    pose proof (pe_ok _ _ Hg) as Hok. destruct g'; [exact Hok|reflexivity].
  - simpl in Hn. apply andb_true_iff in Hn as [Hlen Hall].
    intros H. apply bind_ret in H as (l & Hl & [= <-]).
    destruct (replace_children_arity _ _ IH Hall _ Hl) as [E Hl'].
    eexists. split; [reflexivity|]. simpl. rewrite E, Hlen, Hl'. reflexivity.
  - simpl in Hn. apply andb_true_iff in Hn as [Hlen Hall].
    intros H. apply bind_ret in H as (l & Hl & [= <-]).
    destruct (replace_children_arity _ _ IH Hall _ Hl) as [E Hl'].
    eexists. split; [reflexivity|]. simpl. rewrite E, Hlen, Hl'. reflexivity.
  - intros [= <-]. eexists. split; reflexivity.
  - intros H. apply bind_ret in H as (e' & He & [= <-]).
    destruct (IH Hn _ He) as (n' & -> & Hn').
    eexists. split; [reflexivity|exact Hn'].
  - intros [= <-]. eexists. split; [reflexivity|exact Hn].
  - intros [= <-]. eexists. split; reflexivity.
Qed.

Lemma parse_with_groups_arity text r :
  _parse_with_groups pe text = Ret r -> arity_ok_opt r = true.
Proof.
  unfold _parse_with_groups.
  destruct (Re.sub_fn _ _ _ _ _) as [[counter m] modified].
  intros H. apply bind_ret in H as (res & Hres & H).
  pose proof (pe_ok _ _ Hres) as Hok. destruct res as [n|]; simpl in H.
  - destruct (replace_node_arity m n Hok _ H) as (n' & -> & Hn'). exact Hn'.
  - injection H as <-. reflexivity.
Qed.
End replace.

Lemma parse_expression_arity fuel : forall text r,
  _parse_expression fuel text = Ret r -> arity_ok_opt r = true.
Proof.
  induction fuel as [|fuel IH]; intros text r; simpl; [discriminate|].
  destruct (Str.is_empty text); [intros [= <-]; reflexivity|].
  destruct (_ && _).
  - apply parse_with_groups_arity. exact IH.
  - destruct (Nat.ltb 1 _).
    + destruct (combine And _) eqn:E.
      * intros [= <-]. simpl. eapply combine_arity; [| |exact E]; [reflexivity|].
        apply forallb_omap. intros x m. apply parse_or_expression_arity.
      * intros [= <-]. destruct (_parse_or_expression _) eqn:E'; [|reflexivity].
        simpl. eapply parse_or_expression_arity, E'.
    + intros [= <-]. destruct (_parse_or_expression _) eqn:E'; [|reflexivity].
      simpl. eapply parse_or_expression_arity, E'.
Qed.

Lemma parse_concurrent_arity_opt text : arity_ok_opt (_parse_concurrent text) = true.
Proof.
  destruct (_parse_concurrent text) eqn:E; [|reflexivity].
  simpl. eapply parse_concurrent_arity, E.
Qed.

Lemma split_arity fuel text p c :
  _split_prereq_and_concurrent fuel text = Ret (p, c) ->
  arity_ok_opt p = true /\ arity_ok_opt c = true.
Proof.
  unfold _split_prereq_and_concurrent.
  destruct (Str.is_empty text); [intros [= <- <-]; split; reflexivity|].
  destruct (_ || _).
  { intros [= <- <-]. split; [reflexivity|apply parse_concurrent_arity_opt]. }
  destruct (Re.search _ _ _).
  - intros H. apply bind_ret in H as (pn & Hpn & [= <- <-]). split.
    + destruct (Str.is_empty (Str.strip (Str.take _ _)));
        [injection Hpn as <-; reflexivity|].
      eapply parse_expression_arity, Hpn.
    + destruct (Str.is_empty (Str.strip (Str.drop _ _)));
        [reflexivity|apply parse_concurrent_arity_opt].
  - intros H. apply bind_ret in H as (pn & Hpn & [= <- <-]). split; [|reflexivity].
    eapply parse_expression_arity, Hpn.
Qed.

(** C10. In every AST that [parse] returns, each [And] and each [Or] node
    of the prerequisites tree and of the corequisites tree has at least two
    children: a connective is only built from two or more surviving
    children, and the merge of the two concurrent sources has exactly
    two. *)
Theorem C10_connectives_have_two_children
    (fuel : nat) (prerequisites_text concurrent_text : string) (a : ast) :
  parse fuel prerequisites_text concurrent_text = Ret a ->
  arity_ok_opt (prerequisites a) = true /\ arity_ok_opt (corequisites a) = true.
Proof.
  unfold parse. destruct (_ && _); [intros [= <-]; split; reflexivity|].
  intros H. apply bind_ret in H as ([p c] & Hs & H).
  apply split_arity in Hs as [Hp Hc].
  destruct (Str.is_empty concurrent_text).
  - injection H as <-. split; assumption.
  - pose proof (parse_concurrent_arity_opt concurrent_text) as Hf.
    destruct (_parse_concurrent concurrent_text) as [cf|]; [destruct c as [cn|]|];
      injection H as <-; simpl in *; split; try assumption.
    rewrite Hc, Hf. reflexivity.
Qed.

(** A text with a conjunction, a disjunction and two concurrent courses. *)
Lemma C10_connectives_witness :
  let a := Ast (Some (And [Course "CSCE1001" (Some false) (Some false);
                           Or [Course "CSCE1101" (Some false) (Some false);
                               Course "MATH1401" (Some false) (Some false)]]))
               (Some (Concurrent (Or [Course "CSCE2000" None None;
                                      Course "CSCE2001" None None]) ""))
               "CSCE 1001 and CSCE 1101 or MATH 1401 | Concurrent: CSCE 2000, CSCE 2001"
               None in
  parse 5 "CSCE 1001 and CSCE 1101 or MATH 1401" "CSCE 2000, CSCE 2001" = Ret a
  /\ arity_ok_opt (prerequisites a) = true /\ arity_ok_opt (corequisites a) = true.
Proof.
  intros a. split; [vm_compute; reflexivity|].
  apply (C10_connectives_have_two_children 5
           "CSCE 1001 and CSCE 1101 or MATH 1401" "CSCE 2000, CSCE 2001" a).
  vm_compute. reflexivity.
Defined.

(** *** The course-code collection and the reverse maps *)

Lemma elem_of_fold_union {A} (f : A -> gset string) (l : list A) (acc : gset string) x :
  x ∈ fold_left (fun courses child => courses ∪ f child) l acc
  <-> x ∈ acc \/ exists c, c ∈ l /\ x ∈ f c.
Proof.
  revert acc. induction l as [|a l IH]; intros acc; simpl.
  - split; [auto|]. intros [H|(c & Hc & _)]; [exact H|]. inversion Hc.
  - rewrite IH, elem_of_union. split.
    + intros [[H|H]|(c & Hc & H)]; [auto| |].
      * right. exists a. split; [left|exact H].
      * right. exists c. split; [right; exact Hc|exact H].
    + intros [H|(c & Hc & H)]; [auto|].
      apply elem_of_cons in Hc as [->|Hc]; [auto|].
      right. exists c. auto.
Qed.

Lemma collect_leaf inc n x :
  x ∈ collect inc n -> exists inside, leaf_at inside x n /\ implb inside inc = true.
Proof.
  induction n as [code ic io|cs IH|cs IH| |e IH|c note IH|t c] using node_ind'; simpl.
  - intros ->%elem_of_singleton. exists false. split; [constructor|reflexivity].
  - intros [H|(c & Hc & H)]%elem_of_fold_union; [set_solver|].
    rewrite Forall_forall in IH. destruct (IH c Hc H) as (b & Hb & Hi).
    exists b. split; [eapply leaf_and; eassumption|exact Hi].
  - intros [H|(c & Hc & H)]%elem_of_fold_union; [set_solver|].
    rewrite Forall_forall in IH. destruct (IH c Hc H) as (b & Hb & Hi).
    exists b. split; [eapply leaf_or; eassumption|exact Hi].
  - set_solver.
  - intros H. destruct (IH H) as (b & Hb & Hi).
    exists b. split; [constructor; exact Hb|exact Hi].
  - destruct inc; [|set_solver]. intros H. destruct (IH H) as (b & Hb & _).
    exists true. split; [econstructor; exact Hb|reflexivity].
  - set_solver.
Qed.




Lemma add_requirer_elem code y (m : gmap string (gset string)) x k :
  k ∈ default ∅ (add_requirer code y m !! x)
  <-> k ∈ default ∅ (m !! x) \/ (k = code /\ x = y /\ y <> "").
Proof.
  unfold add_requirer. destruct (Str.is_empty y) eqn:E.
  - apply is_empty_true in E. split; [auto|]. intros [H|(_ & _ & H)]; [exact H|congruence].
  - apply is_empty_false in E. rewrite lookup_insert. case_decide as Hxy.
    + subst y. simpl. rewrite elem_of_union, elem_of_singleton. tauto.
    + split; [auto|]. intros [H|(_ & H & _)]; [exact H|congruence].
Qed.

Lemma set_fold_add_requirer code (codes : gset string) (m : gmap string (gset string)) x k :
  k ∈ default ∅ (set_fold (add_requirer code) m codes !! x)
  <-> k ∈ default ∅ (m !! x) \/ (k = code /\ x ∈ codes /\ x <> "").
Proof.
  apply (set_fold_ind_L
           (fun r X => k ∈ default ∅ (r !! x)
                       <-> k ∈ default ∅ (m !! x) \/ (k = code /\ x ∈ X /\ x <> ""))).
  - split; [auto|]. intros [H|(_ & H & _)]; [exact H|].
    apply not_elem_of_empty in H. destruct H.
  - intros y X r Hy IH. rewrite add_requirer_elem, IH, elem_of_union, elem_of_singleton.
    split.
    + intros [[H|(H1 & H2 & H3)]|(H1 & H2 & H3)]; [auto|auto|].
      subst. auto.
    + intros [H|(H1 & [H2|H2] & H3)]; [auto| |auto].
      subst. auto.
Qed.

Section reverse_map.
Variable inc : bool.
Variable tree : ast -> option node.

Lemma add_course_elem (m : gmap string (gset string)) c x k :
  k ∈ default ∅ (add_course inc tree m c !! x)
  <-> k ∈ default ∅ (m !! x) \/ contributes inc tree c x k.
Proof.
  unfold add_course, contributes, key.
  destruct (Str.is_empty _) eqn:E.
  - apply is_empty_true in E. split; [auto|].
    intros [H|(H1 & H2 & _)]; [exact H|congruence].
  - apply is_empty_false in E. rewrite set_fold_add_requirer.
    split.
    + intros [H|(-> & H2 & H3)]; auto.
    + intros [H|(<- & H2 & H3 & H4)]; auto.
Qed.

Lemma fold_add_course_elem courses (m : gmap string (gset string)) x k :
  k ∈ default ∅ (fold_left (add_course inc tree) courses m !! x)
  <-> k ∈ default ∅ (m !! x) \/ exists c, c ∈ courses /\ contributes inc tree c x k.
Proof.
  revert m. induction courses as [|c courses IH]; intros m; simpl.
  - split; [auto|]. intros [H|(c & Hc & _)]; [exact H|inversion Hc].
  - rewrite IH, add_course_elem. split.
    + intros [[H|H]|(c' & Hc' & H)]; [auto| |].
      * right. exists c. split; [left|exact H].
      * right. exists c'. split; [right; exact Hc'|exact H].
    + intros [H|(c' & Hc' & H)]; [auto|].
      apply elem_of_cons in Hc' as [->|Hc']; [auto|]. right. eauto.
Qed.
End reverse_map.

Lemma elem_of_sorted_requirers (m : gmap string (gset string)) x k :
  k ∈ sorted_requirers m x <-> k ∈ default ∅ (m !! x).
Proof.
  unfold sorted_requirers. rewrite merge_sort_Permutation. apply elem_of_elements.
Qed.

Lemma is_prerequisite_for_after_elem courses p k :
  k ∈ is_prerequisite_for_after courses p
  <-> exists c, c ∈ courses /\ key c = k /\ k <> "" /\ key p <> ""
                /\ key p ∈ prereq_codes c.
Proof.
  unfold is_prerequisite_for_after, attach. simpl.
  rewrite elem_of_sorted_requirers. unfold build_reverse_prerequisite_map.
  rewrite fold_add_course_elem, lookup_empty. simpl.
  split.
  - intros [H|(c & Hc & H)]; [set_solver|]. exists c. split; [exact Hc|exact H].
  - intros (c & Hc & H). right. exists c. split; [exact Hc|exact H].
Qed.


(** C2 (as amended). For every catalog and all records [c] and [p] of it
    that have a join key: the key of [c] is in the [is_prerequisite_for]
    sequence attached to [p] exactly when the key of [p] is among the codes
    collected from the prerequisites tree of some record of the catalog
    that carries the join key of [c]; and when [c] is the only record with
    its join key, exactly when the key of [p] is among the codes collected
    from the tree of [c] itself. *)
Theorem C2_graph_inversion_by_join_key (courses : list course) (c p : course) :
  c ∈ courses -> p ∈ courses -> key c <> "" -> key p <> "" ->
  (key c ∈ is_prerequisite_for_after courses p
   <-> exists c', c' ∈ courses /\ key c' = key c /\ key p ∈ prereq_codes c')
  /\ ((forall c', c' ∈ courses -> key c' = key c -> c' = c) ->
      (key p ∈ prereq_codes c <-> key c ∈ is_prerequisite_for_after courses p)).
Proof.
  intros Hc Hp Hkc Hkp.
  assert (Hiff : key c ∈ is_prerequisite_for_after courses p
                 <-> exists c', c' ∈ courses /\ key c' = key c /\ key p ∈ prereq_codes c').
  { rewrite is_prerequisite_for_after_elem. split.
    - intros (c' & H1 & H2 & _ & _ & H3). eauto.
    - intros (c' & H1 & H2 & H3). exists c'. auto. }
  split; [exact Hiff|].
  intros Huniq. rewrite Hiff. split.
  - intros H. exists c. auto.
  - intros (c' & H1 & H2 & H3). rewrite <- (Huniq c' H1 H2). exact H3.
Qed.

(** A catalog whose three records have three different join keys: the
    hypotheses of C2 hold there, and so does the equivalence on the tree of
    the record itself. *)
Lemma C2_graph_inversion_witness :
  let c := MkCourse (Some "CSCE 1101 - Fundamentals II") None None
             (Some (Ast (Some (Course "CSCE1001" (Some false) (Some false)))
                        None "CSCE 1001" None)) None None in
  let p := MkCourse (Some "CSCE 1001 - Fundamentals I") None None
             (Some (Ast None None "" None)) None None in
  let q := MkCourse (Some "MATH 1401 - Calculus") None None None None None in
  (key c ∈ is_prerequisite_for_after [c; p; q] p
   <-> exists c', c' ∈ [c; p; q] /\ key c' = key c /\ key p ∈ prereq_codes c')
  /\ ((forall c', c' ∈ [c; p; q] -> key c' = key c -> c' = c) ->
      (key p ∈ prereq_codes c <-> key c ∈ is_prerequisite_for_after [c; p; q] p)).
Proof.
  intros c p q.
  apply (C2_graph_inversion_by_join_key [c; p; q] c p).
  - apply list_elem_of_here.
  - apply list_elem_of_further, list_elem_of_here.
  - vm_compute. discriminate.
  - vm_compute. discriminate.
Defined.

(** C2, refuted as stated: two records of the catalog carry the join key
    CSCE1001, only the first lists CSCE2000 as a prerequisite, and the
    second still appears (by its key) in the sequence attached to the
    record of CSCE2000. *)
Lemma C2_counterexample :
  let c1 := MkCourse (Some "CSCE 1001 - Fundamentals (lecture)") None None
              (Some (Ast (Some (Course "CSCE2000" (Some false) (Some false)))
                         None "CSCE 2000" None)) None None in
  let c := MkCourse (Some "CSCE 1001 - Fundamentals (lab)") None None
             (Some (Ast None None "" None)) None None in
  let p := MkCourse (Some "CSCE 2000 - Programming") None None
             (Some (Ast None None "" None)) None None in
  c ∈ [c1; c; p] /\ p ∈ [c1; c; p] /\ key c <> "" /\ key p <> ""
  /\ key c ∈ is_prerequisite_for_after [c1; c; p] p
  /\ key p ∉ prereq_codes c.
Proof.
  intros c1 c p. split; [|split; [|split; [|split; [|split]]]].
  - apply list_elem_of_further, list_elem_of_here.
  - do 2 apply list_elem_of_further. apply list_elem_of_here.
  - vm_compute. discriminate.
  - vm_compute. discriminate.
  - replace (is_prerequisite_for_after [c1; c; p] p) with ["CSCE1001"]
      by (vm_compute; reflexivity).
    replace (key c) with "CSCE1001" by (vm_compute; reflexivity).
    apply list_elem_of_here.
  - replace (prereq_codes c) with (∅ : gset string) by (vm_compute; reflexivity).
    apply not_elem_of_empty.
Qed.



(** *** The batch loop *)

Lemma loop_body_fst fuel acc s c :
  fst (Batch.loop_body fuel (acc, s) c) =
    (acc ++ [set_prerequisite_ast c
               (match parse fuel (Str.strip (default "" (c_prerequisites c)))
                                 (Str.strip (default "" (c_concurrent c))) with
                | Ret a => a
                | Raise e =>
                    Ast None None (Str.strip (default "" (c_prerequisites c))) (Some e)
                end)])%list.
Proof. unfold Batch.loop_body. destruct (parse _ _ _); reflexivity. Qed.

Lemma fold_loop_body fuel courses : forall st,
  fst (fold_left (Batch.loop_body fuel) courses st) =
    (fst st ++
     map (fun c =>
            set_prerequisite_ast c
              (match parse fuel (Str.strip (default "" (c_prerequisites c)))
                                (Str.strip (default "" (c_concurrent c))) with
               | Ret a => a
               | Raise e =>
                   Ast None None (Str.strip (default "" (c_prerequisites c))) (Some e)
               end)) courses)%list.
Proof.
  induction courses as [|c courses IH]; intros [acc s].
  - simpl. rewrite app_nil_r. reflexivity.
  - change (fold_left (Batch.loop_body fuel) (c :: courses) (acc, s))
      with (fold_left (Batch.loop_body fuel) courses (Batch.loop_body fuel (acc, s) c)).
    rewrite IH, loop_body_fst. simpl. rewrite <- app_assoc. reflexivity.
Qed.

(** Whatever the recursion limit, the parser raises on the text "()": it
    has both parentheses and no group, so [_parse_with_groups] hands the
    same text back to [_parse_expression]. *)
Lemma parse_expression_empty_parentheses_raises (fuel : nat) :
  _parse_expression fuel "()" = Raise RecursionError.
Proof.
  induction fuel as [|fuel IH]; [reflexivity|].
  change (_parse_expression (S fuel) "()")
    with (_parse_with_groups (_parse_expression fuel) "()").
  unfold _parse_with_groups.
  replace (sub_fn false GROUP_PATTERN replace_group (0, ∅) "()")
    with ((0, ∅ : gmap string string), "()") by (vm_compute; reflexivity).
  rewrite IH. reflexivity.
Qed.

(** On records whose text fields are strings or missing, the loop appends
    one record for every course, in order, whatever the parser does: the
    other keys of the record are kept, and its AST is the one the parser
    returned, or, when the parser raised, an AST whose two trees are
    [None], whose [raw_text] is the trimmed prerequisite text of the record
    and which carries the exception as its parse-error marker. *)
Lemma batch_record_on_string_fields
    (fuel : nat) (courses : list course) (i : nat) (c : course) :
  courses !! i = Some c ->
  let prereq_text := Str.strip (default "" (c_prerequisites c)) in
  let concurrent_text := Str.strip (default "" (c_concurrent c)) in
  length (fst (Batch.parse_courses fuel courses)) = length courses
  /\ exists c',
       fst (Batch.parse_courses fuel courses) !! i = Some c'
       /\ c_title c' = c_title c
       /\ c_prerequisites c' = c_prerequisites c
       /\ c_concurrent c' = c_concurrent c
       /\ c_prerequisite_ast c' =
            Some (match parse fuel prereq_text concurrent_text with
                  | Ret a => a
                  | Raise e => Ast None None prereq_text (Some e)
                  end).
Proof.
  intros Hi prereq_text concurrent_text. unfold Batch.parse_courses.
  rewrite fold_loop_body. simpl. split.
  - apply length_map.
  - eexists. rewrite list_lookup_fmap, Hi. split; [reflexivity|].
    repeat split; reflexivity.
Qed.

(** The loop on elements of any JSON type agrees with the loop on records
    with string fields. *)
Lemma loop_body_on_string_fields fuel out s binding c :
  BatchMain.loop_body fuel
    (BatchMain.Locals (map BatchMain.item_of out) s binding) (BatchMain.item_of c)
  = Ret (BatchMain.Locals
           (map BatchMain.item_of (fst (Batch.loop_body fuel (out, s) c)))
           (snd (Batch.loop_body fuel (out, s) c))
           (Some (Str.strip (default "" (c_prerequisites c))))).
Proof.
  unfold BatchMain.loop_body, BatchMain.item_of, Batch.loop_body, BatchMain.get_strip.
  assert (Hp : default (BatchMain.VStr "") (BatchMain.VStr <$> c_prerequisites c)
               = BatchMain.VStr (default "" (c_prerequisites c)))
    by (destruct (c_prerequisites c); reflexivity).
  assert (Hc : default (BatchMain.VStr "") (BatchMain.VStr <$> c_concurrent c)
               = BatchMain.VStr (default "" (c_concurrent c)))
    by (destruct (c_concurrent c); reflexivity).
  rewrite Hp, Hc. cbn [mbind result_bind].
  destruct (parse fuel _ _) as [a|e]; cbn [mbind result_bind mret result_ret fst snd];
    unfold BatchMain.handler; cbn [BatchMain.parsed_courses BatchMain.stats];
    rewrite map_app; reflexivity.
Qed.

Lemma loop_on_string_fields fuel courses : forall out s binding,
  exists binding',
    BatchMain.loop fuel (map BatchMain.item_of courses)
      (BatchMain.Locals (map BatchMain.item_of out) s binding)
    = Ret (BatchMain.Locals
             (map BatchMain.item_of
                (fst (fold_left (Batch.loop_body fuel) courses (out, s))))
             (snd (fold_left (Batch.loop_body fuel) courses (out, s)))
             binding').
Proof.
  induction courses as [|c courses IH]; intros out s binding.
  - exists binding. reflexivity.
  - cbn [map BatchMain.loop fold_left]. rewrite loop_body_on_string_fields.
    cbn [mbind result_bind].
    destruct (Batch.loop_body fuel (out, s) c) as [out' s'] eqn:E. cbn [fst snd].
    apply IH.
Qed.

Lemma main_loop_on_string_fields fuel courses :
  BatchMain.main_loop fuel (map BatchMain.item_of courses)
  = Ret (map BatchMain.item_of (fst (Batch.parse_courses fuel courses)),
         snd (Batch.parse_courses fuel courses)).
Proof.
  unfold BatchMain.main_loop, Batch.parse_courses.
  destruct (loop_on_string_fields fuel courses [] (Batch.Stats (length courses) 0 0 0 0) None)
    as [binding H].
  cbn [map] in H. rewrite length_map, H. reflexivity.
Qed.

(** C7. The handler of the batch loop reads [prereq_text], which the [try]
    block assigns in its first statement. When that statement raises (the
    value of the key ["prerequisites"] is not a string, here [null]), the
    variable is unbound on the first record, so the handler itself raises
    and the batch aborts; on a later record it still holds the text of the
    previous record, which becomes the [raw_text] of the offending one. *)
Theorem C7_handler_reads_prereq_text_of_try_block (fuel : nat) :
  let bad := BatchMain.Obj (Some BatchMain.VOther) None None in
  let good := BatchMain.Obj (Some (BatchMain.VStr "MATH 1401")) None None in
  BatchMain.main_loop fuel [bad; good] = Raise UnboundLocalError
  /\ BatchMain.main_loop (S fuel) [good; bad]
     = Ret ([BatchMain.Obj (Some (BatchMain.VStr "MATH 1401")) None
               (Some (Ast (Some (Course "MATH1401" (Some false) (Some false)))
                          None "MATH 1401" None));
             BatchMain.Obj (Some BatchMain.VOther) None
               (Some (Ast None None "MATH 1401" (Some AttributeError)))],
            Batch.Stats 2 1 0 0 1).
Proof.
  intros bad good. split; [reflexivity|].
  vm_compute. reflexivity.
Qed.

(** *** Evaluations of the parser *)

(** C1. On the scenario text the parser does not build a [Group] node: the
    placeholder that stands for the parenthesised span is classified as a
    text condition by [_parse_atomic], [_replace_placeholders] only looks at
    course leaves, and so the placeholder stays in the tree and the content
    of the group is lost. Any recursion limit of two or more gives this
    value. *)
Theorem C1_group_scenario_keeps_placeholder (fuel : nat) :
  _parse_expression (S (S fuel)) "CSCE 1001 and (CSCE 1101 or CSCE 2303)"
  = Ret (Some (And [Course "CSCE1001" (Some false) (Some false);
                    TextCondition "~~~GROUP0~~~" other])).
Proof. vm_compute. reflexivity. Qed.

(** The table is searched to its end: the category of a fragment without a
    course code is the last category of the table one of whose phrases
    occurs in it. *)
Lemma category_loop_last (text_lower : string) :
  category_loop text_conditions text_lower =
    if triggers preparation text_lower then preparation
    else if triggers exemption text_lower then exemption
    else if triggers approval text_lower then approval
    else if triggers standing text_lower then standing
    else other.
Proof.
  unfold category_loop, triggers, text_conditions. simpl.
  repeat (destruct (Str.contains _ text_lower); simpl; try reflexivity).
Qed.

(** C4. The fragment "standing approval" has no course code and triggers
    the categories standing and approval; the classifier gives it the
    category approval, the later of the two in the table. *)
Theorem C4_later_category_wins_on_standing_approval :
  Re.search false COURSE_PATTERN "standing approval" = None
  /\ triggers standing (Str.lower "standing approval") = true
  /\ triggers approval (Str.lower "standing approval") = true
  /\ _parse_atomic "standing approval"
     = Some (TextCondition "standing approval" approval).
Proof. vm_compute. repeat split; reflexivity. Qed.

(** C9. The course leaf that [_parse_concurrent] puts below a
    [Concurrent] wrapper has a course code and nothing else: neither
    [is_concurrent] nor [is_optional]. *)
Theorem C9_concurrent_course_leaf_has_no_flags (fuel : nat) :
  parse fuel "Concurrent with CSCE 1001" ""
  = Ret (Ast None (Some (Concurrent (Course "CSCE1001" None None) ""))
             "Concurrent with CSCE 1001" None).
Proof. vm_compute. reflexivity. Qed.

(** A course leaf built by [_parse_atomic] has both flags, and
    [is_optional] is false. *)
Lemma parse_atomic_course_flags text code ic io :
  _parse_atomic text = Some (Course code ic io) ->
  (exists b, ic = Some b) /\ io = Some false.
Proof.
  unfold _parse_atomic. destruct (Str.is_empty text); [discriminate|].
  destruct (Re.search true OR_CONCURRENT_PATTERN _);
    (destruct (Re.search false COURSE_PATTERN _);
     [ intros [= <- <- <-]; eauto
     | destruct (_ || _); discriminate ]).
Qed.

(** Only spaces are removed from a matched course code, so a code written
    with a tab keeps it. *)
Example parse_atomic_keeps_tab :
  _parse_atomic ("CSCE" ++ String (ascii_of_nat 9) "1001")
  = Some (Course ("CSCE" ++ String (ascii_of_nat 9) "1001") (Some false) (Some false)).
Proof. vm_compute. reflexivity. Qed.

(** *** The combinators *)




(** *** The matcher on the patterns of the normalization *)

Lemma drop_step text pos x s' :
  Str.drop pos text = String x s' -> Str.drop (S pos) text = s'.
Proof.
  revert text. induction pos as [|pos IH]; intros [|y text]; simpl; try discriminate.
  - intros [= _ <-]. destruct text; reflexivity.
  - intros H. destruct text as [|z text]; [destruct pos; discriminate|].
    apply (IH (String z text)). exact H.
Qed.

Lemma coherent_step text prev x s' pos caps prev' caps' :
  coherent text (MState prev (String x s') pos caps) ->
  coherent text (MState prev' s' (S pos) caps').
Proof. unfold coherent. simpl. intros H. symmetry. eapply drop_step. symmetry. exact H. Qed.

Lemma advance_coherent text n : forall st,
  coherent text st -> coherent text (advance n st).
Proof.
  induction n as [|n IH]; intros [prev s pos caps] H; simpl; [exact H|].
  destruct s as [|x s']; [exact H|]. apply IH. eapply coherent_step, H.
Qed.

Lemma skip_run_coherent text p s : forall prev pos caps,
  coherent text (MState prev s pos caps) -> coherent text (skip_run p prev s pos caps).
Proof.
  induction s as [|x s' IH]; intros prev pos caps H; simpl; [exact H|].
  destruct (p x); [|exact H]. apply IH. eapply coherent_step, H.
Qed.

Lemma skip_run_rest p s : forall prev pos caps,
  ms_rest (skip_run p prev s pos caps) = Str.lstrip_by p s.
Proof.
  induction s as [|x s' IH]; intros prev pos caps; simpl; [reflexivity|].
  destruct (p x); [apply IH|reflexivity].
Qed.

Lemma advance_caps n : forall st, ms_caps (advance n st) = ms_caps st.
Proof.
  induction n as [|n IH]; intros [prev s pos caps]; simpl; [reflexivity|].
  destruct s; [reflexivity|]. rewrite IH. reflexivity.
Qed.

Lemma skip_run_caps p s : forall prev pos caps,
  ms_caps (skip_run p prev s pos caps) = caps.
Proof.
  induction s as [|x s' IH]; intros prev pos caps; simpl; [reflexivity|].
  destruct (p x); [apply IH|reflexivity].
Qed.

Lemma advance_rest w : forall st r,
  after_word w (ms_rest st) = Some r -> ms_rest (advance (String.length w) st) = r.
Proof.
  induction w as [|a w IH]; intros [prev s pos caps] r; simpl.
  - intros [= <-]. reflexivity.
  - destruct s as [|x s']; [discriminate|]. destruct (Chars.eqb_nocase a x); [|discriminate].
    intros H. apply (IH (MState (Some x) s' (S pos) caps)). exact H.
Qed.

(** A literal word under [re.IGNORECASE]. *)
Lemma rmatch_lit w : forall st k,
  rmatch true (lit w) st k =
    match after_word w (ms_rest st) with
    | Some _ => k (advance (String.length w) st)
    | None => None
    end.
Proof.
  induction w as [|a w IH]; intros [prev s pos caps] k.
  - reflexivity.
  - destruct w as [|b w'].
    + simpl. destruct s as [|x s']; [reflexivity|].
      destruct (Chars.eqb_nocase a x); reflexivity.
    + change (lit (String a (String b w'))) with (Seq (One (CLit a)) (lit (String b w'))).
      cbn [rmatch ms_rest]. destruct s as [|x s']; [reflexivity|].
      cbn [in_cls]. cbn [after_word]. fold (after_word (String b w')).
      destruct (Chars.eqb_nocase a x); [|reflexivity].
      rewrite IH. reflexivity.
Qed.

(** A greedy run of a class: the longest run is tried first. *)
Lemma rep_greedy_reject c k (Hk : rejects_head (in_cls true c) k) s :
  forall lo prev pos caps,
    rep true true c lo None prev s pos caps k =
      if Nat.leb lo (run_length (in_cls true c) s)
      then k (skip_run (in_cls true c) prev s pos caps)
      else None.
Proof.
  induction s as [|x s' IH]; intros lo prev pos caps; simpl.
  - destruct lo; reflexivity.
  - destruct (in_cls true c x) eqn:Ex; simpl.
    + rewrite IH. destruct lo as [|lo]; simpl.
      * rewrite (Hk prev x s' pos caps Ex).
        destruct (k (skip_run _ _ _ _ _)); reflexivity.
      * reflexivity.
    + destruct lo; reflexivity.
Qed.

Lemma rep_greedy_accept c k s :
  forall lo prev pos caps r,
    Nat.leb lo (run_length (in_cls true c) s) = true ->
    k (skip_run (in_cls true c) prev s pos caps) = Some r ->
    rep true true c lo None prev s pos caps k = Some r.
Proof.
  induction s as [|x s' IH]; intros lo prev pos caps r; simpl.
  - destruct lo; [|discriminate]. intros _ H. exact H.
  - destruct (in_cls true c x) eqn:Ex; simpl.
    + intros Hlo H. destruct lo as [|lo]; simpl.
      * rewrite (IH 0 _ _ _ r eq_refl H). reflexivity.
      * apply IH; assumption.
    + destruct lo; [|discriminate]. intros _ H. exact H.
Qed.

Lemma after_word_space_head w x s :
  head_not_space w -> Chars.is_space x = true -> after_word w (String x s) = None.
Proof.
  destruct w as [|a w]; simpl; [intros []|]. intros H Hx. rewrite (H x Hx). reflexivity.
Qed.

Lemma after_words_space_head ws x s :
  ws <> [] -> Forall head_not_space ws -> Chars.is_space x = true ->
  after_words ws (String x s) = None.
Proof.
  destruct ws as [|w ws]; [congruence|]. intros _ Hws Hx.
  apply Forall_cons in Hws as [Hw _].
  cbn [after_words]. rewrite (after_word_space_head w x s Hw Hx).
  destruct ws; reflexivity.
Qed.

Lemma rmatch_star_space st :
  rmatch true (star CSpace) st Some
  = Some (skip_run Chars.is_space (ms_prev st) (ms_rest st) (ms_pos st) (ms_caps st)).
Proof.
  unfold star. cbn [rmatch]. apply rep_greedy_accept; reflexivity.
Qed.

Lemma rmatch_words ws :
  Forall head_not_space ws ->
  forall st,
    match after_words ws (ms_rest st) with
    | Some r =>
        exists st', rmatch true (words_regex ws) st Some = Some st'
                    /\ ms_rest st' = Str.lstrip_by Chars.is_space r
                    /\ (forall text, coherent text st -> coherent text st')
    | None => rmatch true (words_regex ws) st Some = None
    end.
Proof.
  induction ws as [|w ws IH]; intros Hws st.
  - cbn [after_words words_regex]. rewrite rmatch_star_space.
    eexists. split; [reflexivity|]. split; [apply skip_run_rest|].
    intros text H. apply skip_run_coherent. destruct st; exact H.
  - apply Forall_cons in Hws as [Hw Hws]. specialize (IH Hws).
    destruct ws as [|w2 ws].
    + cbn [after_words words_regex rmatch]. rewrite rmatch_lit.
      destruct (after_word w (ms_rest st)) as [r|] eqn:Er; [|reflexivity].
      rewrite rmatch_star_space. eexists. split; [reflexivity|].
      split.
      * rewrite skip_run_rest, (advance_rest w st r Er). reflexivity.
      * intros text H. apply skip_run_coherent.
        pose proof (advance_coherent text (String.length w) st H) as H'.
        destruct (advance _ st); exact H'.
    + assert (Hrej : rejects_head (in_cls true CSpace)
                       (fun st2 => rmatch true (words_regex (w2 :: ws)) st2 Some)).
      { intros prev x s pos caps Hx.
        specialize (IH (MState prev (String x s) pos caps)). cbn [ms_rest] in IH.
        rewrite (after_words_space_head (w2 :: ws) x s) in IH; [exact IH|discriminate|exact Hws|exact Hx]. }
      change (after_words (w :: w2 :: ws) (ms_rest st))
        with (s1 ← after_word w (ms_rest st); s2 ← after_spaces s1; after_words (w2 :: ws) s2).
      change (words_regex (w :: w2 :: ws))
        with (Seq (lit w) (Seq (plus CSpace) (words_regex (w2 :: ws)))).
      cbn [rmatch]. rewrite rmatch_lit.
      destruct (after_word w (ms_rest st)) as [r1|] eqn:E1; [|reflexivity].
      cbn [mbind option_bind]. unfold plus. cbn [rmatch].
      rewrite (rep_greedy_reject CSpace _ Hrej).
      pose proof (advance_rest w st r1 E1) as Hr1.
      pose proof (fun text => advance_coherent text (String.length w) st) as Hco.
      destruct (advance (String.length w) st) as [prev1 s1 pos1 caps1].
      cbn [ms_rest ms_prev ms_pos ms_caps] in *. subst s1.
      destruct r1 as [|x r1']; [reflexivity|].
      cbn [after_spaces run_length]. change (in_cls true CSpace x) with (Chars.is_space x).
      destruct (Chars.is_space x) eqn:Ex; [|reflexivity].
      cbn [Nat.leb mbind option_bind].
      specialize (IH (skip_run (in_cls true CSpace) prev1 (String x r1') pos1 caps1)).
      rewrite skip_run_rest in IH. cbn [Str.lstrip_by] in IH.
      change (in_cls true CSpace x) with (Chars.is_space x) in IH. rewrite Ex in IH.
      change (Str.lstrip_by (in_cls true CSpace) r1')
        with (Str.lstrip_by Chars.is_space r1') in IH.
      destruct (after_words (w2 :: ws) (Str.lstrip_by Chars.is_space r1')) as [r|].
      * destruct IH as (st' & H1 & H2 & H3). exists st'. split; [exact H1|].
        split; [exact H2|]. intros text H. apply H3, skip_run_coherent, Hco, H.
      * exact IH.
Qed.

(** A pattern anchored by [^] matches at the start of the text or not at all. *)
Lemma scan_bol ic r s : forall prev pos, scan ic (Seq Bol r) prev s (S pos) = None.
Proof.
  induction s as [|x s IH]; intros prev pos; simpl; [reflexivity|]. apply IH.
Qed.

Lemma finditer_bol ic r text :
  finditer ic (Seq Bol r) text =
    match match_here ic (Seq Bol r) None text 0 with
    | Some m => [m]
    | None => []
    end.
Proof.
  unfold finditer. cbn [finditer_from prev_at Str.drop].
  assert (Hscan : scan ic (Seq Bol r) None text 0 = match_here ic (Seq Bol r) None text 0).
  { destruct text as [|x s]; cbn [scan].
    - destruct (match_here _ _ _ _ _); reflexivity.
    - rewrite scan_bol. destruct (match_here _ _ _ _ _); reflexivity. }
  rewrite Hscan. destruct (match_here ic (Seq Bol r) None text 0) as [m|]; [|reflexivity].
  destruct (Nat.leb _ _); [|reflexivity]. f_equal.
  assert (Hnext : exists n, (if Nat.ltb (m_start m) (m_end m) then m_end m else S (m_end m)) = S n).
  { destruct (Nat.ltb (m_start m) (m_end m)) eqn:E; [|eauto].
    apply Nat.ltb_lt in E. exists (Nat.pred (m_end m)). lia. }
  destruct Hnext as [n ->].
  destruct (String.length text) as [|fuel]; [reflexivity|].
  cbn [finditer_from]. rewrite scan_bol. reflexivity.
Qed.

Lemma match_here_start ic r prev s pos m :
  match_here ic r prev s pos = Some m -> m_start m = pos.
Proof.
  unfold match_here. destruct (rmatch _ _ _ _); [|discriminate]. intros [= <-]. reflexivity.
Qed.

Lemma sub_bol ic r text :
  sub ic (Seq Bol r) "" text =
    match match_here ic (Seq Bol r) None text 0 with
    | Some m => Str.drop (m_end m) text
    | None => text
    end.
Proof.
  unfold sub, sub_fn. rewrite finditer_bol.
  destruct (match_here ic (Seq Bol r) None text 0) as [m|] eqn:E; [|reflexivity].
  cbn [sub_go snd]. rewrite (match_here_start _ _ _ _ _ _ E). reflexivity.
Qed.

Lemma sub_label ws pattern text :
  pattern = Seq Bol (words_regex ws) ->
  Forall head_not_space ws ->
  sub true pattern "" text = strip_label ws text.
Proof.
  intros -> Hws. rewrite sub_bol. unfold match_here, strip_label. cbn [rmatch ms_pos Nat.eqb].
  pose proof (rmatch_words ws Hws (MState None text 0 [])) as H. cbn [ms_rest] in H.
  destruct (after_words ws text) as [r|].
  - destruct H as (st' & -> & Hrest & Hco). cbn [m_end].
    rewrite <- Hrest. symmetry. apply Hco. reflexivity.
  - rewrite H. reflexivity.
Qed.

Lemma head_P : head_not_space "Prerequisite:".
Proof.
  intros x. destruct x as [[] [] [] [] [] [] [] []]; vm_compute; congruence.
Qed.

Lemma head_o : head_not_space "or".
Proof. intros x. destruct x as [[] [] [] [] [] [] [] []]; vm_compute; congruence. Qed.

Lemma head_c : head_not_space "concurrent:".
Proof. intros x. destruct x as [[] [] [] [] [] [] [] []]; vm_compute; congruence. Qed.


(** C8 (as amended). The normalization of a text is the text trimmed of
    leading and trailing whitespace, then without a leading
    "Pre-requisites or concurrent:" label (its words separated by
    whitespace, in any case) and the whitespace after it, then without a
    leading "Prerequisite:" label (in any case) and the whitespace after
    it. Nothing else is changed: whitespace inside the text stays as it
    is. *)
Theorem C8_normalize_trims_and_strips_labels (text : string) :
  normalize text =
    strip_label ["Prerequisite:"]
      (strip_label ["Pre-requisites"; "or"; "concurrent:"] (Str.strip text)).
Proof.
  unfold normalize.
  rewrite (sub_label ["Pre-requisites"; "or"; "concurrent:"] PREFIX_OR_CONCURRENT);
    [|reflexivity|repeat constructor; [exact head_P|exact head_o|exact head_c] ].
  rewrite (sub_label ["Prerequisite:"] PREFIX_PREREQUISITE);
    [|reflexivity|repeat constructor; exact head_P].
  reflexivity.
Qed.

(** C8, refuted as stated: the runs of two and three spaces inside this
    text are still there after the normalization. *)
Lemma C8_counterexample :
  normalize "  Prerequisite: CSCE 1001  and   CSCE 1101 " = "CSCE 1001  and   CSCE 1101"
  /\ Str.contains "  " (normalize "  Prerequisite: CSCE 1001  and   CSCE 1101 ") = true.
Proof. vm_compute. split; reflexivity. Qed.

(** *** The concurrent parse routine *)

Lemma period_nocase x : Chars.eqb_nocase "." x = Ascii.eqb x ".".
Proof. destruct x as [[] [] [] [] [] [] [] []]; vm_compute; reflexivity. Qed.

(** The lazy repetition of the note pattern stops at the first period or
    at the end of a text without line breaks. *)
Lemma lazy_until_period start b : forall prev pos caps,
  Str.has_char newline b = false ->
  exists st,
    rep true false CDot 0 None prev b pos caps (note_tail start) = Some st
    /\ ms_caps st = (1, (start, pos + String.length (until_period b))) :: caps.
Proof.
  induction b as [|x b IH]; intros prev pos caps Hnl.
  - eexists. split; [reflexivity|]. simpl. rewrite Nat.add_0_r. reflexivity.
  - simpl in Hnl. apply orb_false_iff in Hnl as [Hx Hb].
    cbn [rep until_period]. unfold note_tail at 1.
    cbn [rmatch ms_rest ms_prev ms_pos ms_caps in_cls]. rewrite period_nocase.
    destruct (Ascii.eqb x ".") eqn:Ep.
    + eexists. split; [reflexivity|]. simpl. rewrite Nat.add_0_r. reflexivity.
    + unfold at_eol. cbn [ms_rest]. rewrite Hx.
      replace (match b with "" => false | String _ _ => false end) with false
        by (destruct b; reflexivity).
      cbn [negb andb hi_allows hi_pred Nat.pred].
      destruct (IH (Some x) (S pos) caps Hb) as (st & -> & Hcaps).
      exists st. split; [reflexivity|]. rewrite Hcaps. simpl.
      rewrite Nat.add_succ_r. reflexivity.
Qed.

Lemma after_word_drop w : forall s r, after_word w s = Some r -> r = Str.drop (String.length w) s.
Proof.
  induction w as [|a w IH]; intros s r; simpl.
  - intros [= <-]. destruct s; reflexivity.
  - destruct s as [|x s]; [discriminate|]. destruct (Chars.eqb_nocase a x); [|discriminate].
    apply IH.
Qed.

Lemma has_char_drop x n : forall s, Str.has_char x s = false -> Str.has_char x (Str.drop n s) = false.
Proof.
  induction n as [|n IH]; intros [|y s]; simpl; try reflexivity; try (intros H; exact H).
  intros [_ H]%orb_false_iff. apply IH, H.
Qed.

Lemma has_char_lstrip x p s :
  Str.has_char x s = false -> Str.has_char x (Str.lstrip_by p s) = false.
Proof.
  induction s as [|y s IH]; simpl; [reflexivity|]. intros H.
  destruct (p y); [|exact H]. apply orb_false_iff in H as [_ H]. apply IH, H.
Qed.

Lemma take_until_period b : Str.take (String.length (until_period b)) b = until_period b.
Proof.
  induction b as [|x b IH]; simpl; [reflexivity|].
  destruct (Ascii.eqb x "."); simpl; [reflexivity|]. rewrite IH. reflexivity.
Qed.

Lemma lstrip_empty_ends s :
  s <> "" -> Str.lstrip_by Chars.is_space s = "" -> ends_with_space s = true.
Proof.
  induction s as [|x s IH]; [congruence|]. intros _. simpl.
  destruct (Chars.is_space x) eqn:Ex; [|discriminate].
  destruct s as [|y s]; [intros _; reflexivity|]. intros H. apply IH; [discriminate|exact H].
Qed.

Lemma ends_with_space_tail x s : s <> "" -> ends_with_space (String x s) = ends_with_space s.
Proof. destruct s; [congruence|reflexivity]. Qed.

Lemma ends_with_space_drop n : forall s,
  ends_with_space (Str.drop n s) = true -> ends_with_space s = true.
Proof.
  induction n as [|n IH]; intros [|x s]; simpl Str.drop; try (intros H; exact H).
  intros H. destruct s as [|y s]; [destruct n; discriminate|].
  rewrite ends_with_space_tail by discriminate. apply IH, H.
Qed.

Lemma for_clause_rest s :
  for_clause_at s = true ->
  exists x r, after_word "for" s = Some (String x r) /\ Chars.is_space x = true.
Proof.
  unfold for_clause_at. destruct (after_word "for" s) as [[|x r]|]; try discriminate.
  intros H. eauto.
Qed.

Lemma note_pattern_shape :
  NOTE_PATTERN =
    Seq (lit "for")
        (Seq (plus CSpace) (Seq (Grp 1 (lazy_plus CDot)) (Alt (One (CLit ".")) Eol))).
Proof. reflexivity. Qed.

Lemma match_here_note_fail s prev pos :
  for_clause_at s = false -> match_here true NOTE_PATTERN prev s pos = None.
Proof.
  intros H. unfold match_here. rewrite note_pattern_shape. cbn [rmatch].
  rewrite rmatch_lit. cbn [ms_rest]. unfold for_clause_at in H.
  destruct (after_word "for" s) as [r|] eqn:E; [|reflexivity].
  pose proof (advance_rest "for" (MState prev s pos []) r E) as Hr.
  destruct (advance _ _) as [prev1 s1 pos1 caps1]. cbn [ms_rest] in Hr. subst s1.
  unfold plus. cbn [rmatch ms_rest ms_prev ms_pos ms_caps].
  destruct r as [|x r]; [reflexivity|]. cbn [rep in_cls]. rewrite H. reflexivity.
Qed.

Lemma match_here_note_ok text s prev pos c b :
  coherent text (MState prev s pos []) ->
  for_clause_at s = true ->
  Str.has_char newline s = false ->
  Str.lstrip_by Chars.is_space (Str.drop 3 s) = String c b ->
  exists m, match_here true NOTE_PATTERN prev s pos = Some m
            /\ group 1 text m = String c (until_period b).
Proof.
  intros Hco Hfor Hnl Hbody.
  destruct (for_clause_rest s Hfor) as (x & r & E & Hx).
  pose proof (after_word_drop _ _ _ E) as Hdrop. simpl String.length in Hdrop.
  rewrite <- Hdrop in Hbody.
  assert (Hnl' : Str.has_char newline (String c b) = false).
  { rewrite <- Hbody, Hdrop. apply has_char_lstrip, has_char_drop, Hnl. }
  simpl in Hnl'. apply orb_false_iff in Hnl' as [Hc Hb].
  unfold match_here. rewrite note_pattern_shape. cbn [rmatch].
  rewrite rmatch_lit. cbn [ms_rest]. rewrite E.
  pose proof (advance_rest "for" (MState prev s pos []) _ E) as Hr.
  pose proof (advance_coherent text (String.length "for") _ Hco) as Hco1.
  pose proof (advance_caps (String.length "for") (MState prev s pos [])) as Hcaps1.
  destruct (advance _ _) as [prev1 s1 pos1 caps1].
  cbn [ms_rest ms_caps] in Hr, Hcaps1. subst s1 caps1.
  unfold plus. cbn [rmatch ms_rest ms_prev ms_pos ms_caps].
  pose proof (skip_run_rest Chars.is_space (String x r) prev1 pos1 []) as Hrest2.
  pose proof (skip_run_coherent text Chars.is_space (String x r) prev1 pos1 [] Hco1) as Hco2.
  pose proof (skip_run_caps Chars.is_space (String x r) prev1 pos1 []) as Hcaps2.
  rewrite Hbody in Hrest2.
  destruct (skip_run Chars.is_space prev1 (String x r) pos1 []) as [prev2 s2 pos2 caps2] eqn:Eskip.
  cbn [ms_rest ms_caps] in Hrest2, Hcaps2. subst s2 caps2.
  destruct (lazy_until_period pos2 b (Some c) (S pos2) [] Hb) as (st & Hst & Hstcaps).
  exists (MatchObj pos (ms_pos st) (ms_caps st)). split.
  - erewrite rep_greedy_accept; [reflexivity| |].
    + cbn [run_length in_cls]. rewrite Hx. reflexivity.
    + change (in_cls true CSpace) with Chars.is_space. rewrite Eskip.
      cbn [rmatch ms_rest ms_prev ms_pos ms_caps]. unfold lazy_plus.
      cbn [rmatch ms_rest ms_prev ms_pos ms_caps rep in_cls].
      rewrite Hc. cbn [negb andb hi_allows hi_pred Nat.pred].
      exact Hst.
  - unfold group. cbn [m_caps]. rewrite Hstcaps. cbn [cap_lookup Nat.eqb].
    unfold Str.slice. unfold coherent in Hco2. cbn [ms_rest ms_pos] in Hco2.
    rewrite <- Hco2.
    replace (S pos2 + String.length (until_period b) - pos2)
      with (S (String.length (until_period b))) by lia.
    simpl. rewrite take_until_period. reflexivity.
Qed.

Lemma scan_note text s : forall prev pos,
  coherent text (MState prev s pos []) ->
  Str.has_char newline s = false ->
  ends_with_space s = false ->
  match find_first for_clause_at s with
  | Some i =>
      match Str.lstrip_by Chars.is_space (Str.drop (i + 3) s) with
      | String c b =>
          exists m, scan true NOTE_PATTERN prev s pos = Some m
                    /\ group 1 text m = String c (until_period b)
      | EmptyString => False
      end
  | None => scan true NOTE_PATTERN prev s pos = None
  end.
Proof.
  induction s as [|x s IH]; intros prev pos Hco Hnl Hend.
  - reflexivity.
  - cbn [find_first]. destruct (for_clause_at (String x s)) eqn:Hfor.
    + cbn [Nat.add].
      destruct (Str.lstrip_by Chars.is_space (Str.drop 3 (String x s))) as [|c b] eqn:Hbody.
      * destruct (for_clause_rest _ Hfor) as (y & r & E & Hy).
        pose proof (after_word_drop _ _ _ E) as Hdrop. simpl String.length in Hdrop.
        rewrite <- Hdrop in Hbody.
        assert (ends_with_space (String x s) = true) as Hcontra.
        { apply (ends_with_space_drop 3). rewrite <- Hdrop.
          apply lstrip_empty_ends; [discriminate|exact Hbody]. }
        congruence.
      * destruct (match_here_note_ok text _ prev pos c b Hco Hfor Hnl Hbody) as (m & Hm & Hg).
        exists m. split; [|exact Hg]. cbn [scan]. rewrite Hm. reflexivity.
    + cbn [scan]. rewrite (match_here_note_fail _ prev pos Hfor).
      simpl in Hnl. apply orb_false_iff in Hnl as [_ Hnl].
      assert (Hend' : ends_with_space s = false).
      { destruct s as [|y s]; [reflexivity|].
        rewrite ends_with_space_tail in Hend by discriminate. exact Hend. }
      specialize (IH (Some x) (S pos) (coherent_step _ _ _ _ _ _ _ _ Hco) Hnl Hend').
      destruct (find_first for_clause_at s) as [i|]; cbn [fmap option_fmap option_map].
      * exact IH.
      * exact IH.
Qed.

Lemma prefix_nil s : String.prefix "" s = true.
Proof. destruct s; reflexivity. Qed.

Lemma prefix_cons a s1 s2 : String.prefix (String a s1) (String a s2) = String.prefix s1 s2.
Proof. simpl. destruct (ascii_dec a a); [reflexivity|congruence]. Qed.

Lemma after_word_for_prefix s r :
  after_word "for" s = Some r -> String.prefix "for" (Str.lower s) = true.
Proof.
  destruct s as [|x1 [|x2 [|x3 s]]]; intros H; simpl in H; try discriminate.
  - destruct (Chars.eqb_nocase _ _); discriminate.
  - destruct (Chars.eqb_nocase _ _); [|discriminate].
    destruct (Chars.eqb_nocase _ _); discriminate.
  - unfold Chars.eqb_nocase in H.
    destruct (Ascii.eqb _ (Chars.lower x1)) eqn:E1; [|discriminate].
    destruct (Ascii.eqb _ (Chars.lower x2)) eqn:E2; [|discriminate].
    destruct (Ascii.eqb _ (Chars.lower x3)) eqn:E3; [|discriminate].
    apply Ascii.eqb_eq in E1, E2, E3. cbn [Str.lower].
    rewrite <- E1, <- E2, <- E3.
    change (Chars.lower "f") with "f"%char. change (Chars.lower "o") with "o"%char.
    change (Chars.lower "r") with "r"%char.
    rewrite !prefix_cons. apply prefix_nil.
Qed.

Lemma contains_tail p x s : Str.contains p s = true -> Str.contains p (String x s) = true.
Proof. intros H. cbn [Str.contains]. rewrite H. apply orb_true_r. Qed.

Lemma find_first_for_contains s i :
  find_first for_clause_at s = Some i -> Str.contains "for" (Str.lower s) = true.
Proof.
  revert i. induction s as [|x s IH]; intros i.
  - vm_compute. discriminate.
  - cbn [find_first]. destruct (for_clause_at (String x s)) eqn:Hfor.
    + intros _. destruct (for_clause_rest _ Hfor) as (y & r & E & _).
      apply after_word_for_prefix in E.
      destruct (Str.lower (String x s)); cbn [Str.contains]; rewrite E; reflexivity.
    + destruct (find_first for_clause_at s) as [j|]; [|discriminate].
      intros _. cbn [Str.lower]. apply contains_tail. eapply IH. reflexivity.
Qed.

Lemma concurrent_note_one_line text :
  Str.has_char newline text = false ->
  ends_with_space text = false ->
  concurrent_note text = note_spec text.
Proof.
  intros Hnl Hend. unfold concurrent_note, note_spec, search.
  pose proof (scan_note text text None 0 eq_refl Hnl Hend) as H.
  destruct (find_first for_clause_at text) as [i|] eqn:Ei.
  - rewrite (find_first_for_contains _ _ Ei).
    destruct (Str.lstrip_by _ _) as [|c b]; [destruct H|].
    destruct H as (m & -> & ->). reflexivity.
  - rewrite H. destruct (Str.contains _ _); reflexivity.
Qed.

Lemma parse_concurrent_shape text :
  _parse_concurrent text =
    match findall false COURSE_PATTERN text with
    | [] => None
    | [c] => Some (Concurrent (Course (Str.replace " " "" c) None None)
                              (concurrent_note text))
    | cs => Some (Concurrent (Or (map (fun c => Course (Str.replace " " "" c) None None) cs))
                             (concurrent_note text))
    end.
Proof.
  unfold _parse_concurrent. destruct text as [|x s].
  - vm_compute. reflexivity.
  - cbn [Str.is_empty]. destruct (findall _ _ _) as [|c0 [|c1 cs]]; reflexivity.
Qed.

(** C6 (as amended). The concurrent parse routine returns no node when
    the text has no course-code match, a [Concurrent] node around one
    course leaf when it has exactly one, and a [Concurrent] node around an
    [Or] of course leaves when it has more. The note is empty when the
    lower-cased text does not contain "for"; and for a text of one line
    that does not end with whitespace, the note is what follows the first
    "for" (in any case) and its whitespace, up to the first period after
    its first character or to the end of the text, trimmed, and it is empty
    when no "for" is followed by whitespace. *)
Theorem C6_concurrent_parse_shape_and_note :
  (forall text,
     _parse_concurrent text =
       match findall false COURSE_PATTERN text with
       | [] => None
       | [c] => Some (Concurrent (Course (Str.replace " " "" c) None None)
                                 (concurrent_note text))
       | cs => Some (Concurrent
                       (Or (map (fun c => Course (Str.replace " " "" c) None None) cs))
                       (concurrent_note text))
       end)
  /\ (forall text,
        Str.contains "for" (Str.lower text) = false -> concurrent_note text = "")
  /\ (forall text,
        Str.has_char newline text = false ->
        ends_with_space text = false ->
        concurrent_note text = note_spec text).
Proof.
  split; [exact parse_concurrent_shape|]. split.
  - intros text H. unfold concurrent_note. rewrite H. reflexivity.
  - exact concurrent_note_one_line.
Qed.

(** A text without "for", and a one-line text with a trailing "for"
    clause that ends in a period. *)
Lemma C6_concurrent_parse_witness :
  concurrent_note "CSCE 2301 or CSCE 2302" = ""
  /\ concurrent_note "CSCE 2301 for computer engineering majors."
     = note_spec "CSCE 2301 for computer engineering majors.".
Proof.
  split.
  - exact (proj1 (proj2 C6_concurrent_parse_shape_and_note)
             "CSCE 2301 or CSCE 2302" eq_refl).
  - exact (proj2 (proj2 C6_concurrent_parse_shape_and_note)
             "CSCE 2301 for computer engineering majors." eq_refl eq_refl).
Defined.

Example note_spec_majors :
  note_spec "CSCE 2301 for computer engineering majors." = "computer engineering majors".
Proof. vm_compute. reflexivity. Qed.

(** C6, refuted as stated: the text ends with the clause
    "for B.S. students", and the note is cut at the first period of the
    reason. *)
Lemma C6_counterexample :
  let reason := "B.S. students" in
  let text := "CSCE 1001 for " ++ reason in
  exists note,
    _parse_concurrent text = Some (Concurrent (Course "CSCE1001" None None) note)
    /\ note = "B" /\ note <> reason.
Proof.
  exists "B". split; [vm_compute; reflexivity|]. split; [reflexivity|discriminate].
Qed.

(** *** The parser returns on texts without an opening parenthesis *)

Lemma has_char_rev_onto c s : forall acc,
  Str.has_char c (Str.rev_onto s acc) = Str.has_char c s || Str.has_char c acc.
Proof.
  induction s as [|x s IH]; intros acc; simpl; [reflexivity|].
  rewrite IH. simpl. destruct (Ascii.eqb x c), (Str.has_char c s); reflexivity.
Qed.

Lemma has_char_rev c s : Str.has_char c (Str.rev s) = Str.has_char c s.
Proof. unfold Str.rev. rewrite has_char_rev_onto. simpl. apply orb_false_r. Qed.

Lemma has_char_strip_by c p s :
  Str.has_char c s = false -> Str.has_char c (Str.strip_by p s) = false.
Proof.
  intros H. unfold Str.strip_by, Str.rstrip_by. rewrite has_char_rev.
  apply has_char_lstrip. rewrite has_char_rev. apply has_char_lstrip, H.
Qed.

Lemma has_char_take c n : forall s,
  Str.has_char c s = false -> Str.has_char c (Str.take n s) = false.
Proof.
  induction n as [|n IH]; intros [|x s]; simpl; try reflexivity.
  intros [Hx H]%orb_false_iff. rewrite Hx. apply IH, H.
Qed.

Lemma has_char_after_words c ws : forall s r,
  Str.has_char c s = false -> after_words ws s = Some r -> Str.has_char c r = false.
Proof.
  induction ws as [|w ws IH]; intros s r Hs.
  - intros [= <-]. exact Hs.
  - destruct ws as [|w2 ws].
    + cbn [after_words]. intros H. rewrite (after_word_drop _ _ _ H).
      apply has_char_drop, Hs.
    + change (after_words (w :: w2 :: ws) s)
        with (s1 ← after_word w s; s2 ← after_spaces s1; after_words (w2 :: ws) s2).
      destruct (after_word w s) as [s1|] eqn:E1; [|discriminate].
      cbn [mbind option_bind]. unfold after_spaces.
      destruct s1 as [|x s1]; [discriminate|]. destruct (Chars.is_space x); [|discriminate].
      cbn [mbind option_bind]. apply IH. apply has_char_lstrip.
      pose proof (has_char_drop c (String.length w) s Hs) as H.
      rewrite <- (after_word_drop _ _ _ E1) in H. simpl in H.
      apply orb_false_iff in H as [_ H]. exact H.
Qed.

Lemma has_char_strip_label c ws s :
  Str.has_char c s = false -> Str.has_char c (strip_label ws s) = false.
Proof.
  intros Hs. unfold strip_label. destruct (after_words ws s) as [r|] eqn:E; [|exact Hs].
  apply has_char_lstrip. eapply has_char_after_words; eassumption.
Qed.

Lemma has_char_normalize c text :
  Str.has_char c text = false -> Str.has_char c (normalize text) = false.
Proof.
  intros H. unfold normalize.
  rewrite (sub_label ["Pre-requisites"; "or"; "concurrent:"] PREFIX_OR_CONCURRENT);
    [|reflexivity|repeat constructor; [exact head_P|exact head_o|exact head_c] ].
  rewrite (sub_label ["Prerequisite:"] PREFIX_PREREQUISITE);
    [|reflexivity|repeat constructor; exact head_P].
  do 2 apply has_char_strip_label. apply has_char_strip_by, H.
Qed.

Lemma parse_expression_returns fuel text :
  Str.has_char "(" text = false ->
  exists r, _parse_expression (S fuel) text = Ret r.
Proof.
  intros H. cbn [_parse_expression]. destruct (Str.is_empty text); [eauto|].
  rewrite (has_char_normalize _ _ H). cbn [andb].
  destruct (match (if Nat.ltb 1 _ then _ else None) with Some n => _ | None => _ end) eqn:E; eauto.
  destruct (if Nat.ltb 1 _ then _ else _); discriminate.
Qed.

Lemma parse_returns fuel prerequisites_text concurrent_text :
  Str.has_char "(" prerequisites_text = false ->
  exists a, parse (S fuel) prerequisites_text concurrent_text = Ret a.
Proof.
  intros H. unfold parse. destruct (_ && _); [eauto|].
  assert (Hs : exists pc, _split_prereq_and_concurrent (S fuel) (Str.strip prerequisites_text) = Ret pc).
  { pose proof (has_char_strip_by "(" Chars.is_space _ H) as H'.
    fold (Str.strip prerequisites_text) in H'.
    unfold _split_prereq_and_concurrent.
    destruct (Str.is_empty (Str.strip prerequisites_text)); [eauto|].
    destruct (_ || _); [eauto|].
    destruct (search _ _ _) as [m|].
    - destruct (Str.is_empty (Str.strip (Str.take _ _))); [eauto|].
      destruct (parse_expression_returns fuel
                  (Str.strip (Str.take (m_start m) (Str.strip prerequisites_text)))) as [r ->].
      + apply has_char_strip_by, has_char_take, H'.
      + eauto.
    - destruct (parse_expression_returns fuel (Str.strip prerequisites_text) H') as [r ->].
      eauto. }
  destruct Hs as [[p c] ->]. cbn [mbind result_bind].
  destruct (if Str.is_empty concurrent_text then _ else _). eauto.
Qed.

(** *** The other scenarios of the specification *)

Example scenario_and (fuel : nat) :
  _parse_expression (S fuel) "CSCE 1001 and CSCE 1101"
  = Ret (Some (And [Course "CSCE1001" (Some false) (Some false);
                    Course "CSCE1101" (Some false) (Some false)])).
Proof. vm_compute. reflexivity. Qed.

Example scenario_or (fuel : nat) :
  _parse_expression (S fuel) "CSCE 1001 or CSCE 1101"
  = Ret (Some (Or [Course "CSCE1001" (Some false) (Some false);
                   Course "CSCE1101" (Some false) (Some false)])).
Proof. vm_compute. reflexivity. Qed.

Example scenario_standing_and_concurrent (fuel : nat) :
  parse (S fuel) "Senior standing and concurrent with CSCE 4301" ""
  = Ret (Ast (Some (TextCondition "Senior standing" standing))
             (Some (Concurrent (Course "CSCE4301" None None) ""))
             "Senior standing and concurrent with CSCE 4301" None).
Proof. vm_compute. reflexivity. Qed.

Example scenario_empty (fuel : nat) : parse fuel "" "" = Ret (Ast None None "" None).
Proof. reflexivity. Qed.

Example scenario_three_courses :
  let a := MkCourse (Some "AAAA 1000 - A") None None
             (Some (Ast (Some (Course "BBBB1000" (Some false) (Some false))) None "" None))
             None None in
  let b := MkCourse (Some "BBBB 1000 - B") None None None None None in
  let c := MkCourse (Some "CCCC 1000 - C") None None
             (Some (Ast (Some (Course "BBBB1000" (Some false) (Some false))) None "" None))
             None None in
  is_prerequisite_for_after [c; b; a] b = ["AAAA1000"; "CCCC1000"]
  /\ c_is_prerequisite_for <$> enhance [c; b; a]
     = [Some []; Some ["AAAA1000"; "CCCC1000"]; Some []].
Proof. vm_compute. split; reflexivity. Qed.

(* ===================================================================== *)
(** ** Lemmas on the matcher, the texts and the trees *)
(* ===================================================================== *)

Lemma append_cons x (a b : string) : String x a ++ b = String x (a ++ b).
Proof. reflexivity. Qed.

Lemma append_nil_r s : s ++ "" = s.
Proof. induction s as [|x s IH]; [reflexivity|]. rewrite !append_cons. f_equal. exact IH. Qed.

Lemma append_assoc (a b c : string) : (a ++ b) ++ c = a ++ (b ++ c).
Proof. induction a as [|x a IH]; [reflexivity|]. rewrite !append_cons. f_equal. exact IH. Qed.

Lemma length_append (a b : string) :
  String.length (a ++ b) = String.length a + String.length b.
Proof.
  induction a as [|x a IH]; [reflexivity|]. rewrite !append_cons. cbn [String.length Nat.add].
  f_equal. exact IH.
Qed.

Lemma all_chars_app p a b : all_chars p (a ++ b) = all_chars p a && all_chars p b.
Proof.
  induction a as [|x a IH]; [reflexivity|]. rewrite !append_cons. cbn [all_chars].
  rewrite IH. apply andb_assoc.
Qed.

Lemma reach_refl st : reach "" st st.
Proof. split; [reflexivity|simpl; lia]. Qed.

Lemma reach_trans w1 w2 st1 st2 st3 :
  reach w1 st1 st2 -> reach w2 st2 st3 -> reach (w1 ++ w2) st1 st3.
Proof.
  intros [H1 P1] [H2 P2]. split.
  - rewrite H1, H2, append_assoc. reflexivity.
  - rewrite P2, P1, length_append. lia.
Qed.

(** What a successful repetition consumed. *)
Lemma rep_inv ic g c k res s : forall lo hi prev pos caps,
  rep ic g c lo hi prev s pos caps k = Some res ->
  exists w st',
    reach w (MState prev s pos caps) st'
    /\ all_chars (in_cls ic c) w = true
    /\ lo <= String.length w
    /\ (forall h, hi = Some h -> String.length w <= h)
    /\ ms_caps st' = caps
    /\ k st' = Some res.
Proof.
  induction s as [|x s IH]; intros lo hi prev pos caps H.
  - cbn [rep] in H.
    assert (Hk : lo = 0 /\ k (MState prev "" pos caps) = Some res).
    { destruct lo; [|discriminate]. split; [reflexivity|].
      destruct g; [exact H|]. destruct (k _); [exact H|discriminate]. }
    destruct Hk as [-> Hk]. exists "", (MState prev "" pos caps).
    split; [apply reach_refl|]. repeat split; try reflexivity; try exact Hk.
    intros h _. simpl. lia.
  - cbn [rep] in H.
    assert (Hcases :
      (lo = 0 /\ k (MState prev (String x s) pos caps) = Some res)
      \/ (in_cls ic c x = true /\ hi_allows hi = true
          /\ rep ic g c (Nat.pred lo) (hi_pred hi) (Some x) s (S pos) caps k = Some res)).
    { destruct (in_cls ic c x && hi_allows hi) eqn:E.
      - apply andb_true_iff in E as [E1 E2].
        destruct lo as [|lo]; [|right; auto].
        destruct g.
        + destruct (rep ic true c _ _ _ s _ _ k) eqn:Er.
          * right. injection H as <-. auto.
          * left. auto.
        + destruct (k (MState prev (String x s) pos caps)) eqn:Ek.
          * left. injection H as <-. auto.
          * right. auto.
      - destruct lo as [|lo]; [|discriminate]. left. split; [reflexivity|].
        destruct g; [exact H|]. destruct (k _); [exact H|discriminate]. }
    destruct Hcases as [[-> Hk]|(Hx & Hhi & Hrec)].
    + exists "", (MState prev (String x s) pos caps).
      split; [apply reach_refl|]. repeat split; try reflexivity; try exact Hk.
      intros h _. simpl. lia.
    + destruct (IH _ _ _ _ _ Hrec) as (w & st' & [Hr Hp] & Hall & Hlo & Hh & Hcaps & Hk).
      exists (String x w), st'. cbn [ms_rest ms_pos] in *.
      split; [split|].
      * simpl. rewrite Hr. reflexivity.
      * rewrite Hp. simpl. lia.
      * repeat split.
        -- simpl. rewrite Hx, Hall. reflexivity.
        -- simpl. lia.
        -- intros h ->. simpl in Hhi. destruct h as [|h]; [discriminate|].
           specialize (Hh h eq_refl). simpl. lia.
        -- exact Hcaps.
        -- exact Hk.
Qed.

(** Whatever a pattern matches, the rest of the match starts further on
    in the same text. *)
Lemma rmatch_reach ic r : forall st k res,
  rmatch ic r st k = Some res ->
  exists w st', reach w st st' /\ k st' = Some res.
Proof.
  induction r as [|c|g lo hi c|r1 IH1 r2 IH2|r1 IH1 r2 IH2|n r IH| | |];
    intros st k res H; cbn [rmatch] in H.
  - exists "", st. split; [apply reach_refl|exact H].
  - destruct (ms_rest st) as [|x s] eqn:E; [discriminate|].
    destruct (in_cls ic c x); [|discriminate].
    eexists (String x ""), _. split; [|exact H]. split; cbn [ms_rest ms_pos].
    + rewrite E. reflexivity.
    + simpl. lia.
  - destruct (rep_inv _ _ _ _ _ _ _ _ _ _ _ H) as (w & st' & Hr & _ & _ & _ & _ & Hk).
    exists w, st'. split; [|exact Hk]. destruct st; exact Hr.
  - destruct (IH1 _ _ _ H) as (w1 & st1 & Hr1 & H1).
    destruct (IH2 _ _ _ H1) as (w2 & st2 & Hr2 & H2).
    exists (w1 ++ w2), st2. split; [eapply reach_trans; eassumption|exact H2].
  - destruct (rmatch ic r1 st k) eqn:E1.
    + injection H as <-. apply IH1, E1.
    + apply IH2, H.
  - destruct (IH _ _ _ H) as (w & st' & [Hr Hp] & Hk).
    eexists w, _. split; [|exact Hk]. split; cbn [ms_rest ms_pos]; assumption.
  - destruct (Nat.eqb _ _); [|discriminate]. exists "", st. split; [apply reach_refl|exact H].
  - destruct (at_eol st); [|discriminate]. exists "", st. split; [apply reach_refl|exact H].
  - destruct (at_word_boundary st); [|discriminate].
    exists "", st. split; [apply reach_refl|exact H].
Qed.

Lemma drop_app_length (w s : string) : Str.drop (String.length w) (w ++ s) = s.
Proof.
  induction w as [|x w IH]; [destruct s; reflexivity|]. rewrite !append_cons. exact IH.
Qed.

Lemma take_app_length (w s : string) : Str.take (String.length w) (w ++ s) = w.
Proof.
  induction w as [|x w IH]; [reflexivity|]. rewrite !append_cons. cbn [String.length Str.take].
  f_equal. exact IH.
Qed.

Lemma drop_drop n : forall m s, Str.drop n (Str.drop m s) = Str.drop (m + n) s.
Proof.
  intros m. induction m as [|m IH]; intros s; simpl.
  - destruct s; reflexivity.
  - destruct s as [|x s]; [destruct n; reflexivity|]. apply IH.
Qed.

(** A match found by [match_here] at a position of [text] is a slice of
    [text]. *)
Lemma match_here_slice ic r text prev s pos m :
  coherent text (MState prev s pos []) ->
  match_here ic r prev s pos = Some m ->
  m_start m = pos /\ exists w, s = w ++ Str.drop (m_end m) text
                              /\ m_end m = pos + String.length w
                              /\ group0 text m = w.
Proof.
  intros Hco H. unfold match_here in H.
  destruct (rmatch ic r _ Some) as [st|] eqn:E; [|discriminate]. injection H as <-.
  destruct (rmatch_reach _ _ _ _ _ E) as (w & st' & [Hr Hp] & [= ->]).
  cbn [ms_rest ms_pos m_start m_end] in *. split; [reflexivity|].
  assert (Hrest : ms_rest st = Str.drop (ms_pos st) text).
  { unfold coherent in Hco. cbn [ms_rest ms_pos] in Hco.
    rewrite Hp, <- drop_drop, <- Hco, Hr. apply eq_sym, drop_app_length. }
  exists w. split; [rewrite <- Hrest; exact Hr|]. split; [exact Hp|].
  unfold group0, Str.slice. cbn [m_start m_end].
  unfold coherent in Hco. cbn [ms_rest ms_pos] in Hco. rewrite <- Hco, Hr, Hp.
  replace (pos + String.length w - pos) with (String.length w) by lia.
  apply take_app_length.
Qed.

(** The match that [scan] finds starts at a position of the text. *)
Lemma scan_inv ic r text s : forall prev pos m,
  coherent text (MState prev s pos []) ->
  scan ic r prev s pos = Some m ->
  exists prev' pos',
    pos <= pos' /\ coherent text (MState prev' (Str.drop pos' text) pos' [])
    /\ match_here ic r prev' (Str.drop pos' text) pos' = Some m.
Proof.
  induction s as [|x s IH]; intros prev pos m Hco H; cbn [scan] in H.
  - destruct (match_here ic r prev "" pos) eqn:E; [|discriminate]. injection H as <-.
    exists prev, pos. unfold coherent in Hco. cbn [ms_rest ms_pos] in Hco.
    rewrite <- Hco. split; [lia|]. split; [exact Hco|exact E].
  - destruct (match_here ic r prev (String x s) pos) eqn:E.
    + injection H as <-. exists prev, pos.
      unfold coherent in Hco. cbn [ms_rest ms_pos] in Hco. rewrite <- Hco.
      split; [lia|]. split; [exact Hco|exact E].
    + destruct (IH (Some x) (S pos) m (coherent_step _ _ _ _ _ _ _ _ Hco) H)
        as (prev' & pos' & Hle & Hco' & Hm).
      exists prev', pos'. split; [lia|]. split; assumption.
Qed.

Lemma reach_coherent text w st st' :
  coherent text st -> reach w st st' ->
  coherent text st' /\ Str.slice (ms_pos st) (ms_pos st') text = w.
Proof.
  unfold coherent. intros Hco [Hr Hp]. split.
  - rewrite Hp, <- drop_drop, <- Hco, Hr. apply eq_sym, drop_app_length.
  - unfold Str.slice. rewrite <- Hco, Hr, Hp.
    replace (ms_pos st + String.length w - ms_pos st) with (String.length w) by lia.
    apply take_app_length.
Qed.

Lemma in_cls_upper ic x : ic = false -> in_cls ic (CRange "A" "Z") x = is_upper x.
Proof. intros ->. cbn [in_cls]. rewrite andb_false_l, orb_false_r. reflexivity. Qed.

Lemma all_chars_ext p q s : (forall x, p x = q x) -> all_chars p s = all_chars q s.
Proof. intros H. induction s as [|x s IH]; simpl; [reflexivity|]. rewrite H, IH. reflexivity. Qed.

(** The shape of a match of the title pattern. *)
Lemma title_match_inv text prev pos m :
  match_here false TITLE_PATTERN prev (Str.drop pos text) pos = Some m ->
  exists letters gap digits,
    group 1 text m = letters /\ group 2 text m = digits
    /\ group0 text m = letters ++ gap ++ digits
    /\ String.length letters = 4 /\ all_chars is_upper letters = true
    /\ all_chars Chars.is_space gap = true
    /\ String.length digits = 4 /\ all_chars Chars.is_digit digits = true.
Proof.
  unfold match_here. intros H.
  destruct (rmatch false TITLE_PATTERN _ Some) as [st|] eqn:E; [|discriminate].
  injection H as <-.
  change TITLE_PATTERN
    with (Seq (Grp 1 (times 4 (CRange "A" "Z")))
              (Seq (star CSpace) (Grp 2 (times 4 CDigit)))) in E.
  unfold times, star in E. cbn [rmatch ms_prev ms_rest ms_pos ms_caps] in E.
  apply rep_inv in E as (w1 & st1 & Hr1 & Hall1 & Hlo1 & Hhi1 & Hcaps1 & E).
  specialize (Hhi1 4 eq_refl).
  apply rep_inv in E as (w2 & st2 & Hr2 & Hall2 & _ & _ & Hcaps2 & E).
  apply rep_inv in E as (w3 & st3 & Hr3 & Hall3 & Hlo3 & Hhi3 & Hcaps3 & E).
  specialize (Hhi3 4 eq_refl). injection E as <-.
  cbn [ms_caps] in Hcaps2, Hcaps3.
  assert (Hco0 : coherent text (MState prev (Str.drop pos text) pos [])) by reflexivity.
  destruct (reach_coherent text _ _ _ Hco0 Hr1) as [Hco1 Hs1].
  set (st1' := MState (ms_prev st1) (ms_rest st1) (ms_pos st1)
                      [(1, (pos, ms_pos st1))]) in *.
  assert (Hco1' : coherent text st1') by exact Hco1.
  destruct (reach_coherent text _ _ _ Hco1' Hr2) as [Hco2 Hs2].
  set (st2' := MState (ms_prev st2) (ms_rest st2) (ms_pos st2) (ms_caps st2)) in *.
  assert (Hco2' : coherent text st2') by exact Hco2.
  destruct (reach_coherent text _ _ _ Hco2' Hr3) as [Hco3 Hs3].
  cbn [ms_pos] in Hs1, Hs2, Hs3.
  exists w1, w2, w3. split; [|split; [|split]].
  - unfold group. cbn [m_caps]. rewrite Hcaps3, Hcaps2. cbn [cap_lookup Nat.eqb].
    exact Hs1.
  - unfold group. cbn [m_caps cap_lookup Nat.eqb]. exact Hs3.
  - unfold group0. cbn [m_start m_end].
    pose proof (reach_trans _ _ _ _ _ Hr1 (reach_trans _ _ _ _ _ Hr2 Hr3)) as Hr.
    assert (Hr' : reach (w1 ++ w2 ++ w3) (MState prev (Str.drop pos text) pos []) st3).
    { destruct Hr as [Ha Hb]. split; [exact Ha|exact Hb]. }
    exact (proj2 (reach_coherent text _ _ _ Hco0 Hr')).
  - repeat split; try lia.
    + rewrite (all_chars_ext _ (in_cls false (CRange "A" "Z"))); [exact Hall1|].
      intros x. symmetry. apply in_cls_upper. reflexivity.
    + exact Hall2.
    + exact Hall3.
Qed.

Lemma take_app_exact (a b : string) n :
  String.length a = n -> Str.take n (a ++ b) = a.
Proof. intros <-. apply take_app_length. Qed.

Lemma drop_app_exact (a b : string) n :
  String.length a = n -> Str.drop n (a ++ b) = b.
Proof. intros <-. apply drop_app_length. Qed.

Lemma join_key_ok_intro letters digits :
  String.length letters = 4 -> all_chars is_upper letters = true ->
  String.length digits = 4 -> all_chars Chars.is_digit digits = true ->
  join_key_ok (letters ++ digits) = true.
Proof.
  intros Hl Hu Hd Hdig. unfold join_key_ok.
  rewrite length_append, Hl, Hd, (take_app_exact _ _ 4 Hl), (drop_app_exact _ _ 4 Hl), Hu, Hdig.
  reflexivity.
Qed.

Lemma extract_course_code_shape (title : string) :
  extract_course_code_from_title title = ""
  \/ join_key_ok (extract_course_code_from_title title) = true.
Proof.
  unfold extract_course_code_from_title, search.
  destruct (scan false TITLE_PATTERN None title 0) as [m|] eqn:E; [|left; reflexivity].
  right. apply (scan_inv _ _ title) in E as (prev & pos & _ & _ & Hm); [|reflexivity].
  apply title_match_inv in Hm
    as (letters & gap & digits & -> & -> & _ & Hl & Hu & _ & Hd & Hdig).
  apply join_key_ok_intro; assumption.
Qed.

Lemma rep_exact ic c k w : forall n s prev pos caps,
  String.length w = n ->
  all_chars (in_cls ic c) w = true ->
  rep ic true c n (Some n) prev (w ++ s) pos caps k
  = k (MState (prev_after prev w) s (pos + n) caps).
Proof.
  induction w as [|y w IH]; intros n s prev pos caps Hn Hall; simpl in Hn; subst n.
  - rewrite Nat.add_0_r. cbn [prev_after]. change ("" ++ s) with s.
    destruct s as [|x s]; cbn [rep]; [reflexivity|].
    cbn [hi_allows]. rewrite andb_false_r. reflexivity.
  - rewrite append_cons. cbn [rep hi_allows hi_pred Nat.pred prev_after].
    cbn [all_chars] in Hall. apply andb_true_iff in Hall as [Hy Hall].
    rewrite Hy. cbn [andb]. rewrite (IH (String.length w)); [|reflexivity|exact Hall].
    f_equal. f_equal. lia.
Qed.

Lemma rep_greedy_reject_ic ic c k (Hk : rejects_head (in_cls ic c) k) s :
  forall lo prev pos caps,
    rep ic true c lo None prev s pos caps k =
      if Nat.leb lo (run_length (in_cls ic c) s)
      then k (skip_run (in_cls ic c) prev s pos caps)
      else None.
Proof.
  induction s as [|x s' IH]; intros lo prev pos caps; simpl.
  - destruct lo; reflexivity.
  - destruct (in_cls ic c x) eqn:Ex; simpl.
    + rewrite IH. destruct lo as [|lo]; simpl.
      * rewrite (Hk prev x s' pos caps Ex).
        destruct (k (skip_run _ _ _ _ _)); reflexivity.
      * reflexivity.
    + destruct lo; reflexivity.
Qed.

Lemma skip_run_app p ws : forall s prev pos caps,
  all_chars p ws = true -> head_fails p s ->
  skip_run p prev (ws ++ s) pos caps
  = MState (prev_after prev ws) s (pos + String.length ws) caps.
Proof.
  induction ws as [|y ws IH]; intros s prev pos caps Hall Hs.
  - change ("" ++ s) with s. cbn [prev_after String.length]. rewrite Nat.add_0_r.
    destruct s as [|x s]; [reflexivity|]. cbn [skip_run]. simpl in Hs. rewrite Hs. reflexivity.
  - rewrite append_cons. cbn [skip_run prev_after String.length].
    cbn [all_chars] in Hall. apply andb_true_iff in Hall as [Hy Hall]. rewrite Hy.
    rewrite IH by assumption. f_equal. lia.
Qed.

Lemma digit_not_space x : Chars.is_digit x = true -> Chars.is_space x = false.
Proof. destruct x as [[] [] [] [] [] [] [] []]; vm_compute; congruence. Qed.

Lemma space_not_digit x : Chars.is_space x = true -> Chars.is_digit x = false.
Proof. destruct x as [[] [] [] [] [] [] [] []]; vm_compute; congruence. Qed.

Lemma head_fails_digits digits rest :
  String.length digits = 4 -> all_chars Chars.is_digit digits = true ->
  head_fails Chars.is_space (digits ++ rest).
Proof.
  destruct digits as [|x d]; [discriminate|]. intros _ H. rewrite append_cons. simpl.
  cbn [all_chars] in H. apply andb_true_iff in H as [H _]. apply digit_not_space, H.
Qed.

Lemma extract_course_code_of_leading_code letters gap digits rest :
  String.length letters = 4 -> all_chars is_upper letters = true ->
  all_chars Chars.is_space gap = true ->
  String.length digits = 4 -> all_chars Chars.is_digit digits = true ->
  extract_course_code_from_title (letters ++ gap ++ digits ++ rest) = letters ++ digits.
Proof.
  intros Hl Hu Hg Hd Hdig.
  unfold extract_course_code_from_title, search.
  set (title := letters ++ gap ++ digits ++ rest).
  assert (Hm : match_here false TITLE_PATTERN None title 0
               = Some (MatchObj 0 (4 + String.length gap + 4)
                         [(2, (4 + String.length gap, 4 + String.length gap + 4));
                          (1, (0, 4))])).
  { unfold match_here.
    change TITLE_PATTERN
      with (Seq (Grp 1 (times 4 (CRange "A" "Z")))
                (Seq (star CSpace) (Grp 2 (times 4 CDigit)))).
    unfold times, star, title. cbn [rmatch ms_prev ms_rest ms_pos ms_caps].
    rewrite (rep_exact false (CRange "A" "Z") _ letters 4); [|exact Hl|].
    2:{ rewrite (all_chars_ext _ is_upper); [exact Hu|].
        intros x. apply in_cls_upper. reflexivity. }
    cbn [ms_prev ms_rest ms_pos ms_caps Nat.add].
    rewrite rep_greedy_reject_ic.
    2:{ intros prev x s pos caps Hx. cbn [rmatch ms_prev ms_rest ms_pos ms_caps rep in_cls].
        cbn [in_cls] in Hx. rewrite (space_not_digit x Hx). reflexivity. }
    cbn [Nat.leb].
    change (in_cls false CSpace) with Chars.is_space.
    rewrite skip_run_app; [|exact Hg|apply head_fails_digits; assumption].
    cbn [rmatch ms_prev ms_rest ms_pos ms_caps].
    rewrite (rep_exact false CDigit _ digits 4); [|exact Hd|exact Hdig].
    reflexivity. }
  assert (Hscan : scan false TITLE_PATTERN None title 0
                  = Some (MatchObj 0 (4 + String.length gap + 4)
                            [(2, (4 + String.length gap, 4 + String.length gap + 4));
                             (1, (0, 4))])).
  { destruct title; cbn [scan]; rewrite Hm; reflexivity. }
  rewrite Hscan. unfold group. cbn [m_caps cap_lookup Nat.eqb]. unfold Str.slice.
  f_equal.
  - cbn [Nat.sub Str.drop]. unfold title.
    replace (Str.drop 0 (letters ++ gap ++ digits ++ rest))
      with (letters ++ gap ++ digits ++ rest) by (destruct (letters ++ _); reflexivity).
    apply take_app_exact, Hl.
  - replace (4 + String.length gap + 4 - (4 + String.length gap)) with 4 by lia.
    unfold title. rewrite <- (drop_drop (String.length gap) 4).
    rewrite (drop_app_exact letters _ 4 Hl), drop_app_length.
    apply take_app_exact, Hd.
Qed.

Lemma course_match_inv text prev pos m :
  match_here false COURSE_PATTERN prev (Str.drop pos text) pos = Some m ->
  exists letters gap digits,
    group0 text m = letters ++ gap ++ digits
    /\ String.length letters = 4 /\ all_chars is_upper letters = true
    /\ all_chars Chars.is_space gap = true
    /\ String.length digits = 4 /\ all_chars Chars.is_digit digits = true.
Proof.
  unfold match_here. intros H.
  destruct (rmatch false COURSE_PATTERN _ Some) as [st|] eqn:E; [|discriminate].
  injection H as <-.
  change COURSE_PATTERN
    with (Seq WordB (Seq (times 4 (CRange "A" "Z"))
                         (Seq (star CSpace) (Seq (times 4 CDigit) WordB)))) in E.
  unfold times, star in E. cbn [rmatch ms_prev ms_rest ms_pos ms_caps] in E.
  destruct (at_word_boundary _); [|discriminate].
  apply rep_inv in E as (w1 & st1 & Hr1 & Hall1 & Hlo1 & Hhi1 & _ & E).
  specialize (Hhi1 4 eq_refl).
  apply rep_inv in E as (w2 & st2 & Hr2 & Hall2 & _ & _ & _ & E).
  apply rep_inv in E as (w3 & st3 & Hr3 & Hall3 & Hlo3 & Hhi3 & _ & E).
  specialize (Hhi3 4 eq_refl).
  destruct (at_word_boundary st3); [|discriminate]. injection E as <-.
  assert (Hco0 : coherent text (MState prev (Str.drop pos text) pos [])) by reflexivity.
  exists w1, w2, w3. split.
  - unfold group0. cbn [m_start m_end].
    assert (Hr1' : reach w1 (MState prev (Str.drop pos text) pos []) st1) by exact Hr1.
    assert (Hr2' : reach w2 st1 st2) by (destruct st1; exact Hr2).
    assert (Hr3' : reach w3 st2 st3) by (destruct st2; exact Hr3).
    pose proof (reach_trans _ _ _ _ _ Hr1' (reach_trans _ _ _ _ _ Hr2' Hr3')) as Hr.
    exact (proj2 (reach_coherent text _ _ _ Hco0 Hr)).
  - repeat split; try lia.
    + rewrite (all_chars_ext _ (in_cls false (CRange "A" "Z"))); [exact Hall1|].
      intros x. symmetry. apply in_cls_upper. reflexivity.
    + exact Hall2.
    + exact Hall3.
Qed.

Lemma replace_go_space fuel : forall s,
  String.length s <= fuel -> Str.replace_go fuel " " "" s = remove_char " " s.
Proof.
  induction fuel as [|fuel IH]; intros s Hlen.
  - destruct s; [reflexivity|simpl in Hlen; lia].
  - destruct s as [|x s]; [reflexivity|]. simpl in Hlen.
    cbn [Str.replace_go remove_char String.prefix].
    destruct (ascii_dec " " x) as [<-|Hne].
    + rewrite prefix_nil. cbn [Ascii.eqb Bool.eqb]. cbn [String.length Str.drop].
      change ("" ++ Str.replace_go fuel " " "" (Str.drop 0 s))
        with (Str.replace_go fuel " " "" (Str.drop 0 s)).
      replace (Str.drop 0 s) with s by (destruct s; reflexivity).
      apply IH. lia.
    + assert (Ascii.eqb x " " = false) as ->.
      { apply Ascii.eqb_neq. congruence. }
      f_equal. apply IH. lia.
Qed.

Lemma replace_space s : Str.replace " " "" s = remove_char " " s.
Proof. apply replace_go_space. lia. Qed.

Lemma remove_char_app c (a b : string) :
  remove_char c (a ++ b) = remove_char c a ++ remove_char c b.
Proof.
  induction a as [|x a IH]; [reflexivity|]. rewrite append_cons. cbn [remove_char].
  destruct (Ascii.eqb x c); [exact IH|]. rewrite append_cons, IH. reflexivity.
Qed.

Lemma remove_char_id c p s :
  p c = false -> all_chars p s = true -> remove_char c s = s.
Proof.
  intros Hc. induction s as [|x s IH]; [reflexivity|]. cbn [all_chars remove_char].
  intros [Hx Hs]%andb_true_iff.
  destruct (Ascii.eqb x c) eqn:E; [apply Ascii.eqb_eq in E; congruence|].
  rewrite IH by exact Hs. reflexivity.
Qed.

Lemma remove_space_gap s :
  all_chars Chars.is_space s = true -> all_chars is_gap (remove_char " " s) = true.
Proof.
  induction s as [|x s IH]; [reflexivity|]. cbn [all_chars remove_char].
  intros [Hx Hs]%andb_true_iff. destruct (Ascii.eqb x " ") eqn:E; [apply IH, Hs|].
  cbn [all_chars]. unfold is_gap at 1. rewrite Hx, E, (IH Hs). reflexivity.
Qed.

Lemma course_code_ok_intro letters gap digits :
  String.length letters = 4 -> all_chars is_upper letters = true ->
  all_chars is_gap gap = true ->
  String.length digits = 4 -> all_chars Chars.is_digit digits = true ->
  course_code_ok (letters ++ gap ++ digits) = true.
Proof.
  intros Hl Hu Hg Hd Hdig. unfold course_code_ok. cbv zeta.
  rewrite !length_append, Hl, Hd.
  replace (4 + (String.length gap + 4) - 4) with (4 + String.length gap) by lia.
  rewrite (take_app_exact _ _ 4 Hl), Hu.
  unfold Str.slice. rewrite (drop_app_exact _ _ 4 Hl).
  replace (4 + String.length gap - 4) with (String.length gap) by lia.
  rewrite take_app_length, Hg.
  rewrite <- (drop_drop (String.length gap) 4), (drop_app_exact _ _ 4 Hl), drop_app_length, Hdig.
  replace (Nat.leb 8 (4 + (String.length gap + 4))) with true; [reflexivity|].
  symmetry. apply Nat.leb_le. lia.
Qed.

Lemma matched_code_ok text prev pos m :
  match_here false COURSE_PATTERN prev (Str.drop pos text) pos = Some m ->
  course_code_ok (Str.replace " " "" (group0 text m)) = true.
Proof.
  intros H. apply course_match_inv in H
    as (letters & gap & digits & -> & Hl & Hu & Hg & Hd & Hdig).
  rewrite replace_space, !remove_char_app.
  rewrite (remove_char_id " " is_upper letters eq_refl Hu).
  rewrite (remove_char_id " " Chars.is_digit digits eq_refl Hdig).
  apply course_code_ok_intro; try assumption. apply remove_space_gap, Hg.
Qed.

Lemma parse_atomic_course_code_ok text code ic io :
  _parse_atomic text = Some (Course code ic io) -> course_code_ok code = true.
Proof.
  unfold _parse_atomic. destruct (Str.is_empty text); [discriminate|].
  destruct (match search true OR_CONCURRENT_PATTERN _ with
            | Some _ => _ | None => _ end) as [b t'].
  destruct (search false COURSE_PATTERN t') as [m|] eqn:E.
  - intros [= <- _ _]. unfold search in E.
    apply (scan_inv _ _ t') in E as (prev & pos & _ & _ & Hm); [|reflexivity].
    eapply matched_code_ok, Hm.
  - destruct (_ || _); discriminate.
Qed.

(** Every match of [finditer] is a match at a position of the text. *)
Lemma finditer_from_inv ic r text fuel : forall pos m,
  m ∈ finditer_from fuel ic r text pos ->
  exists prev' pos', match_here ic r prev' (Str.drop pos' text) pos' = Some m.
Proof.
  induction fuel as [|fuel IH]; intros pos m Hm; cbn [finditer_from] in Hm.
  - inversion Hm.
  - destruct (scan ic r (prev_at text pos) (Str.drop pos text) pos) as [m0|] eqn:E;
      [|inversion Hm].
    assert (Hm0 : exists prev' pos', match_here ic r prev' (Str.drop pos' text) pos' = Some m0).
    { apply (scan_inv _ _ text) in E as (prev' & pos' & _ & _ & H); [eauto|reflexivity]. }
    destruct (Nat.leb _ _).
    + apply elem_of_cons in Hm as [->|Hm]; [exact Hm0|]. eapply IH, Hm.
    + apply list_elem_of_singleton in Hm. subst m. exact Hm0.
Qed.

Lemma findall_course_code_ok text c :
  c ∈ findall false COURSE_PATTERN text ->
  course_code_ok (Str.replace " " "" c) = true.
Proof.
  unfold findall, finditer. intros (m & -> & Hm)%list_elem_of_fmap.
  apply finditer_from_inv in Hm as (prev & pos & Hm). eapply matched_code_ok, Hm.
Qed.

Lemma has_char_app c (a b : string) :
  Str.has_char c (a ++ b) = Str.has_char c a || Str.has_char c b.
Proof.
  induction a as [|x a IH]; [reflexivity|]. rewrite append_cons. cbn [Str.has_char].
  rewrite IH. apply orb_assoc.
Qed.

Lemma has_char_slice c i j s :
  Str.has_char c s = false -> Str.has_char c (Str.slice i j s) = false.
Proof. intros H. apply has_char_take, has_char_drop, H. Qed.

Lemma has_char_strip c s :
  Str.has_char c s = false -> Str.has_char c (Str.strip s) = false.
Proof. apply has_char_strip_by. Qed.

Lemma has_char_split_go c text ms : forall pos,
  Str.has_char c text = false ->
  Forall (fun piece => Str.has_char c piece = false) (split_go text ms pos).
Proof.
  induction ms as [|m ms IH]; intros pos H; cbn [split_go].
  - constructor; [apply has_char_drop, H|constructor].
  - constructor; [apply has_char_slice, H|apply IH, H].
Qed.

Lemma has_char_sub_go c repl text ms : forall pos,
  Str.has_char c text = false -> Str.has_char c repl = false ->
  Str.has_char c (snd (sub_go (fun (_ : unit) _ => (tt, repl)) text ms pos tt)) = false.
Proof.
  induction ms as [|m ms IH]; intros pos H Hr; cbn [sub_go].
  - apply has_char_drop, H.
  - specialize (IH (m_end m) H Hr).
    destruct (sub_go _ text ms (m_end m) tt) as [a tail]. cbn [snd] in *.
    rewrite !has_char_app, (has_char_slice c _ _ _ H), Hr, IH. reflexivity.
Qed.

Lemma has_char_sub c ic r repl text :
  Str.has_char c text = false -> Str.has_char c repl = false ->
  Str.has_char c (sub ic r repl text) = false.
Proof. intros H Hr. unfold sub, sub_fn. apply has_char_sub_go; assumption. Qed.

Lemma has_char_replace_go c old new fuel : forall s,
  Str.has_char c s = false -> Str.has_char c new = false ->
  Str.has_char c (Str.replace_go fuel old new s) = false.
Proof.
  induction fuel as [|fuel IH]; intros s H Hn; cbn [Str.replace_go]; [exact H|].
  destruct s as [|x s]; [reflexivity|].
  destruct (String.prefix old (String x s)).
  - rewrite has_char_app, Hn. apply IH; [apply has_char_drop, H|exact Hn].
  - cbn [Str.has_char] in *. apply orb_false_iff in H as [Hx H].
    rewrite Hx. apply IH; assumption.
Qed.

Lemma has_char_split_on_and c text :
  Str.has_char c "~~~CONCURRENT~~~and concurrent" = false ->
  Str.has_char c text = false ->
  Forall (fun piece => Str.has_char c piece = false) (_split_on_and text).
Proof.
  intros Hc H. unfold _split_on_and.
  assert (Hc1 : Str.has_char c "~~~CONCURRENT~~~" = false).
  { change "~~~CONCURRENT~~~and concurrent"
      with ("~~~CONCURRENT~~~" ++ "and concurrent") in Hc.
    rewrite has_char_app in Hc. apply orb_false_iff in Hc as [Hc _]. exact Hc. }
  assert (Hc2 : Str.has_char c "and concurrent" = false).
  { change "~~~CONCURRENT~~~and concurrent"
      with ("~~~CONCURRENT~~~" ++ "and concurrent") in Hc.
    rewrite has_char_app in Hc. apply orb_false_iff in Hc as [_ Hc]. exact Hc. }
  apply Forall_fmap. unfold split.
  eapply Forall_impl; [apply has_char_split_go, has_char_sub; [exact H|exact Hc1]|].
  intros piece Hp. cbn. unfold Str.replace. apply has_char_replace_go; assumption.
Qed.

Lemma no_group_chars_cases t :
  no_group_chars t = true <-> Str.has_char "(" t = false \/ Str.has_char ")" t = false.
Proof.
  unfold no_group_chars. rewrite negb_true_iff, andb_false_iff. reflexivity.
Qed.

Lemma no_group_chars_split_on_and t piece :
  no_group_chars t = true -> piece ∈ _split_on_and t ->
  no_group_chars (Str.strip piece) = true.
Proof.
  rewrite !no_group_chars_cases. intros [H|H] Hin.
  - left. apply has_char_strip.
    pose proof (has_char_split_on_and "(" t eq_refl H) as HF.
    rewrite Forall_forall in HF. apply HF, Hin.
  - right. apply has_char_strip.
    pose proof (has_char_split_on_and ")" t eq_refl H) as HF.
    rewrite Forall_forall in HF. apply HF, Hin.
Qed.

Lemma no_group_chars_split_or t piece :
  no_group_chars t = true -> piece ∈ split true OR_SPLIT t ->
  no_group_chars (Str.strip piece) = true.
Proof.
  rewrite !no_group_chars_cases. intros [H|H] Hin.
  - left. apply has_char_strip.
    pose proof (has_char_split_go "(" t (finditer true OR_SPLIT t) 0 H) as HF.
    rewrite Forall_forall in HF. apply HF, Hin.
  - right. apply has_char_strip.
    pose proof (has_char_split_go ")" t (finditer true OR_SPLIT t) 0 H) as HF.
    rewrite Forall_forall in HF. apply HF, Hin.
Qed.

Section leaves.
Variable P : node -> bool.
Hypothesis atomic_ok :
  forall t n, no_group_chars t = true -> _parse_atomic t = Some n -> P n = true.

Lemma parse_atomic_is_leaf t n :
  _parse_atomic t = Some n -> leaves_ok P n = P n.
Proof.
  unfold _parse_atomic. destruct (Str.is_empty t); [discriminate|].
  destruct (match search true OR_CONCURRENT_PATTERN _ with
            | Some _ => _ | None => _ end) as [b t'].
  destruct (search false COURSE_PATTERN t').
  - intros [= <-]. reflexivity.
  - destruct (_ || _); [|discriminate]. intros [= <-]. reflexivity.
Qed.

Lemma forallb_omap_in {A} (f : A -> option node) (Q : node -> bool) (l : list A) :
  (forall x n, x ∈ l -> f x = Some n -> Q n = true) ->
  forallb Q (omap f l) = true.
Proof.
  induction l as [|x l IH]; intros Hf; [reflexivity|]. cbn [omap list_omap].
  destruct (f x) eqn:E.
  - cbn [forallb]. rewrite (Hf x n (list_elem_of_here _ _) E).
    apply IH. intros y m Hy. apply Hf. right. exact Hy.
  - apply IH. intros y m Hy. apply Hf. right. exact Hy.
Qed.

Lemma combine_leaves (mk : list node -> node) children n :
  (forall cs, leaves_ok P (mk cs) = forallb (leaves_ok P) cs) ->
  forallb (leaves_ok P) children = true ->
  combine mk children = Some n -> leaves_ok P n = true.
Proof.
  intros Hmk Hall. destruct children as [|c1 [|c2 cs]]; cbn [combine].
  - discriminate.
  - intros [= <-]. cbn [forallb] in Hall. rewrite andb_true_r in Hall. exact Hall.
  - intros [= <-]. rewrite Hmk. exact Hall.
Qed.

Lemma parse_or_expression_leaves t n :
  no_group_chars t = true ->
  _parse_or_expression t = Some n -> leaves_ok P n = true.
Proof.
  intros Hnp. unfold _parse_or_expression. destruct (Str.is_empty t); [discriminate|].
  assert (Hat : forall m, _parse_atomic t = Some m -> leaves_ok P m = true).
  { intros m Hm. rewrite (parse_atomic_is_leaf _ _ Hm). eapply atomic_ok; eassumption. }
  destruct (Nat.ltb 1 _); [|apply Hat].
  destruct (combine Or _) eqn:E; [|apply Hat].
  intros [= <-]. eapply combine_leaves; [| |exact E]; [reflexivity|].
  apply forallb_omap_in. intros piece m Hin Hm.
  rewrite (parse_atomic_is_leaf _ _ Hm).
  eapply atomic_ok; [|exact Hm]. eapply no_group_chars_split_or; eassumption.
Qed.

Section replace.
Variable pe : string -> result (option node).
Hypothesis pe_ok : forall t r, pe t = Ret r -> leaves_ok_opt P r = true.

Lemma replace_children_leaves (f : node -> result (option node)) cs :
  Forall (fun c => leaves_ok P c = true ->
                   forall r, f c = Ret r -> exists c', r = Some c' /\ leaves_ok P c' = true) cs ->
  forallb (leaves_ok P) cs = true ->
  forall l, replace_children f cs = Ret l -> forallb (leaves_ok P) l = true.
Proof.
  induction 1 as [|c cs Hc _ IH]; cbn [replace_children forallb]; intros Hall l.
  - intros [= <-]. reflexivity.
  - apply andb_true_iff in Hall as [Hc1 Hcs].
    intros H. apply bind_ret in H as (r & Hr & H).
    apply bind_ret in H as (l' & Hl' & H).
    destruct (Hc Hc1 _ Hr) as (c' & -> & Hc').
    injection H as <-. cbn [forallb]. rewrite Hc'. exact (IH Hcs _ Hl').
Qed.

Lemma replace_node_leaves m n :
  leaves_ok P n = true ->
  forall r, replace_node pe m n = Ret r ->
            exists n', r = Some n' /\ leaves_ok P n' = true.
Proof.
  induction n as [code ic io|cs IH|cs IH| |e IH|c note IH|t c] using node_ind';
    intros Hn r; cbn [replace_node].
  - destruct (Str.startswith _ _); [destruct (m !! code) as [g|]|];
      try (intros [= <-]; eexists; split; [reflexivity|exact Hn]).
    intros H. apply bind_ret in H as (g' & Hg & [= <-]).
    eexists. split; [reflexivity|].
    pose proof (pe_ok _ _ Hg) as Hok. destruct g'; [exact Hok|reflexivity].
  - intros H. apply bind_ret in H as (l & Hl & [= <-]).
    eexists. split; [reflexivity|]. cbn [leaves_ok] in *.
    eapply replace_children_leaves; eassumption.
  - intros H. apply bind_ret in H as (l & Hl & [= <-]).
    eexists. split; [reflexivity|]. cbn [leaves_ok] in *.
    eapply replace_children_leaves; eassumption.
  - intros [= <-]. eexists. split; reflexivity.
  - intros H. apply bind_ret in H as (e' & He & [= <-]).
    destruct (IH Hn _ He) as (n' & -> & Hn').
    eexists. split; [reflexivity|exact Hn'].
  - intros [= <-]. eexists. split; [reflexivity|exact Hn].
  - intros [= <-]. eexists. split; [reflexivity|exact Hn].
Qed.

Lemma parse_with_groups_leaves text r :
  _parse_with_groups pe text = Ret r -> leaves_ok_opt P r = true.
Proof.
  unfold _parse_with_groups.
  destruct (sub_fn _ _ _ _ _) as [[counter m] modified].
  intros H. apply bind_ret in H as (res & Hres & H).
  pose proof (pe_ok _ _ Hres) as Hok. destruct res as [n|]; cbn [_replace_placeholders] in H.
  - destruct (replace_node_leaves m n Hok _ H) as (n' & -> & Hn'). exact Hn'.
  - injection H as <-. reflexivity.
Qed.
End replace.

Lemma no_group_chars_spec t :
  Str.has_char "(" t && Str.has_char ")" t = false -> no_group_chars t = true.
Proof. unfold no_group_chars. intros ->. reflexivity. Qed.

Lemma parse_expression_leaves fuel : forall text r,
  _parse_expression fuel text = Ret r -> leaves_ok_opt P r = true.
Proof.
  induction fuel as [|fuel IH]; intros text r; cbn [_parse_expression]; [discriminate|].
  destruct (Str.is_empty text); [intros [= <-]; reflexivity|].
  destruct (Str.has_char "(" (normalize text) && Str.has_char ")" (normalize text)) eqn:Hpar.
  - apply parse_with_groups_leaves. exact IH.
  - apply no_group_chars_spec in Hpar.
    assert (Hor : forall r', Ret (_parse_or_expression (normalize text)) = Ret r' ->
                             leaves_ok_opt P r' = true).
    { intros r' [= <-]. destruct (_parse_or_expression _) eqn:E'; [|reflexivity].
      cbn. eapply parse_or_expression_leaves; eassumption. }
    destruct (Nat.ltb 1 _); [|apply Hor].
    destruct (combine And _) eqn:E; [|apply Hor].
    intros [= <-]. cbn. eapply combine_leaves; [| |exact E]; [reflexivity|].
    apply forallb_omap_in. intros piece m Hin Hm.
    eapply parse_or_expression_leaves; [|exact Hm].
    eapply no_group_chars_split_on_and; eassumption.
Qed.
End leaves.

Lemma open_paren_nocase x : Chars.eqb_nocase "(" x = Ascii.eqb x "(".
Proof. destruct x as [[] [] [] [] [] [] [] []]; vm_compute; reflexivity. Qed.

Lemma close_paren_nocase x : Chars.eqb_nocase ")" x = Ascii.eqb x ")".
Proof. destruct x as [[] [] [] [] [] [] [] []]; vm_compute; reflexivity. Qed.

Lemma has_char_reach c w st st' :
  reach w st st' -> Str.has_char c (ms_rest st') = true -> Str.has_char c (ms_rest st) = true.
Proof. intros [-> _] H. rewrite has_char_app, H. apply orb_true_r. Qed.

Lemma has_char_of_drop c n s :
  Str.has_char c (Str.drop n s) = true -> Str.has_char c s = true.
Proof.
  intros H. destruct (Str.has_char c s) eqn:E; [reflexivity|].
  rewrite (has_char_drop c n s E) in H. discriminate.
Qed.

(** The modifier pattern only matches in a text with both parentheses. *)
Lemma or_concurrent_needs_parens t m :
  search true OR_CONCURRENT_PATTERN t = Some m ->
  Str.has_char "(" t = true /\ Str.has_char ")" t = true.
Proof.
  unfold search. intros H.
  apply (scan_inv _ _ t) in H as (prev & pos & _ & _ & H); [|reflexivity].
  unfold match_here in H.
  destruct (rmatch true OR_CONCURRENT_PATTERN _ Some) as [res|] eqn:E; [|discriminate].
  clear H.
  change OR_CONCURRENT_PATTERN
    with (Seq (One (CLit "("))
           (Seq (star CSpace)
             (Seq (lit "or")
               (Seq (plus CSpace)
                 (Seq (lit "concurrent") (Seq (star CSpace) (One (CLit ")")))))))) in E.
  cbn [rmatch ms_rest ms_prev ms_pos ms_caps] in E.
  destruct (Str.drop pos t) as [|x s] eqn:Edrop; [discriminate|].
  cbn [in_cls] in E. rewrite open_paren_nocase in E.
  destruct (Ascii.eqb x "(") eqn:Ex; [|discriminate]. apply Ascii.eqb_eq in Ex. subst x.
  split.
  - apply (has_char_of_drop _ pos). rewrite Edrop. reflexivity.
  - apply (has_char_of_drop _ pos). rewrite Edrop. cbn [Str.has_char].
    apply orb_true_iff. right.
    unfold star, plus in E. cbn [rmatch ms_rest ms_prev ms_pos ms_caps] in E.
    apply rep_inv in E as (w1 & st1 & Hr1 & _ & _ & _ & _ & E).
    apply rmatch_reach in E as (w2 & st2 & Hr2 & E).
    cbn [rmatch] in E.
    apply rep_inv in E as (w3 & st3 & Hr3 & _ & _ & _ & _ & E).
    apply rmatch_reach in E as (w4 & st4 & Hr4 & E).
    cbn [rmatch] in E.
    apply rep_inv in E as (w5 & st5 & Hr5 & _ & _ & _ & _ & E).
    cbn [rmatch] in E.
    destruct (ms_rest st5) as [|y s5] eqn:E5; [discriminate|].
    cbn [in_cls] in E. rewrite close_paren_nocase in E.
    destruct (Ascii.eqb y ")") eqn:Ey; [|discriminate]. apply Ascii.eqb_eq in Ey. subst y.
    assert (H5 : Str.has_char ")" (ms_rest st5) = true) by (rewrite E5; reflexivity).
    assert (Hr5' : reach w5 st4 st5) by (destruct st4; exact Hr5).
    assert (Hr3' : reach w3 st2 st3) by (destruct st2; exact Hr3).
    pose proof (has_char_reach _ _ _ _ Hr5' H5) as H4.
    pose proof (has_char_reach _ _ _ _ Hr4 H4) as H3.
    pose proof (has_char_reach _ _ _ _ Hr3' H3) as H2.
    pose proof (has_char_reach _ _ _ _ Hr2 H2) as H1.
    exact (has_char_reach _ _ _ _ Hr1 H1).
Qed.

Lemma has_char_strip_chars c chars s :
  Str.has_char c s = false -> Str.has_char c (Str.strip_chars chars s) = false.
Proof. apply has_char_strip_by. Qed.

Lemma no_group_chars_strip_chars chars t :
  no_group_chars t = true -> no_group_chars (Str.strip_chars chars t) = true.
Proof.
  rewrite !no_group_chars_cases. intros [H|H]; [left|right]; apply has_char_strip_chars, H.
Qed.

Lemma parse_atomic_flags_false t n :
  no_group_chars t = true -> _parse_atomic t = Some n -> leaf_flags_false n = true.
Proof.
  intros Hnp. unfold _parse_atomic. destruct (Str.is_empty t); [discriminate|].
  destruct (search true OR_CONCURRENT_PATTERN (Str.strip_chars " ,." t)) as [cm|] eqn:Ecm.
  - apply or_concurrent_needs_parens in Ecm as [H1 H2].
    apply (no_group_chars_strip_chars " ,.") in Hnp.
    unfold no_group_chars in Hnp. rewrite H1, H2 in Hnp. discriminate.
  - destruct (search false COURSE_PATTERN _).
    + intros [= <-]. reflexivity.
    + destruct (_ || _); [|discriminate]. intros [= <-]. reflexivity.
Qed.

Lemma parse_atomic_code_ok t n :
  no_group_chars t = true -> _parse_atomic t = Some n -> leaf_code_ok n = true.
Proof.
  intros _ H. destruct n as [code ic io| | | | |]; try reflexivity.
  cbn. eapply parse_atomic_course_code_ok, H.
Qed.

Lemma course_code_not_placeholder code :
  course_code_ok code = true -> Str.startswith "~~~GROUP" code = false.
Proof.
  unfold course_code_ok. cbv zeta. intros H.
  apply andb_true_iff in H as [H _]. apply andb_true_iff in H as [H _].
  apply andb_true_iff in H as [Hlen Hup].
  destruct code as [|x code]; [discriminate|].
  cbn [Str.take all_chars] in Hup. apply andb_true_iff in Hup as [Hx _].
  unfold Str.startswith. cbn [String.prefix].
  destruct (ascii_dec "~" x) as [<-|]; [discriminate|reflexivity].
Qed.

Lemma parse_atomic_not_placeholder t n :
  no_group_chars t = true -> _parse_atomic t = Some n -> leaf_not_placeholder n = true.
Proof.
  intros _ H. destruct n as [code ic io| | | | |]; try reflexivity.
  cbn. rewrite (course_code_not_placeholder code); [reflexivity|].
  eapply parse_atomic_course_code_ok, H.
Qed.

(** On a tree without placeholder leaves [_replace_placeholders] changes
    nothing. *)
Lemma replace_children_id (f : node -> result (option node)) cs :
  Forall (fun c => leaves_ok leaf_not_placeholder c = true -> f c = Ret (Some c)) cs ->
  forallb (leaves_ok leaf_not_placeholder) cs = true ->
  replace_children f cs = Ret cs.
Proof.
  induction 1 as [|c cs Hc _ IH]; cbn [replace_children forallb]; [reflexivity|].
  intros [Hc1 Hcs]%andb_true_iff. rewrite (Hc Hc1). cbn [mbind result_bind].
  rewrite (IH Hcs). reflexivity.
Qed.

Lemma replace_node_id pe m n :
  leaves_ok leaf_not_placeholder n = true -> replace_node pe m n = Ret (Some n).
Proof.
  induction n as [code ic io|cs IH|cs IH| |e IH|c note IH|t c] using node_ind';
    intros Hn; cbn [replace_node].
  - cbn in Hn. apply negb_true_iff in Hn. rewrite Hn. reflexivity.
  - cbn [leaves_ok] in Hn. rewrite (replace_children_id _ _ IH Hn). reflexivity.
  - cbn [leaves_ok] in Hn. rewrite (replace_children_id _ _ IH Hn). reflexivity.
  - reflexivity.
  - cbn [leaves_ok] in Hn. rewrite (IH Hn). reflexivity.
  - reflexivity.
  - reflexivity.
Qed.

Lemma parse_with_groups_discards_groups fuel text :
  _parse_with_groups (_parse_expression fuel) text
  = _parse_expression fuel (with_placeholders text).
Proof.
  unfold _parse_with_groups, with_placeholders.
  destruct (sub_fn _ _ _ _ _) as [[counter m] modified]. cbn [snd].
  destruct (_parse_expression fuel modified) as [res|e] eqn:E; [|reflexivity].
  cbn [mbind result_bind].
  pose proof (parse_expression_leaves _ parse_atomic_not_placeholder fuel _ _ E) as Hok.
  destruct res as [n|]; [|reflexivity]. cbn [_replace_placeholders].
  apply replace_node_id. exact Hok.
Qed.

Lemma parse_expression_flags_false fuel text r :
  _parse_expression fuel text = Ret r -> leaves_ok_opt leaf_flags_false r = true.
Proof. apply parse_expression_leaves. exact parse_atomic_flags_false. Qed.

Lemma parse_expression_codes_ok fuel text r :
  _parse_expression fuel text = Ret r -> leaves_ok_opt leaf_code_ok r = true.
Proof. apply parse_expression_leaves. exact parse_atomic_code_ok. Qed.

Lemma parse_atomic_leaf_shape t n : _parse_atomic t = Some n -> is_leaf n = true.
Proof.
  unfold _parse_atomic. destruct (Str.is_empty t); [discriminate|].
  destruct (match search true OR_CONCURRENT_PATTERN _ with
            | Some _ => _ | None => _ end) as [b t'].
  destruct (search false COURSE_PATTERN t').
  - intros [= <-]. reflexivity.
  - destruct (_ || _); [|discriminate]. intros [= <-]. reflexivity.
Qed.

Lemma forallb_omap_all {A} (f : A -> option node) (Q : node -> bool) (l : list A) :
  (forall x n, f x = Some n -> Q n = true) -> forallb Q (omap f l) = true.
Proof. intros H. apply forallb_omap_in. intros x n _. apply H. Qed.

Lemma parse_or_expression_flat t n : _parse_or_expression t = Some n -> flat_or n = true.
Proof.
  unfold _parse_or_expression. destruct (Str.is_empty t); [discriminate|].
  assert (Hat : forall m, _parse_atomic t = Some m -> flat_or m = true).
  { intros m Hm. unfold flat_or. rewrite (parse_atomic_leaf_shape _ _ Hm). reflexivity. }
  destruct (Nat.ltb 1 _); [|apply Hat].
  destruct (omap _ _) as [|c1 [|c2 cs]] eqn:E; cbn [combine]; [apply Hat| |].
  - intros [= <-].
    assert (H : forallb is_leaf [c1] = true).
    { rewrite <- E. apply forallb_omap_all. intros x m. apply parse_atomic_leaf_shape. }
    cbn [forallb] in H. rewrite andb_true_r in H. unfold flat_or. rewrite H. reflexivity.
  - intros [= <-]. unfold flat_or. cbn [is_leaf orb]. rewrite <- E.
    apply forallb_omap_all. intros x m. apply parse_atomic_leaf_shape.
Qed.

Lemma parse_expression_flat fuel : forall text n,
  _parse_expression fuel text = Ret (Some n) -> flat n = true.
Proof.
  induction fuel as [|fuel IH]; intros text n; cbn [_parse_expression]; [discriminate|].
  destruct (Str.is_empty text); [discriminate|].
  destruct (_ && _).
  - rewrite parse_with_groups_discards_groups. apply IH.
  - assert (Hor : Ret (_parse_or_expression (normalize text)) = Ret (Some n) -> flat n = true).
    { intros [= H]. unfold flat. rewrite (parse_or_expression_flat _ _ H). reflexivity. }
    destruct (Nat.ltb 1 _); [|apply Hor].
    destruct (omap _ _) as [|c1 [|c2 cs]] eqn:E; cbn [combine]; [apply Hor| |].
    + intros [= <-].
      assert (H : forallb flat_or [c1] = true).
      { rewrite <- E. apply forallb_omap_all. intros x m. apply parse_or_expression_flat. }
      cbn [forallb] in H. rewrite andb_true_r in H. unfold flat. rewrite H. reflexivity.
    + intros [= <-]. unfold flat. cbn [flat_or is_leaf orb]. rewrite <- E.
      apply forallb_omap_all. intros x m. apply parse_or_expression_flat.
Qed.

Lemma forallb_map_course (f : string -> string) cs :
  forallb is_course (map (fun c => Course (f c) None None) cs) = true.
Proof. induction cs as [|c cs IH]; [reflexivity|exact IH]. Qed.

Lemma parse_concurrent_shape_ok text n :
  _parse_concurrent text = Some n -> concurrent_ok n = true.
Proof.
  rewrite parse_concurrent_shape.
  destruct (findall _ _ _) as [|c0 [|c1 cs]]; [discriminate| |]; intros [= <-].
  - reflexivity.
  - cbn [concurrent_ok is_course orb]. apply forallb_map_course.
Qed.

Lemma split_shape fuel text p c :
  _split_prereq_and_concurrent fuel text = Ret (p, c) ->
  opt_ok flat p = true /\ opt_ok concurrent_ok c = true.
Proof.
  assert (Hc : forall t, opt_ok concurrent_ok (_parse_concurrent t) = true).
  { intros t. destruct (_parse_concurrent t) eqn:E; [|reflexivity].
    cbn. eapply parse_concurrent_shape_ok, E. }
  assert (Hp : forall t r, _parse_expression fuel t = Ret r -> opt_ok flat r = true).
  { intros t [n|] H; [|reflexivity]. cbn. eapply parse_expression_flat, H. }
  unfold _split_prereq_and_concurrent.
  destruct (Str.is_empty text); [intros [= <- <-]; split; reflexivity|].
  destruct (_ || _); [intros [= <- <-]; split; [reflexivity|apply Hc]|].
  destruct (search _ _ _).
  - intros H. apply bind_ret in H as (pn & Hpn & [= <- <-]). split.
    + destruct (Str.is_empty (Str.strip (Str.take _ _)));
        [injection Hpn as <-; reflexivity|]. eapply Hp, Hpn.
    + destruct (Str.is_empty (Str.strip (Str.drop _ _))); [reflexivity|apply Hc].
  - intros H. apply bind_ret in H as (pn & Hpn & [= <- <-]). split; [|reflexivity].
    eapply Hp, Hpn.
Qed.

Lemma parse_tree_shapes fuel prerequisites_text concurrent_text a :
  parse fuel prerequisites_text concurrent_text = Ret a ->
  opt_ok flat (prerequisites a) = true /\ opt_ok coreq_shape (corequisites a) = true.
Proof.
  unfold parse. destruct (_ && _); [intros [= <-]; split; reflexivity|].
  intros H. apply bind_ret in H as ([p c] & Hs & H).
  apply split_shape in Hs as [Hp Hc].
  assert (Hweak : forall o, opt_ok concurrent_ok o = true -> opt_ok coreq_shape o = true).
  { intros [n|] Hn; [|reflexivity]. cbn in *. unfold coreq_shape. rewrite Hn. reflexivity. }
  destruct (Str.is_empty concurrent_text).
  - injection H as <-. split; [exact Hp|apply Hweak, Hc].
  - destruct (_parse_concurrent concurrent_text) as [cf|] eqn:Ecf.
    + apply parse_concurrent_shape_ok in Ecf.
      destruct c as [cn|]; injection H as <-; (split; [exact Hp|]); cbn.
      * unfold coreq_shape. cbn in Hc. rewrite Hc, Ecf. reflexivity.
      * unfold coreq_shape. rewrite Ecf. reflexivity.
    + injection H as <-. split; [exact Hp|apply Hweak, Hc].
Qed.

(** No [Concurrent] wrapper in a flat tree: the flag of the collection
    makes no difference. *)
Lemma collect_leaf_flag inc n : is_leaf n = true -> collect inc n = collect true n.
Proof. destruct n; try discriminate; reflexivity. Qed.

Lemma fold_collect_ext (f g : node -> gset string) cs : forall acc,
  (forall c, c ∈ cs -> f c = g c) ->
  fold_left (fun courses child => courses ∪ f child) cs acc
  = fold_left (fun courses child => courses ∪ g child) cs acc.
Proof.
  induction cs as [|c cs IH]; intros acc H; [reflexivity|]. cbn [fold_left].
  rewrite (H c (list_elem_of_here _ _)). apply IH. intros c' Hc'. apply H. right. exact Hc'.
Qed.

Lemma collect_flat_or inc n : flat_or n = true -> collect inc n = collect true n.
Proof.
  unfold flat_or. intros [H|H]%orb_true_iff; [apply collect_leaf_flag, H|].
  destruct n as [| |cs| | |]; try discriminate. cbn [collect].
  apply fold_collect_ext. intros c Hc. apply collect_leaf_flag.
  rewrite forallb_forall in H. apply H. apply list_elem_of_In, Hc.
Qed.

Lemma collect_flat inc n : flat n = true -> collect inc n = collect true n.
Proof.
  unfold flat. intros [H|H]%orb_true_iff; [apply collect_flat_or, H|].
  destruct n as [|cs| | | |]; try discriminate. cbn [collect].
  apply fold_collect_ext. intros c Hc. apply collect_flat_or.
  rewrite forallb_forall in H. apply H. apply list_elem_of_In, Hc.
Qed.

Lemma leaf_at_code_ok inside x n :
  leaf_at inside x n -> leaves_ok leaf_code_ok n = true -> course_code_ok x = true.
Proof.
  induction 1 as [code ic io|b code c cs Hc _ IH|b code c cs Hc _ IH
                 |b code e _ IH|b code c note _ IH]; cbn [leaves_ok]; intros H.
  - exact H.
  - apply IH. rewrite forallb_forall in H. apply H, list_elem_of_In, Hc.
  - apply IH. rewrite forallb_forall in H. apply H, list_elem_of_In, Hc.
  - apply IH, H.
  - apply IH, H.
Qed.

Lemma forallb_map_course_codes (l : list string) :
  (forall c, c ∈ l -> course_code_ok (Str.replace " " "" c) = true) ->
  forallb (leaves_ok leaf_code_ok)
    (map (fun c => Course (Str.replace " " "" c) None None) l) = true.
Proof.
  induction l as [|c l IH]; intros H; [reflexivity|]. cbn [map forallb leaves_ok leaf_code_ok].
  rewrite (H c (list_elem_of_here _ _)). apply IH. intros c' Hc'. apply H. right. exact Hc'.
Qed.

Lemma parse_concurrent_codes_ok text n :
  _parse_concurrent text = Some n -> leaves_ok leaf_code_ok n = true.
Proof.
  rewrite parse_concurrent_shape.
  destruct (findall false COURSE_PATTERN text) as [|c0 [|c1 cs]] eqn:E;
    [discriminate| |]; intros [= <-].
  - cbn. apply (findall_course_code_ok text). rewrite E. apply list_elem_of_here.
  - cbn [leaves_ok]. apply (forallb_map_course_codes (c0 :: c1 :: cs)).
    intros c Hc. apply (findall_course_code_ok text). rewrite E. exact Hc.
Qed.

Lemma split_codes_ok fuel text p c :
  _split_prereq_and_concurrent fuel text = Ret (p, c) ->
  leaves_ok_opt leaf_code_ok p = true /\ leaves_ok_opt leaf_code_ok c = true.
Proof.
  assert (Hc : forall t, leaves_ok_opt leaf_code_ok (_parse_concurrent t) = true).
  { intros t. destruct (_parse_concurrent t) eqn:E; [|reflexivity].
    cbn. eapply parse_concurrent_codes_ok, E. }
  unfold _split_prereq_and_concurrent.
  destruct (Str.is_empty text); [intros [= <- <-]; split; reflexivity|].
  destruct (_ || _); [intros [= <- <-]; split; [reflexivity|apply Hc]|].
  destruct (search _ _ _).
  - intros H. apply bind_ret in H as (pn & Hpn & [= <- <-]). split.
    + destruct (Str.is_empty (Str.strip (Str.take _ _)));
        [injection Hpn as <-; reflexivity|]. eapply parse_expression_codes_ok, Hpn.
    + destruct (Str.is_empty (Str.strip (Str.drop _ _))); [reflexivity|apply Hc].
  - intros H. apply bind_ret in H as (pn & Hpn & [= <- <-]). split; [|reflexivity].
    eapply parse_expression_codes_ok, Hpn.
Qed.

Lemma parse_codes_ok fuel prerequisites_text concurrent_text a :
  parse fuel prerequisites_text concurrent_text = Ret a ->
  leaves_ok_opt leaf_code_ok (prerequisites a) = true
  /\ leaves_ok_opt leaf_code_ok (corequisites a) = true.
Proof.
  unfold parse. destruct (_ && _); [intros [= <-]; split; reflexivity|].
  intros H. apply bind_ret in H as ([p c] & Hs & H).
  apply split_codes_ok in Hs as [Hp Hc].
  destruct (Str.is_empty concurrent_text).
  - injection H as <-. split; assumption.
  - destruct (_parse_concurrent concurrent_text) as [cf|] eqn:Ecf.
    + apply parse_concurrent_codes_ok in Ecf.
      destruct c as [cn|]; injection H as <-; (split; [exact Hp|]); cbn.
      * cbn in Hc. rewrite Hc, Ecf. reflexivity.
      * exact Ecf.
    + injection H as <-. split; assumption.
Qed.

(** ** sorted sequences *)
Lemma str_le_total : Total str_le.
Proof. intros a b. unfold str_le. apply String.leb_total. Qed.

Lemma str_le_trans : Transitive str_le.
Proof.
  intros a b c Hab Hbc. unfold str_le in *.
  assert (Hab' : String.le a b) by (unfold String.le; rewrite Hab; exact I).
  assert (Hbc' : String.le b c) by (unfold String.le; rewrite Hbc; exact I).
  pose proof (transitivity Hab' Hbc') as H. unfold String.le in H.
  destruct (String.leb a c); [reflexivity|destruct H].
Qed.

Lemma sorted_requirers_sorted (m : gmap string (gset string)) x :
  StronglySorted str_le (sorted_requirers m x) /\ NoDup (sorted_requirers m x).
Proof.
  unfold sorted_requirers. split.
  - apply (@StronglySorted_merge_sort _ str_le _ str_le_trans str_le_total).
  - rewrite merge_sort_Permutation. apply NoDup_elements.
Qed.

(** ** missing join key *)
Lemma reverse_map_no_empty inc tree courses :
  (forall x, "" ∉ default ∅ (fold_left (add_course inc tree) courses ∅ !! x))
  /\ default ∅ (fold_left (add_course inc tree) courses ∅ !! "") = ∅.
Proof.
  split.
  - intros x H. apply fold_add_course_elem in H as [H|(c & _ & _ & H & _)].
    + rewrite lookup_empty in H. apply not_elem_of_empty in H. destruct H.
    + congruence.
  - apply set_eq. intros k. split; [|intros H; apply not_elem_of_empty in H; destruct H].
    intros H. apply fold_add_course_elem in H as [H|(c & _ & _ & _ & H & _)].
    + rewrite lookup_empty in H. exact H.
    + congruence.
Qed.

(** ** corequisite inversion *)

(** ** groups at the level of [_parse_expression] *)
Lemma parse_expression_group_step fuel text :
  Str.is_empty text = false ->
  Str.has_char "(" (normalize text) && Str.has_char ")" (normalize text) = true ->
  _parse_expression (S fuel) text
  = _parse_expression fuel (with_placeholders (normalize text)).
Proof.
  intros Hne Hpar. cbn [_parse_expression]. rewrite Hne, Hpar.
  apply parse_with_groups_discards_groups.
Qed.

Lemma parse_expression_fuel_mono fuel : forall text r,
  _parse_expression fuel text = Ret r -> _parse_expression (S fuel) text = Ret r.
Proof.
  induction fuel as [|fuel IH]; intros text r H; [discriminate|].
  destruct (Str.is_empty text) eqn:Hne.
  - cbn [_parse_expression] in *. rewrite Hne in *. exact H.
  - destruct (Str.has_char "(" (normalize text) && Str.has_char ")" (normalize text)) eqn:Hpar.
    + rewrite parse_expression_group_step in H |- * by assumption. apply IH, H.
    + cbn [_parse_expression] in *. rewrite Hne, Hpar in *. exact H.
Qed.

(** ** text conditions *)
Lemma prefix_length p : forall s, String.prefix p s = true -> String.length p <= String.length s.
Proof.
  induction p as [|a p IH]; intros s H; [simpl; lia|].
  destruct s as [|b s]; [discriminate|]. cbn [String.prefix] in H.
  destruct (ascii_dec a b); [|discriminate]. apply IH in H. simpl. lia.
Qed.

Lemma contains_length p : forall s, Str.contains p s = true -> String.length p <= String.length s.
Proof.
  induction s as [|x s IH]; cbn [Str.contains]; intros H.
  - rewrite orb_false_r in H. apply prefix_length, H.
  - apply orb_true_iff in H as [H|H]; [apply prefix_length, H|].
    apply IH in H. simpl. lia.
Qed.

Lemma length_lower s : String.length (Str.lower s) = String.length s.
Proof. induction s as [|x s IH]; [reflexivity|]. cbn. rewrite IH. reflexivity. Qed.

Lemma triggers_length cat t : triggers cat t = true -> 8 <= String.length t.
Proof.
  unfold triggers, text_conditions. cbn [existsb]. intros H.
  repeat match type of H with
         | (_ || _) = true => apply orb_true_iff in H as [H|H]
         | (_ && _) = true => apply andb_true_iff in H as [_ H]
         | Str.contains _ _ = true => apply contains_length in H; simpl in H; lia
         | false = true => discriminate H
         end.
Qed.

(** ** statistics of the batch loop *)
Lemma parse_ret_no_error fuel p c a : parse fuel p c = Ret a -> parse_error a = None.
Proof.
  unfold parse. destruct (_ && _); [intros [= <-]; reflexivity|].
  intros H. apply bind_ret in H as ([pn cn] & _ & H).
  destruct (if Str.is_empty c then _ else _) as [raw cn']. injection H as <-. reflexivity.
Qed.

Lemma parse_empty_fields fuel : parse fuel "" "" = Ret (Ast None None "" None).
Proof. reflexivity. Qed.

Lemma is_empty_eq s : Str.is_empty s = true -> s = "".
Proof. destruct s; [reflexivity|discriminate]. Qed.

Lemma loop_body_inv fuel n st c :
  stats_inv n st -> stats_inv n (Batch.loop_body fuel st c).
Proof.
  destruct st as [out s]. intros (Ht & He & Hp & Hc). unfold Batch.loop_body.
  destruct (parse fuel _ _) as [a|e] eqn:E; unfold stats_inv; cbn [Batch.total
    Batch.errors Batch.with_prerequisites Batch.with_corequisites Batch.empty];
    rewrite List.filter_app, !length_app; cbn [length List.filter].
  - split; [exact Ht|].
    assert (Hno : has_parse_error (set_prerequisite_ast c a) = false).
    { unfold has_parse_error. cbn. rewrite (parse_ret_no_error _ _ _ _ E).
      apply bool_decide_eq_false_2. intros [? ?]. discriminate. }
    rewrite Hno. cbn [length]. split; [lia|].
    destruct (Str.is_empty _ && Str.is_empty _) eqn:Hemp.
    + apply andb_true_iff in Hemp as [H1 H2].
      apply is_empty_eq in H1, H2. rewrite H1, H2 in E. cbn in E. injection E as <-.
      cbn [prerequisites corequisites Batch.bump].
      rewrite !bool_decide_eq_false_2 by (intros [? ?]; discriminate).
      cbn [Batch.bump]. split; lia.
    + cbn [Batch.bump].
      split; [destruct (bool_decide (is_Some (prerequisites a)))
             |destruct (bool_decide (is_Some (corequisites a)))]; cbn [Batch.bump]; lia.
  - split; [exact Ht|].
    assert (Hyes : has_parse_error
                     (set_prerequisite_ast c
                        (Ast None None (Str.strip (default "" (c_prerequisites c))) (Some e)))
                   = true).
    { reflexivity. }
    rewrite Hyes. cbn [length]. split; [lia|]. split; lia.
Qed.

Lemma fold_loop_body_inv fuel n courses : forall st,
  stats_inv n st -> stats_inv n (fold_left (Batch.loop_body fuel) courses st).
Proof.
  induction courses as [|c courses IH]; intros st H; [exact H|].
  cbn [fold_left]. apply IH, loop_body_inv, H.
Qed.

Section all_chars.
Variable p : ascii -> bool.

Lemma all_chars_drop n : forall s, all_chars p s = true -> all_chars p (Str.drop n s) = true.
Proof.
  induction n as [|n IH]; intros [|x s] H; cbn [Str.drop]; try exact H.
  cbn [all_chars] in H. apply andb_true_iff in H as [_ H]. apply IH, H.
Qed.

Lemma all_chars_take n : forall s, all_chars p s = true -> all_chars p (Str.take n s) = true.
Proof.
  induction n as [|n IH]; intros [|x s] H; cbn [Str.take]; try reflexivity.
  cbn [all_chars] in *. apply andb_true_iff in H as [Hx H]. rewrite Hx. apply IH, H.
Qed.

Lemma all_chars_slice i j s : all_chars p s = true -> all_chars p (Str.slice i j s) = true.
Proof. intros H. apply all_chars_take, all_chars_drop, H. Qed.

Lemma all_chars_lstrip q s : all_chars p s = true -> all_chars p (Str.lstrip_by q s) = true.
Proof.
  induction s as [|x s IH]; [reflexivity|]. cbn [Str.lstrip_by]. intros H.
  destruct (q x); [|exact H]. cbn [all_chars] in H. apply andb_true_iff in H as [_ H].
  apply IH, H.
Qed.

Lemma all_chars_rev_onto s : forall acc,
  all_chars p (Str.rev_onto s acc) = all_chars p s && all_chars p acc.
Proof.
  induction s as [|x s IH]; intros acc; [reflexivity|]. cbn [Str.rev_onto all_chars].
  rewrite IH. cbn [all_chars]. destruct (p x), (all_chars p s); reflexivity.
Qed.

Lemma all_chars_rev s : all_chars p (Str.rev s) = all_chars p s.
Proof. unfold Str.rev. rewrite all_chars_rev_onto. cbn. apply andb_true_r. Qed.

Lemma all_chars_strip_by q s : all_chars p s = true -> all_chars p (Str.strip_by q s) = true.
Proof.
  intros H. unfold Str.strip_by, Str.rstrip_by. rewrite all_chars_rev.
  apply all_chars_lstrip. rewrite all_chars_rev. apply all_chars_lstrip, H.
Qed.

Lemma all_chars_split_go text ms : forall pos,
  all_chars p text = true ->
  Forall (fun piece => all_chars p piece = true) (split_go text ms pos).
Proof.
  induction ms as [|m ms IH]; intros pos H; cbn [split_go].
  - constructor; [apply all_chars_drop, H|constructor].
  - constructor; [apply all_chars_slice, H|apply IH, H].
Qed.

Lemma all_chars_sub_go {A} (repl : A -> string -> A * string) text ms :
  (forall a matched, all_chars p (snd (repl a matched)) = true) ->
  all_chars p text = true ->
  forall pos a, all_chars p (snd (sub_go repl text ms pos a)) = true.
Proof.
  intros Hrepl H. induction ms as [|m ms IH]; intros pos a; cbn [sub_go].
  - apply all_chars_drop, H.
  - specialize (Hrepl a (group0 text m)).
    destruct (repl a (group0 text m)) as [a1 out]. cbn [snd] in Hrepl.
    specialize (IH (m_end m) a1).
    destruct (sub_go repl text ms (m_end m) a1) as [a2 tail]. cbn [snd] in *.
    rewrite !all_chars_app, (all_chars_slice _ _ _ H), Hrepl, IH. reflexivity.
Qed.

Lemma all_chars_sub ic r repl text :
  all_chars p repl = true -> all_chars p text = true ->
  all_chars p (sub ic r repl text) = true.
Proof. intros Hr H. unfold sub, sub_fn. apply all_chars_sub_go; [intros; exact Hr|exact H]. Qed.

Lemma all_chars_replace_go old new fuel : forall s,
  all_chars p new = true -> all_chars p s = true ->
  all_chars p (Str.replace_go fuel old new s) = true.
Proof.
  induction fuel as [|fuel IH]; intros s Hn H; cbn [Str.replace_go]; [exact H|].
  destruct s as [|x s]; [reflexivity|].
  destruct (String.prefix old (String x s)).
  - rewrite all_chars_app, Hn. apply IH; [exact Hn|apply all_chars_drop, H].
  - cbn [all_chars] in *. apply andb_true_iff in H as [Hx H].
    rewrite Hx. apply IH; assumption.
Qed.
End all_chars.

Lemma plain_spaces_unfold s : plain_spaces s = all_chars plain s.
Proof. reflexivity. Qed.

Lemma digit_plain x : Chars.is_digit x = true -> plain x = true.
Proof. intros H. unfold plain. rewrite (digit_not_space x H). reflexivity. Qed.

Lemma all_chars_impl (p q : ascii -> bool) s :
  (forall x, p x = true -> q x = true) -> all_chars p s = true -> all_chars q s = true.
Proof.
  intros Hpq. induction s as [|x s IH]; [reflexivity|]. cbn [all_chars].
  intros [Hx H]%andb_true_iff. rewrite (Hpq x Hx), (IH H). reflexivity.
Qed.

Lemma string_of_uint_digits d : all_chars Chars.is_digit (NilEmpty.string_of_uint d) = true.
Proof. induction d; cbn; try reflexivity; exact IHd. Qed.

Lemma of_nat_plain n : all_chars plain (Str.of_nat n) = true.
Proof.
  apply (all_chars_impl Chars.is_digit); [exact digit_plain|].
  unfold Str.of_nat, NilZero.string_of_uint.
  destruct (Nat.to_uint n); try reflexivity; apply string_of_uint_digits.
Qed.

Lemma replace_group_plain st matched : all_chars plain (snd (replace_group st matched)) = true.
Proof.
  destruct st as [counter m]. cbn [replace_group snd].
  rewrite !all_chars_app, of_nat_plain. reflexivity.
Qed.

Lemma plain_with_placeholders t :
  plain_spaces t = true -> plain_spaces (with_placeholders t) = true.
Proof.
  intros H. unfold with_placeholders, sub_fn.
  apply all_chars_sub_go; [apply replace_group_plain|exact H].
Qed.

Lemma plain_normalize t : plain_spaces t = true -> plain_spaces (normalize t) = true.
Proof.
  intros H. unfold normalize.
  apply all_chars_sub; [reflexivity|]. apply all_chars_sub; [reflexivity|].
  apply all_chars_strip_by, H.
Qed.

Lemma plain_split_on_and t piece :
  plain_spaces t = true -> piece ∈ _split_on_and t -> plain_spaces (Str.strip piece) = true.
Proof.
  intros H Hin. unfold _split_on_and in Hin.
  apply list_elem_of_fmap in Hin as (piece' & -> & Hin).
  apply all_chars_strip_by. unfold Str.replace. apply all_chars_replace_go; [reflexivity|].
  pose proof (all_chars_split_go plain
                (sub true AND_CONCURRENT "~~~CONCURRENT~~~" t)
                (finditer true AND_SPLIT (sub true AND_CONCURRENT "~~~CONCURRENT~~~" t)) 0
                (all_chars_sub plain true AND_CONCURRENT "~~~CONCURRENT~~~" t eq_refl H)) as HF.
  rewrite Forall_forall in HF. apply HF, Hin.
Qed.

Lemma plain_split_or t piece :
  plain_spaces t = true -> piece ∈ split true OR_SPLIT t -> plain_spaces (Str.strip piece) = true.
Proof.
  intros H Hin. apply all_chars_strip_by.
  pose proof (all_chars_split_go plain t (finditer true OR_SPLIT t) 0 H) as HF.
  rewrite Forall_forall in HF. apply HF, Hin.
Qed.

(** a run of plain whitespace disappears with the spaces *)
Lemma remove_plain_spaces gap :
  all_chars Chars.is_space gap = true -> all_chars plain gap = true ->
  remove_char " " gap = "".
Proof.
  induction gap as [|x gap IH]; [reflexivity|]. cbn [all_chars remove_char].
  intros [Hs H1]%andb_true_iff [Hp H2]%andb_true_iff.
  unfold plain in Hp. rewrite Hs in Hp. cbn in Hp. rewrite Hp. apply IH; assumption.
Qed.

Lemma matched_key_ok text prev pos m :
  plain_spaces text = true ->
  match_here false COURSE_PATTERN prev (Str.drop pos text) pos = Some m ->
  join_key_ok (Str.replace " " "" (group0 text m)) = true.
Proof.
  intros Hplain H.
  assert (Hg : all_chars plain (group0 text m) = true)
    by (apply all_chars_slice, Hplain).
  apply course_match_inv in H
    as (letters & gap & digits & E & Hl & Hu & Hgap & Hd & Hdig).
  rewrite E in Hg |- *. rewrite !all_chars_app in Hg.
  apply andb_true_iff in Hg as [_ Hg]. apply andb_true_iff in Hg as [Hg _].
  rewrite replace_space, !remove_char_app.
  rewrite (remove_char_id " " is_upper letters eq_refl Hu).
  rewrite (remove_char_id " " Chars.is_digit digits eq_refl Hdig).
  rewrite (remove_plain_spaces gap Hgap Hg). change ("" ++ digits) with digits.
  apply join_key_ok_intro; assumption.
Qed.

Lemma parse_atomic_key_ok t n :
  plain_spaces t = true -> _parse_atomic t = Some n -> leaf_key_ok n = true.
Proof.
  intros Hplain. unfold _parse_atomic. destruct (Str.is_empty t); [discriminate|].
  assert (Hs : plain_spaces (Str.strip_chars " ,." t) = true)
    by (apply all_chars_strip_by, Hplain).
  destruct (match search true OR_CONCURRENT_PATTERN _ with
            | Some _ => _ | None => _ end) as [b t'] eqn:Et.
  assert (Ht' : plain_spaces t' = true).
  { destruct (search true OR_CONCURRENT_PATTERN _); injection Et as _ <-; [|exact Hs].
    unfold plain_spaces, Str.strip. rewrite all_chars_app.
    rewrite !all_chars_strip_by; [reflexivity| |].
    - apply all_chars_drop, Hs.
    - apply all_chars_take, Hs. }
  destruct (search false COURSE_PATTERN t') as [m|] eqn:E.
  - intros [= <-]. cbn. unfold search in E.
    apply (scan_inv _ _ t') in E as (prev & pos & _ & _ & Hm); [|reflexivity].
    eapply matched_key_ok; eassumption.
  - destruct (_ || _); [|discriminate]. intros [= <-]. reflexivity.
Qed.

Lemma parse_or_expression_keys t n :
  plain_spaces t = true -> _parse_or_expression t = Some n ->
  leaves_ok leaf_key_ok n = true.
Proof.
  intros Hplain. unfold _parse_or_expression. destruct (Str.is_empty t); [discriminate|].
  assert (Hat : forall m, _parse_atomic t = Some m -> leaves_ok leaf_key_ok m = true).
  { intros m Hm. rewrite (parse_atomic_is_leaf _ _ _ Hm). eapply parse_atomic_key_ok; eassumption. }
  destruct (Nat.ltb 1 _); [|apply Hat].
  destruct (combine Or _) eqn:E; [|apply Hat].
  intros [= <-]. eapply combine_leaves; [| |exact E]; [reflexivity|].
  apply forallb_omap_in. intros piece m Hin Hm.
  rewrite (parse_atomic_is_leaf _ _ _ Hm).
  eapply parse_atomic_key_ok; [|exact Hm]. eapply plain_split_or; eassumption.
Qed.

Lemma parse_expression_keys fuel : forall text r,
  plain_spaces text = true ->
  _parse_expression fuel text = Ret r -> leaves_ok_opt leaf_key_ok r = true.
Proof.
  induction fuel as [|fuel IH]; intros text r Hplain H; [discriminate|].
  destruct (Str.is_empty text) eqn:Hne.
  { cbn [_parse_expression] in H. rewrite Hne in H. injection H as <-. reflexivity. }
  pose proof (plain_normalize _ Hplain) as Hn.
  destruct (Str.has_char "(" (normalize text) && Str.has_char ")" (normalize text)) eqn:Hpar.
  - rewrite parse_expression_group_step in H by assumption.
    eapply IH; [|exact H]. apply plain_with_placeholders, Hn.
  - cbn [_parse_expression] in H. rewrite Hne, Hpar in H.
    assert (Hor : forall r', Ret (_parse_or_expression (normalize text)) = Ret r' ->
                             leaves_ok_opt leaf_key_ok r' = true).
    { intros r' [= <-]. destruct (_parse_or_expression _) eqn:E'; [|reflexivity].
      cbn. eapply parse_or_expression_keys; eassumption. }
    destruct (Nat.ltb 1 _); [|apply Hor, H].
    destruct (combine And _) eqn:E; [|apply Hor, H].
    injection H as <-. cbn. eapply combine_leaves; [| |exact E]; [reflexivity|].
    apply forallb_omap_in. intros piece m Hin Hm.
    eapply parse_or_expression_keys; [|exact Hm].
    eapply plain_split_on_and; eassumption.
Qed.

Lemma findall_key_ok text c :
  plain_spaces text = true ->
  c ∈ findall false COURSE_PATTERN text -> join_key_ok (Str.replace " " "" c) = true.
Proof.
  intros Hplain. unfold findall, finditer. intros (m & -> & Hm)%list_elem_of_fmap.
  apply finditer_from_inv in Hm as (prev & pos & Hm). eapply matched_key_ok; eassumption.
Qed.

Lemma forallb_map_course_keys (l : list string) :
  (forall c, c ∈ l -> join_key_ok (Str.replace " " "" c) = true) ->
  forallb (leaves_ok leaf_key_ok)
    (map (fun c => Course (Str.replace " " "" c) None None) l) = true.
Proof.
  induction l as [|c l IH]; intros H; [reflexivity|]. cbn [map forallb leaves_ok leaf_key_ok].
  rewrite (H c (list_elem_of_here _ _)). apply IH. intros c' Hc'. apply H. right. exact Hc'.
Qed.

Lemma parse_concurrent_keys text n :
  plain_spaces text = true ->
  _parse_concurrent text = Some n -> leaves_ok leaf_key_ok n = true.
Proof.
  intros Hplain. rewrite parse_concurrent_shape.
  destruct (findall false COURSE_PATTERN text) as [|c0 [|c1 cs]] eqn:E;
    [discriminate| |]; intros [= <-].
  - cbn. apply (findall_key_ok text); [exact Hplain|]. rewrite E. apply list_elem_of_here.
  - cbn [leaves_ok]. apply (forallb_map_course_keys (c0 :: c1 :: cs)).
    intros c Hc. apply (findall_key_ok text); [exact Hplain|]. rewrite E. exact Hc.
Qed.

Lemma split_keys fuel text p c :
  plain_spaces text = true ->
  _split_prereq_and_concurrent fuel text = Ret (p, c) ->
  leaves_ok_opt leaf_key_ok p = true /\ leaves_ok_opt leaf_key_ok c = true.
Proof.
  intros Hplain.
  assert (Hc : forall t, plain_spaces t = true ->
                         leaves_ok_opt leaf_key_ok (_parse_concurrent t) = true).
  { intros t Ht. destruct (_parse_concurrent t) eqn:E; [|reflexivity].
    cbn. eapply parse_concurrent_keys; eassumption. }
  unfold _split_prereq_and_concurrent.
  destruct (Str.is_empty text); [intros [= <- <-]; split; reflexivity|].
  destruct (_ || _); [intros [= <- <-]; split; [reflexivity|apply Hc, Hplain]|].
  destruct (search _ _ _).
  - intros H. apply bind_ret in H as (pn & Hpn & [= <- <-]). split.
    + destruct (Str.is_empty (Str.strip (Str.take _ _)));
        [injection Hpn as <-; reflexivity|].
      eapply parse_expression_keys; [|exact Hpn].
      apply all_chars_strip_by, all_chars_take, Hplain.
    + destruct (Str.is_empty (Str.strip (Str.drop _ _))); [reflexivity|].
      apply Hc, all_chars_strip_by, all_chars_drop, Hplain.
  - intros H. apply bind_ret in H as (pn & Hpn & [= <- <-]). split; [|reflexivity].
    eapply parse_expression_keys; eassumption.
Qed.

Lemma parse_keys fuel prerequisites_text concurrent_text a :
  plain_spaces prerequisites_text = true -> plain_spaces concurrent_text = true ->
  parse fuel prerequisites_text concurrent_text = Ret a ->
  leaves_ok_opt leaf_key_ok (prerequisites a) = true
  /\ leaves_ok_opt leaf_key_ok (corequisites a) = true.
Proof.
  intros Hp0 Hc0. unfold parse. destruct (_ && _); [intros [= <-]; split; reflexivity|].
  intros H. apply bind_ret in H as ([p c] & Hs & H).
  apply split_keys in Hs as [Hp Hc]; [|apply all_chars_strip_by, Hp0].
  destruct (Str.is_empty concurrent_text).
  - injection H as <-. split; assumption.
  - destruct (_parse_concurrent concurrent_text) as [cf|] eqn:Ecf.
    + apply parse_concurrent_keys in Ecf; [|exact Hc0].
      destruct c as [cn|]; injection H as <-; (split; [exact Hp|]); cbn.
      * cbn in Hc. rewrite Hc, Ecf. reflexivity.
      * exact Ecf.
    + injection H as <-. split; assumption.
Qed.

Lemma leaf_at_key_ok inside x n :
  leaf_at inside x n -> leaves_ok leaf_key_ok n = true -> join_key_ok x = true.
Proof.
  induction 1 as [code ic io|b code c cs Hc _ IH|b code c cs Hc _ IH
                 |b code e _ IH|b code c note _ IH]; cbn [leaves_ok]; intros H.
  - exact H.
  - apply IH. rewrite forallb_forall in H. apply H, list_elem_of_In, Hc.
  - apply IH. rewrite forallb_forall in H. apply H, list_elem_of_In, Hc.
  - apply IH, H.
  - apply IH, H.
Qed.

Lemma join_key_round_trip x :
  join_key_ok x = true -> extract_course_code_from_title x = x.
Proof.
  unfold join_key_ok. intros H.
  apply andb_true_iff in H as [H Hd]. apply andb_true_iff in H as [Hlen Hu].
  apply Nat.eqb_eq in Hlen.
  assert (Hx : x = Str.take 4 x ++ "" ++ Str.drop 4 x ++ "").
  { change ("" ++ Str.drop 4 x ++ "") with (Str.drop 4 x ++ "").
    rewrite append_nil_r.
    do 4 (destruct x as [|? x]; [discriminate|]). reflexivity. }
  assert (Hl4 : String.length (Str.take 4 x) = 4).
  { do 4 (destruct x as [|? x]; [discriminate|]). reflexivity. }
  assert (Hd4 : String.length (Str.drop 4 x) = 4).
  { do 4 (destruct x as [|? x]; [discriminate|]). cbn in Hlen |- *. lia. }
  rewrite Hx at 1.
  rewrite (extract_course_code_of_leading_code _ "" _ "" Hl4 Hu eq_refl Hd4 Hd).
  do 4 (destruct x as [|? x]; [discriminate|]). reflexivity.
Qed.

(** *** Where the prerequisites tree of [parse] comes from *)

Lemma split_prerequisites_origin fuel text p c :
  _split_prereq_and_concurrent fuel text = Ret (p, c) ->
  p = None \/ exists t, _parse_expression fuel t = Ret p.
Proof.
  unfold _split_prereq_and_concurrent.
  destruct (Str.is_empty text); [intros [= <- <-]; left; reflexivity|].
  destruct (_ || _); [intros [= <- <-]; left; reflexivity|].
  destruct (search _ _ _).
  - intros H. apply bind_ret in H as (pn & Hpn & [= <- <-]).
    destruct (Str.is_empty (Str.strip (Str.take _ _)));
      [injection Hpn as <-; left; reflexivity|]. right. eauto.
  - intros H. apply bind_ret in H as (pn & Hpn & [= <- <-]). right. eauto.
Qed.

Lemma parse_prerequisites_origin fuel prerequisites_text concurrent_text a :
  parse fuel prerequisites_text concurrent_text = Ret a ->
  prerequisites a = None \/ exists t, _parse_expression fuel t = Ret (prerequisites a).
Proof.
  unfold parse. destruct (_ && _); [intros [= <-]; left; reflexivity|].
  intros H. apply bind_ret in H as ([p c] & Hs & H).
  apply split_prerequisites_origin in Hs.
  destruct (Str.is_empty concurrent_text); [injection H as <-; exact Hs|].
  destruct (_parse_concurrent concurrent_text); [|injection H as <-; exact Hs].
  destruct c; injection H as <-; exact Hs.
Qed.

(** *** The collection on the trees of [parse] *)

Lemma collect_concurrent_ok n : concurrent_ok n = true -> collect false n = ∅.
Proof. destruct n; try discriminate. reflexivity. Qed.

Lemma collect_coreq_shape n : coreq_shape n = true -> collect false n = ∅.
Proof.
  unfold coreq_shape. intros [H|H]%orb_true_iff; [apply collect_concurrent_ok, H|].
  destruct n as [|[|a [|b [|? ?]]]| | | |]; try discriminate.
  apply andb_true_iff in H as [Ha Hb]. cbn [collect fold_left].
  rewrite (collect_concurrent_ok _ Ha), (collect_concurrent_ok _ Hb).
  set_solver.
Qed.

(** *** The recursion bound *)

(** *** Texts without a pair of parentheses *)

Lemma parse_expression_returns_char ch fuel text :
  ch = "("%char \/ ch = ")"%char ->
  Str.has_char ch text = false ->
  exists r, _parse_expression (S fuel) text = Ret r.
Proof.
  intros Hch H. cbn [_parse_expression]. destruct (Str.is_empty text); [eauto|].
  assert (Hpar : Str.has_char "(" (normalize text) && Str.has_char ")" (normalize text) = false).
  { destruct Hch as [-> | ->]; rewrite (has_char_normalize _ _ H);
      [reflexivity|apply andb_false_r]. }
  rewrite Hpar.
  destruct (match (if Nat.ltb 1 _ then _ else None) with Some n => _ | None => _ end) eqn:E; eauto.
  destruct (if Nat.ltb 1 _ then _ else _); discriminate.
Qed.

Lemma parse_returns_char ch fuel prerequisites_text concurrent_text :
  ch = "("%char \/ ch = ")"%char ->
  Str.has_char ch prerequisites_text = false ->
  exists a, parse (S fuel) prerequisites_text concurrent_text = Ret a.
Proof.
  intros Hch H. unfold parse. destruct (_ && _); [eauto|].
  assert (Hs : exists pc, _split_prereq_and_concurrent (S fuel) (Str.strip prerequisites_text) = Ret pc).
  { pose proof (has_char_strip_by ch Chars.is_space _ H) as H'.
    fold (Str.strip prerequisites_text) in H'.
    unfold _split_prereq_and_concurrent.
    destruct (Str.is_empty (Str.strip prerequisites_text)); [eauto|].
    destruct (_ || _); [eauto|].
    destruct (search _ _ _) as [m|].
    - destruct (Str.is_empty (Str.strip (Str.take _ _))); [eauto|].
      destruct (parse_expression_returns_char ch fuel
                  (Str.strip (Str.take (m_start m) (Str.strip prerequisites_text))) Hch) as [r ->].
      + apply has_char_strip_by, has_char_take, H'.
      + eauto.
    - destruct (parse_expression_returns_char ch fuel (Str.strip prerequisites_text) Hch H') as [r ->].
      eauto. }
  destruct Hs as [[p c] ->]. cbn [mbind result_bind].
  destruct (if Str.is_empty concurrent_text then _ else _). eauto.
Qed.

(** *** The counters of the graph builder *)

Lemma truthy_nil l : GraphMain.truthy l = false <-> l = [].
Proof. destruct l; split; intros H; try reflexivity; discriminate. Qed.

Lemma graph_loop_body_inv courses seen st c :
  graph_stats_inv courses seen st ->
  graph_stats_inv courses (seen ++ [c])%list
    (GraphMain.loop_body (build_reverse_prerequisite_map courses)
                         (build_reverse_corequisite_map courses) st c).
Proof.
  destruct st as [out s]. intros (Hout & Htot & Horph & H1 & H2 & H3).
  unfold GraphMain.loop_body, graph_stats_inv.
  cbn [GraphMain.total GraphMain.with_prereq_for GraphMain.with_coreq_for GraphMain.orphans].
  rewrite map_app, List.filter_app, !length_app. cbn [map List.filter length].
  split; [rewrite Hout; reflexivity|]. split; [exact Htot|].
  assert (Ho : is_orphan courses c
               = negb (GraphMain.truthy
                         (sorted_requirers (build_reverse_prerequisite_map courses)
                            (extract_course_code_from_title (default "" (c_title c)))))
                 && negb (GraphMain.truthy
                            (sorted_requirers (build_reverse_corequisite_map courses)
                               (extract_course_code_from_title (default "" (c_title c)))))).
  { reflexivity. }
  rewrite Ho.
  destruct (GraphMain.truthy (sorted_requirers (build_reverse_prerequisite_map courses) _)),
           (GraphMain.truthy (sorted_requirers (build_reverse_corequisite_map courses) _));
    cbn [negb andb Batch.bump length]; lia.
Qed.

Lemma fold_graph_loop_body_inv courses cs : forall seen st,
  graph_stats_inv courses seen st ->
  graph_stats_inv courses (seen ++ cs)%list
    (fold_left (GraphMain.loop_body (build_reverse_prerequisite_map courses)
                                    (build_reverse_corequisite_map courses)) cs st).
Proof.
  induction cs as [|c cs IH]; intros seen st H; cbn [fold_left].
  - rewrite app_nil_r. exact H.
  - replace (seen ++ c :: cs)%list with ((seen ++ [c]) ++ cs)%list
      by (rewrite <- app_assoc; reflexivity).
    apply IH, graph_loop_body_inv, H.
Qed.

(** *** Records that nothing requires *)

Lemma is_corequisite_for_after_elem courses p k :
  k ∈ is_corequisite_for_after courses p
  <-> exists c, c ∈ courses /\ key c = k /\ k <> "" /\ key p <> ""
                /\ key p ∈ coreq_codes c.
Proof.
  unfold is_corequisite_for_after, attach.
  cbn [set_reverse_fields c_is_corequisite_for default from_option id].
  rewrite elem_of_sorted_requirers. unfold build_reverse_corequisite_map.
  rewrite fold_add_course_elem, lookup_empty. split.
  - intros [H|(c & Hc & H)].
    + apply not_elem_of_empty in H. destruct H.
    + exists c. split; [exact Hc|exact H].
  - intros (c & Hc & H). right. exists c. split; [exact Hc|exact H].
Qed.

Lemma nil_iff_no_elem (l : list string) : l = [] <-> forall k, k ∉ l.
Proof.
  split.
  - intros -> k H. inversion H.
  - destruct l as [|x l]; [reflexivity|]. intros H. destruct (H x). left.
Qed.

(** *** From the batch loop to the graph builder *)

Lemma loop_body_fst_elem fuel st c c' :
  c' ∈ fst (Batch.loop_body fuel st c) ->
  c' ∈ fst st
  \/ (exists a, parse fuel (Str.strip (default "" (c_prerequisites c)))
                     (Str.strip (default "" (c_concurrent c))) = Ret a
                /\ c' = set_prerequisite_ast c a)
  \/ (exists e, c' = set_prerequisite_ast c
                       (Ast None None (Str.strip (default "" (c_prerequisites c))) (Some e))).
Proof.
  destruct st as [out s]. unfold Batch.loop_body.
  destruct (parse fuel _ _) as [a|e] eqn:E; cbn [fst];
    intros [H|H]%elem_of_app; auto; apply list_elem_of_singleton in H; subst c'.
  - right. left. eauto.
  - right. right. eauto.
Qed.

Lemma parsed_collected_code_ok fuel prerequisites_text concurrent_text a x inc inc' :
  parse fuel prerequisites_text concurrent_text = Ret a ->
  x ∈ get_all_prerequisite_courses (prerequisites a) inc
  \/ x ∈ get_all_prerequisite_courses (corequisites a) inc' ->
  course_code_ok x = true.
Proof.
  intros H. pose proof (parse_codes_ok _ _ _ _ H) as [Hp Hc]. intros [Hx|Hx].
  - destruct (prerequisites a) as [n|]; [|inversion Hx]. cbn in *.
    apply collect_leaf in Hx as (b & Hb & _). eapply leaf_at_code_ok; eassumption.
  - destruct (corequisites a) as [n|]; [|inversion Hx]. cbn in *.
    apply collect_leaf in Hx as (b & Hb & _). eapply leaf_at_code_ok; eassumption.
Qed.

(** *** The members of the attached sequences *)

Lemma key_shape (c : course) : key c <> "" -> join_key_ok (key c) = true.
Proof.
  unfold key. intros H.
  destruct (extract_course_code_shape (default "" (c_title c))) as [E|E];
    [contradiction|exact E].
Qed.


(* ===================================================================== *)
(** ** Further properties of the parser, the batch loop and the graph builder *)
(* ===================================================================== *)

(** *** Join keys *)

(** X1. Whatever the title, [extract_course_code_from_title] returns the
    empty string or a well-formed join key: exactly eight characters, four
    upper-case letters followed by four digits. The whitespace the title
    may have between the letters and the digits is never part of the
    key. *)
Theorem X1_title_key_empty_or_well_formed (title : string) :
  extract_course_code_from_title title = ""
  \/ join_key_ok (extract_course_code_from_title title) = true.
Proof. apply extract_course_code_shape. Qed.

(** X2. A title that begins with four upper-case letters, any run of
    whitespace (possibly empty) and four digits has these letters and
    digits as its join key, whatever follows them. *)
Theorem X2_title_key_of_leading_code letters gap digits rest :
  String.length letters = 4 -> all_chars is_upper letters = true ->
  all_chars Chars.is_space gap = true ->
  String.length digits = 4 -> all_chars Chars.is_digit digits = true ->
  extract_course_code_from_title (letters ++ gap ++ digits ++ rest) = letters ++ digits.
Proof. apply extract_course_code_of_leading_code. Qed.

(** The title of the docstring of [extract_course_code_from_title]. *)
Lemma X2_title_key_witness :
  extract_course_code_from_title ("CSCE" ++ " " ++ "1101" ++ " - Fundamentals of Computing I")
  = "CSCE" ++ "1101".
Proof.
  apply (X2_title_key_of_leading_code "CSCE" " " "1101" " - Fundamentals of Computing I");
    reflexivity.
Defined.

(** *** The trees of [parse] *)

(** X3. In both trees of an AST returned by [parse], every course code
    consists of four upper-case letters, then whitespace characters other
    than the space (the spaces of the match are removed, the other
    whitespace is kept), then four digits. *)
Theorem X3_parsed_course_codes_have_code_shape
    fuel prerequisites_text concurrent_text a :
  parse fuel prerequisites_text concurrent_text = Ret a ->
  leaves_ok_opt leaf_code_ok (prerequisites a) = true
  /\ leaves_ok_opt leaf_code_ok (corequisites a) = true.
Proof. apply parse_codes_ok. Qed.

Lemma X3_parsed_course_codes_witness :
  exists a,
    parse 5 "CSCE 1001 and MATH 1401" "CSCE 2000" = Ret a
    /\ leaves_ok_opt leaf_code_ok (prerequisites a) = true
    /\ leaves_ok_opt leaf_code_ok (corequisites a) = true.
Proof.
  eexists. split; [vm_compute; reflexivity|].
  eapply (X3_parsed_course_codes_have_code_shape 5 "CSCE 1001 and MATH 1401" "CSCE 2000").
  vm_compute. reflexivity.
Defined.

(** X4. [_parse_with_groups] returns what the parser returns on the text
    in which every innermost parenthesised span is replaced by its
    placeholder: the texts stored in the table of groups have no effect on
    the result, and [_replace_placeholders] leaves the parsed tree as it
    is. *)
Theorem X4_groups_parsed_as_placeholders fuel text :
  _parse_with_groups (_parse_expression fuel) text
  = _parse_expression fuel (with_placeholders text).
Proof. apply parse_with_groups_discards_groups. Qed.

(** X5. In the prerequisites tree of an AST returned by [parse], every
    course leaf carries both flags, and both are false: a modifier such as
    "(or concurrent)" never sets [is_concurrent], since the parenthesised
    span is replaced by a placeholder before [_parse_atomic] looks for
    it. *)
Theorem X5_prerequisite_leaves_flags_false fuel prerequisites_text concurrent_text a :
  parse fuel prerequisites_text concurrent_text = Ret a ->
  leaves_ok_opt leaf_flags_false (prerequisites a) = true.
Proof.
  intros H. apply parse_prerequisites_origin in H as [->|[t H]]; [reflexivity|].
  eapply parse_expression_flags_false, H.
Qed.

Lemma X5_prerequisite_leaves_witness :
  exists a,
    parse 5 "CSCE 1001 (or concurrent) and MATH 1401" "" = Ret a
    /\ leaves_ok_opt leaf_flags_false (prerequisites a) = true.
Proof.
  eexists. split; [vm_compute; reflexivity|].
  eapply (X5_prerequisite_leaves_flags_false 5
            "CSCE 1001 (or concurrent) and MATH 1401" "").
  vm_compute. reflexivity.
Defined.

(** X6. The trees of an AST returned by [parse] are shallow. The
    prerequisites tree is a leaf, an [Or] of leaves, or an [And] of leaves
    and of [Or]s of leaves; it holds no [Group] and no [Concurrent] node.
    The corequisites tree is one [Concurrent] wrapper around a course leaf
    or an [Or] of course leaves, or the [And] of two such wrappers. *)
Theorem X6_parsed_tree_shapes fuel prerequisites_text concurrent_text a :
  parse fuel prerequisites_text concurrent_text = Ret a ->
  opt_ok flat (prerequisites a) = true /\ opt_ok coreq_shape (corequisites a) = true.
Proof. apply parse_tree_shapes. Qed.

Lemma X6_parsed_tree_shapes_witness :
  exists a,
    parse 5 "CSCE 1001 and CSCE 1101 or MATH 1401, and concurrent with CSCE 2000"
            "CSCE 2001, CSCE 2002" = Ret a
    /\ opt_ok flat (prerequisites a) = true
    /\ opt_ok coreq_shape (corequisites a) = true.
Proof.
  eexists. split; [vm_compute; reflexivity|].
  eapply (X6_parsed_tree_shapes 5
            "CSCE 1001 and CSCE 1101 or MATH 1401, and concurrent with CSCE 2000"
            "CSCE 2001, CSCE 2002").
  vm_compute. reflexivity.
Defined.

(** X7. On the trees of an AST returned by [parse], the flag of
    [get_all_prerequisite_courses] only matters for the corequisites tree:
    the prerequisites tree gives the same set of codes with and without
    [include_corequisites], and the corequisites tree gives the empty set
    without it. *)
Theorem X7_collection_flag_on_parsed_trees fuel prerequisites_text concurrent_text a :
  parse fuel prerequisites_text concurrent_text = Ret a ->
  get_all_prerequisite_courses (prerequisites a) false
  = get_all_prerequisite_courses (prerequisites a) true
  /\ get_all_prerequisite_courses (corequisites a) false = ∅.
Proof.
  intros H. pose proof (parse_tree_shapes _ _ _ _ H) as [Hflat Hco]. split.
  - destruct (prerequisites a) as [n|]; [|reflexivity]. cbn. apply collect_flat, Hflat.
  - destruct (corequisites a) as [n|]; [|reflexivity]. cbn. apply collect_coreq_shape, Hco.
Qed.

Lemma X7_collection_flag_witness :
  exists a,
    parse 5 "CSCE 1001 and CSCE 1101" "CSCE 2000" = Ret a
    /\ get_all_prerequisite_courses (prerequisites a) false
       = get_all_prerequisite_courses (prerequisites a) true
    /\ get_all_prerequisite_courses (corequisites a) false = ∅.
Proof.
  eexists. split; [vm_compute; reflexivity|].
  eapply (X7_collection_flag_on_parsed_trees 5 "CSCE 1001 and CSCE 1101" "CSCE 2000").
  vm_compute. reflexivity.
Defined.

(** X8. When every whitespace character of the two texts is a space, each
    code that the graph builder collects from the trees of the AST returned
    by [parse] is a well-formed join key, and it is the join key of a title
    that consists of this code: parser and graph builder then agree on the
    form of a course code. *)
Theorem X8_collected_codes_are_join_keys fuel prerequisites_text concurrent_text a x :
  plain_spaces prerequisites_text = true -> plain_spaces concurrent_text = true ->
  parse fuel prerequisites_text concurrent_text = Ret a ->
  x ∈ get_all_prerequisite_courses (prerequisites a) false
  \/ x ∈ get_all_prerequisite_courses (corequisites a) true ->
  join_key_ok x = true /\ extract_course_code_from_title x = x.
Proof.
  intros Hp0 Hc0 H Hx. pose proof (parse_keys _ _ _ _ Hp0 Hc0 H) as [Hp Hc].
  assert (Hk : join_key_ok x = true).
  { destruct Hx as [Hx|Hx].
    - destruct (prerequisites a) as [n|]; [|inversion Hx]. cbn in *.
      apply collect_leaf in Hx as (b & Hb & _). eapply leaf_at_key_ok; eassumption.
    - destruct (corequisites a) as [n|]; [|inversion Hx]. cbn in *.
      apply collect_leaf in Hx as (b & Hb & _). eapply leaf_at_key_ok; eassumption. }
  split; [exact Hk|apply join_key_round_trip, Hk].
Qed.

Lemma X8_collected_codes_witness :
  let a := Ast (Some (Course "CSCE1001" (Some false) (Some false))) None
               "CSCE 1001" None in
  parse 5 "CSCE 1001" "" = Ret a
  /\ join_key_ok "CSCE1001" = true
  /\ extract_course_code_from_title "CSCE1001" = "CSCE1001".
Proof.
  intros a. split; [vm_compute; reflexivity|].
  apply (X8_collected_codes_are_join_keys 5 "CSCE 1001" "" a "CSCE1001");
    [reflexivity|reflexivity|vm_compute; reflexivity|].
  left. apply elem_of_singleton. reflexivity.
Defined.

(** X9. A non-empty text that still holds both parentheses after
    normalization, and that normalization and the substitution of the
    groups leave unchanged (no parenthesised span without an inner
    parenthesis, as in ")(" or "()"), makes [_parse_expression] and
    [_parse_with_groups] call each other for ever: the call ends in
    [RecursionError] whatever the recursion limit. *)
Theorem X9_stuck_parentheses_raise fuel text :
  Str.is_empty text = false ->
  Str.has_char "(" (normalize text) && Str.has_char ")" (normalize text) = true ->
  with_placeholders (normalize text) = text ->
  _parse_expression fuel text = Raise RecursionError.
Proof.
  intros Hne Hpar Hfix. induction fuel as [|fuel IH]; [reflexivity|].
  rewrite parse_expression_group_step by assumption. rewrite Hfix. exact IH.
Qed.

Lemma X9_stuck_parentheses_witness :
  _parse_expression 1000 "CSCE 1001 )(" = Raise RecursionError.
Proof.
  apply (X9_stuck_parentheses_raise 1000 "CSCE 1001 )("); vm_compute; reflexivity.
Defined.

(** X10. The result of [_parse_expression] does not depend on the
    recursion limit: when the call returns under one limit, it returns the
    same tree under every larger limit. *)
Theorem X10_result_independent_of_recursion_bound fuel fuel' text r :
  fuel <= fuel' ->
  _parse_expression fuel text = Ret r -> _parse_expression fuel' text = Ret r.
Proof.
  induction 1 as [|fuel' _ IH]; intros H; [exact H|].
  apply parse_expression_fuel_mono, IH, H.
Qed.

Lemma X10_recursion_bound_witness :
  _parse_expression 1000 "CSCE 1001 and (CSCE 1101 or MATH 1401)"
  = Ret (Some (And [Course "CSCE1001" (Some false) (Some false);
                    TextCondition "~~~GROUP0~~~" other])).
Proof.
  apply (X10_result_independent_of_recursion_bound 2 1000
           "CSCE 1001 and (CSCE 1101 or MATH 1401)");
    [lia|vm_compute; reflexivity].
Defined.

(** X11. [parse] returns an AST, with no parse-error marker, on every
    prerequisite text that lacks an opening or a closing parenthesis,
    whatever the concurrent text: a recursion limit of one call is
    enough. *)
Theorem X11_parse_returns_without_parenthesis_pair fuel prerequisites_text concurrent_text :
  no_group_chars prerequisites_text = true ->
  exists a, parse (S fuel) prerequisites_text concurrent_text = Ret a
            /\ parse_error a = None.
Proof.
  unfold no_group_chars. intros H. apply negb_true_iff, andb_false_iff in H.
  assert (Ha : exists a, parse (S fuel) prerequisites_text concurrent_text = Ret a).
  { destruct H as [H|H].
    - apply (parse_returns_char "("); [left; reflexivity|exact H].
    - apply (parse_returns_char ")"); [right; reflexivity|exact H]. }
  destruct Ha as [a Ha]. exists a. split; [exact Ha|].
  eapply parse_ret_no_error, Ha.
Qed.

Lemma X11_parse_returns_witness :
  exists a, parse 1 "CSCE 1001 and junior standing (lab" "CSCE 2000" = Ret a
            /\ parse_error a = None.
Proof.
  apply (X11_parse_returns_without_parenthesis_pair 0
           "CSCE 1001 and junior standing (lab" "CSCE 2000").
  reflexivity.
Defined.

(** X12. A text condition built by [_parse_atomic] has at least six
    characters, and at least eight when its category is not [other]: a
    fragment of five characters or fewer that holds no course code is
    always dropped, since the shortest keywords of the table ("standing",
    "approval") have eight characters. *)
Theorem X12_text_condition_length text t c :
  _parse_atomic text = Some (TextCondition t c) ->
  5 < String.length t /\ (c <> other -> 8 <= String.length t).
Proof.
  unfold _parse_atomic. destruct (Str.is_empty text); [discriminate|].
  destruct (match search true OR_CONCURRENT_PATTERN _ with
            | Some _ => _ | None => _ end) as [b t'].
  destruct (search false COURSE_PATTERN t'); [discriminate|].
  destruct (negb _ || _) eqn:E; [|discriminate]. intros [= <- <-].
  assert (Hcat : category_loop text_conditions (Str.lower t') <> other ->
                 8 <= String.length t').
  { rewrite category_loop_last. intros E'.
    assert (H : exists cat, triggers cat (Str.lower t') = true).
    { destruct (triggers preparation _) eqn:E1; [eauto|].
      destruct (triggers exemption _) eqn:E2; [eauto|].
      destruct (triggers approval _) eqn:E3; [eauto|].
      destruct (triggers standing _) eqn:E4; [eauto|]. congruence. }
    destruct H as [cat H]. apply triggers_length in H. rewrite length_lower in H.
    exact H. }
  split; [|exact Hcat].
  apply orb_true_iff in E as [E|E]; [|apply Nat.ltb_lt, E].
  apply negb_true_iff, bool_decide_eq_false in E. apply Hcat in E. lia.
Qed.

Lemma X12_text_condition_witness :
  5 < String.length "junior standing"
  /\ (standing <> other -> 8 <= String.length "junior standing").
Proof.
  apply (X12_text_condition_length "junior standing," "junior standing" standing).
  vm_compute. reflexivity.
Defined.

(** *** The batch loop *)

(** X13. The counters of the batch loop: [total] is the number of input
    records and so is the number of output records; [errors] is the number
    of output records that carry a parse-error marker; and a record is
    counted at most once among [with_prerequisites], [empty] and [errors],
    and at most once among [with_corequisites], [empty] and [errors]. *)
Theorem X13_batch_statistics fuel courses :
  let out := fst (Batch.parse_courses fuel courses) in
  let s := snd (Batch.parse_courses fuel courses) in
  Batch.total s = length courses
  /\ length out = length courses
  /\ Batch.errors s = length (List.filter has_parse_error out)
  /\ Batch.with_prerequisites s + Batch.empty s + Batch.errors s <= Batch.total s
  /\ Batch.with_corequisites s + Batch.empty s + Batch.errors s <= Batch.total s.
Proof.
  cbv zeta.
  assert (Hlen : length (fst (Batch.parse_courses fuel courses)) = length courses).
  { unfold Batch.parse_courses. rewrite fold_loop_body. cbn. apply length_map. }
  pose proof (fold_loop_body_inv fuel (length courses) courses
                ([], Batch.Stats (length courses) 0 0 0 0)) as H.
  fold (Batch.parse_courses fuel courses) in H.
  destruct (Batch.parse_courses fuel courses) as [out s]. cbn [fst snd] in *.
  destruct H as (Ht & He & Hp & Hc); [cbn; repeat split; lia|].
  rewrite Ht. repeat split; try assumption; lia.
Qed.

(** X14. From the batch loop to the graph builder: a record of the output
    of the batch loop that carries a parse-error marker gives no code to
    either reverse map, and every code collected from any record of the
    output has the shape of a course code. *)
Theorem X14_batch_output_feeds_graph fuel courses c' x :
  c' ∈ fst (Batch.parse_courses fuel courses) ->
  (has_parse_error c' = true -> prereq_codes c' = ∅ /\ coreq_codes c' = ∅)
  /\ (x ∈ prereq_codes c' ∪ coreq_codes c' -> course_code_ok x = true).
Proof.
  unfold Batch.parse_courses. rewrite fold_loop_body. cbn [fst app].
  intros (c & -> & _)%list_elem_of_fmap.
  unfold has_parse_error, prereq_codes, coreq_codes, prereq_tree, coreq_tree.
  cbn [set_prerequisite_ast c_prerequisite_ast mbind option_bind].
  destruct (parse fuel _ _) as [a|e] eqn:E.
  - rewrite (parse_ret_no_error _ _ _ _ E). split.
    + intros H. apply bool_decide_eq_true in H. destruct H as [? H]. discriminate H.
    + intros [Hx|Hx]%elem_of_union;
        apply (parsed_collected_code_ok _ _ _ a x false true E); [left|right]; exact Hx.
  - cbn [prerequisites corequisites get_all_prerequisite_courses]. split.
    + intros _. split; reflexivity.
    + intros Hx. apply elem_of_union in Hx as [Hx|Hx];
        apply not_elem_of_empty in Hx; destruct Hx.
Qed.

(** The record on which the parser raises gives no code; the code of the
    other one has the shape of a course code. *)
Lemma X14_batch_output_witness :
  let bad := MkCourse (Some "CSCE 2000 - Programming") (Some "()") None None None None in
  let good := MkCourse (Some "CSCE 2001 - Data") (Some "CSCE 2000") None None None None in
  let bad' := set_prerequisite_ast bad (Ast None None "()" (Some RecursionError)) in
  let good' := set_prerequisite_ast good
                 (Ast (Some (Course "CSCE2000" (Some false) (Some false)))
                      None "CSCE 2000" None) in
  ((has_parse_error bad' = true -> prereq_codes bad' = ∅ /\ coreq_codes bad' = ∅)
   /\ ("CSCE2000" ∈ prereq_codes bad' ∪ coreq_codes bad' ->
       course_code_ok "CSCE2000" = true))
  /\ ((has_parse_error good' = true -> prereq_codes good' = ∅ /\ coreq_codes good' = ∅)
      /\ ("CSCE2000" ∈ prereq_codes good' ∪ coreq_codes good' ->
          course_code_ok "CSCE2000" = true)).
Proof.
  intros bad good bad' good'. split.
  - apply (X14_batch_output_feeds_graph 40 [bad; good] bad' "CSCE2000").
    vm_compute. left.
  - apply (X14_batch_output_feeds_graph 40 [bad; good] good' "CSCE2000").
    vm_compute. right. left.
Defined.

(** *** The graph builder *)

(** X15. Both sequences attached to a record by the graph builder are
    sorted in the order of [sorted] on strings and hold no code twice. *)
Theorem X15_attached_sequences_sorted_nodup courses c' :
  c' ∈ enhance courses ->
  exists pre co,
    c_is_prerequisite_for c' = Some pre /\ c_is_corequisite_for c' = Some co
    /\ StronglySorted str_le pre /\ NoDup pre
    /\ StronglySorted str_le co /\ NoDup co.
Proof.
  unfold enhance. intros (c & -> & _)%list_elem_of_fmap.
  eexists _, _. split; [reflexivity|]. split; [reflexivity|].
  split; [apply sorted_requirers_sorted|]. split; [apply sorted_requirers_sorted|].
  split; apply sorted_requirers_sorted.
Qed.

Lemma X15_attached_sequences_witness :
  let c1 := MkCourse (Some "CSCE 1001 - Intro") None None
              (Some (Ast None None "" None)) None None in
  let c2 := MkCourse (Some "CSCE 1101 - Fundamentals") None None
              (Some (Ast (Some (Course "CSCE1001" (Some false) (Some false)))
                         None "CSCE 1001" None)) None None in
  exists pre co,
    c_is_prerequisite_for (attach (build_reverse_prerequisite_map [c1; c2])
                                  (build_reverse_corequisite_map [c1; c2]) c1) = Some pre
    /\ c_is_corequisite_for (attach (build_reverse_prerequisite_map [c1; c2])
                                    (build_reverse_corequisite_map [c1; c2]) c1) = Some co
    /\ StronglySorted str_le pre /\ NoDup pre
    /\ StronglySorted str_le co /\ NoDup co.
Proof.
  intros c1 c2.
  apply (X15_attached_sequences_sorted_nodup [c1; c2]
           (attach (build_reverse_prerequisite_map [c1; c2])
                   (build_reverse_corequisite_map [c1; c2]) c1)).
  unfold enhance. cbn [map]. left.
Defined.

(** X16. A record whose title gives no join key gets two empty
    sequences, and the empty string is never a member of a sequence
    attached to any record. *)
Theorem X16_record_without_join_key courses :
  (forall c, key c = "" ->
     is_prerequisite_for_after courses c = [] /\ is_corequisite_for_after courses c = [])
  /\ (forall c, ("" ∉ is_prerequisite_for_after courses c)
                /\ ("" ∉ is_corequisite_for_after courses c)).
Proof.
  split.
  - intros c Hk. unfold is_prerequisite_for_after, is_corequisite_for_after, attach.
    cbn [set_reverse_fields c_is_prerequisite_for c_is_corequisite_for default from_option id].
    fold (key c). rewrite Hk. unfold sorted_requirers.
    unfold build_reverse_prerequisite_map, build_reverse_corequisite_map.
    rewrite !(proj2 (reverse_map_no_empty _ _ _)), elements_empty. split; reflexivity.
  - intros c. unfold is_prerequisite_for_after, is_corequisite_for_after, attach.
    cbn [set_reverse_fields c_is_prerequisite_for c_is_corequisite_for default from_option id].
    rewrite !elem_of_sorted_requirers. split; apply reverse_map_no_empty.
Qed.

Lemma X16_record_without_join_key_witness :
  let c1 := MkCourse (Some "Senior Project") None None
              (Some (Ast None None "" None)) None None in
  let c2 := MkCourse (Some "CSCE 1101 - Fundamentals") None None
              (Some (Ast (Some (Course "CSCE1001" (Some false) (Some false)))
                         None "CSCE 1001" None)) None None in
  is_prerequisite_for_after [c1; c2] c1 = []
  /\ is_corequisite_for_after [c1; c2] c1 = [].
Proof.
  intros c1 c2.
  apply (proj1 (X16_record_without_join_key [c1; c2]) c1). reflexivity.
Defined.

(** X17. The inversion for corequisites, by join key: for records [c] and
    [p] that have a join key, the key of [c] is in the [is_corequisite_for]
    sequence attached to [p] exactly when the key of [p] is among the codes
    collected, [Concurrent] wrappers included, from the corequisites tree
    of some record of the catalog that carries the join key of [c]. *)
Theorem X17_corequisite_inversion_by_join_key courses c p :
  key c <> "" -> key p <> "" ->
  (key c ∈ is_corequisite_for_after courses p
   <-> exists c', c' ∈ courses /\ key c' = key c /\ key p ∈ coreq_codes c').
Proof.
  intros Hkc Hkp. unfold is_corequisite_for_after, attach.
  cbn [set_reverse_fields c_is_corequisite_for default from_option id].
  rewrite elem_of_sorted_requirers. unfold build_reverse_corequisite_map.
  rewrite fold_add_course_elem, lookup_empty. split.
  - intros [H|(c' & Hc' & H1 & _ & _ & H2)].
    + apply not_elem_of_empty in H. destruct H.
    + exists c'. auto.
  - intros (c' & Hc' & H1 & H2). right. exists c'. split; [exact Hc'|].
    split; [exact H1|]. split; [exact Hkc|]. split; [exact Hkp|exact H2].
Qed.

Lemma X17_corequisite_inversion_witness :
  let p := MkCourse (Some "CSCE 2000 - Lab") None None
             (Some (Ast None None "" None)) None None in
  let c := MkCourse (Some "CSCE 2001 - Lecture") None None
             (Some (Ast None (Some (Concurrent (Course "CSCE2000" None None) ""))
                        "Concurrent with CSCE 2000" None)) None None in
  key c ∈ is_corequisite_for_after [p; c] p
  <-> exists c', c' ∈ [p; c] /\ key c' = key c /\ key p ∈ coreq_codes c'.
Proof.
  intros p c.
  apply (X17_corequisite_inversion_by_join_key [p; c] c p);
    intros H; vm_compute in H; discriminate H.
Defined.

(** X18. The counters of the graph builder: the output of the loop is the
    catalog with the two sequences attached to every record; [total] is the
    number of records; [orphans] is the number of records whose two
    sequences are empty; no record is counted both as an orphan and as a
    prerequisite or a corequisite of something, and every record is counted
    at least once among the three. *)
Theorem X18_graph_statistics courses :
  let out := fst (GraphMain.main_loop courses) in
  let s := snd (GraphMain.main_loop courses) in
  out = enhance courses
  /\ GraphMain.total s = length courses
  /\ GraphMain.orphans s = length (List.filter (is_orphan courses) courses)
  /\ GraphMain.with_prereq_for s + GraphMain.orphans s <= GraphMain.total s
  /\ GraphMain.with_coreq_for s + GraphMain.orphans s <= GraphMain.total s
  /\ GraphMain.total s
     <= GraphMain.with_prereq_for s + GraphMain.with_coreq_for s + GraphMain.orphans s.
Proof.
  intros out s. subst out s. unfold GraphMain.main_loop.
  pose proof (fold_graph_loop_body_inv courses courses []
                ([], GraphMain.Stats (length courses) 0 0 0)) as H.
  cbn [app] in H.
  destruct (fold_left _ courses _) as [out s].
  destruct H as (Hout & Htot & Horph & H1 & H2 & H3).
  { cbn. repeat split; lia. }
  cbn [fst snd]. rewrite Htot. repeat split; assumption.
Qed.

(** X19. The [is_prerequisite_for] sequence attached to a record is empty
    exactly when the record has no join key or no record of the catalog
    that has a join key collects this key from its prerequisites tree; the
    same holds for [is_corequisite_for] and the corequisites trees. *)
Theorem X19_empty_sequence_iff_no_requirer courses p :
  (is_prerequisite_for_after courses p = []
   <-> key p = "" \/ forall c, c ∈ courses -> key c <> "" -> key p ∉ prereq_codes c)
  /\ (is_corequisite_for_after courses p = []
      <-> key p = "" \/ forall c, c ∈ courses -> key c <> "" -> key p ∉ coreq_codes c).
Proof.
  split; rewrite nil_iff_no_elem.
  - split.
    + intros H. destruct (decide (key p = "")) as [Hk|Hk]; [left; exact Hk|right].
      intros c Hc Hkc Hin. apply (H (key c)). apply is_prerequisite_for_after_elem.
      exists c. auto.
    + intros [Hk|H] k Hin; apply is_prerequisite_for_after_elem in Hin
        as (c & Hc & <- & Hkc & Hkp & Hin); [congruence|]. exact (H c Hc Hkc Hin).
  - split.
    + intros H. destruct (decide (key p = "")) as [Hk|Hk]; [left; exact Hk|right].
      intros c Hc Hkc Hin. apply (H (key c)). apply is_corequisite_for_after_elem.
      exists c. auto.
    + intros [Hk|H] k Hin; apply is_corequisite_for_after_elem in Hin
        as (c & Hc & <- & Hkc & Hkp & Hin); [congruence|]. exact (H c Hc Hkc Hin).
Qed.

(** X20. Every member of a sequence attached to a record is the join key
    of a record of the catalog and is well formed (four upper-case letters
    and four digits), and a record with a non-empty sequence has a
    well-formed join key itself. *)
Theorem X20_sequence_members_are_catalog_keys courses p k :
  k ∈ is_prerequisite_for_after courses p \/ k ∈ is_corequisite_for_after courses p ->
  join_key_ok k = true /\ join_key_ok (key p) = true
  /\ exists c, c ∈ courses /\ key c = k.
Proof.
  intros [H|H];
    [apply is_prerequisite_for_after_elem in H|apply is_corequisite_for_after_elem in H];
    destruct H as (c & Hc & <- & Hkc & Hkp & _);
    (split; [apply key_shape, Hkc|]); (split; [apply key_shape, Hkp|]); eauto.
Qed.

Lemma X20_sequence_members_witness :
  let c := MkCourse (Some "CSCE 1101 - Fundamentals II") None None
             (Some (Ast (Some (Course "CSCE1001" (Some false) (Some false)))
                        None "CSCE 1001" None)) None None in
  let p := MkCourse (Some "CSCE 1001 - Fundamentals I") None None
             (Some (Ast None None "" None)) None None in
  join_key_ok "CSCE1101" = true /\ join_key_ok (key p) = true
  /\ exists c', c' ∈ [c; p] /\ key c' = "CSCE1101".
Proof.
  intros c p.
  apply (X20_sequence_members_are_catalog_keys [c; p] p "CSCE1101").
  left. vm_compute. left.
Defined.
